(** * Story Voice Generator: the proxy endpoints, the provider client and
      the page orchestrator, embedded from the TypeScript sources.

    - [JS]: the fragment of JavaScript the sources rely on (UTF-16 strings,
      [trim], truthiness, [typeof], property access, settled promises).
    - [Effects]: programs over external calls, with [throw], [try/catch]
      and [try/finally].
    - [Web]: the Fetch API and the calls of a server module.
    - [Elevenlabs]: lib/elevenlabs ([fetchElevenLabsVoices],
      [generateSpeech]).
    - [Next]: requests, responses and the linking of a route handler with
      the functions it imports.
    - [GenerateVoice]: app/api/generate-voice/route.ts ([POST]).
    - [Voices]: app/api/voices/route.ts ([GET]).
    - [Page]: app/page.tsx ([Home]: its state, [loadVoices],
      [handleGenerate], the blob-URL cleanup effect) and the component at
      run time.
    - [Spec], [PageSpec]: the vocabulary of the properties.
    - [JSFacts] ... [PageFacts]: the properties. *)

From Stdlib Require Import List NArith Bool String Ascii Lia.
From Stdlib.Strings Require Import Byte.
From Stdlib Require Import Floats.PrimFloat.
From Stdlib Require Import DecimalString DecimalPos DecimalN.
Import ListNotations.

Set Warnings "-register-all,-notation-for-abbreviation".
Local Open Scope string_scope.
Local Open Scope list_scope.
Local Open Scope N_scope.

(* ================================================================== *)
(** * JavaScript values *)

Module JS.

(** A JavaScript string is a sequence of UTF-16 code units; [length]
    counts code units. *)
Definition js_string := list N.

(** An ASCII literal of the source as a [js_string]. *)
Definition lit (s : string) : js_string :=
  map N_of_ascii (list_ascii_of_string s).

Definition str_length (s : js_string) : N := N.of_nat (List.length s).

Fixpoint str_eqb (a b : js_string) : bool :=
  match a, b with
  | [], [] => true
  | x :: a', y :: b' => (x =? y) && str_eqb a' b'
  | _, _ => false
  end.

Fixpoint starts_with (p s : js_string) : bool :=
  match p, s with
  | [], _ => true
  | x :: p', y :: s' => (x =? y) && starts_with p' s'
  | _ :: _, [] => false
  end.

(** [s.includes(p)] *)
Fixpoint includes (s p : js_string) : bool :=
  starts_with p s ||
  match s with
  | [] => false
  | _ :: s' => includes s' p
  end.

(** The code units [String.prototype.trim] strips: WhiteSpace (TAB, VT,
    FF, SP, NBSP, ZWNBSP and the Unicode space separators) and
    LineTerminator (LF, CR, LS, PS).  All lie in the basic plane. *)
Definition is_white_space (c : N) : bool :=
  ((0x09 <=? c) && (c <=? 0x0D)) || (c =? 0x20) || (c =? 0xA0) ||
  (c =? 0x1680) || ((0x2000 <=? c) && (c <=? 0x200A)) ||
  (c =? 0x2028) || (c =? 0x2029) || (c =? 0x202F) || (c =? 0x205F) ||
  (c =? 0x3000) || (c =? 0xFEFF).

Fixpoint trimStart (s : js_string) : js_string :=
  match s with
  | c :: s' => if is_white_space c then trimStart s' else s
  | [] => []
  end.

Definition trimEnd (s : js_string) : js_string := rev (trimStart (rev s)).

Definition trim (s : js_string) : js_string := trimEnd (trimStart s).

(** The code unit of the double quote. *)
Definition dquote : js_string := [0x22].

(** [n.toString()] for a non-negative integer. *)
Definition toString (n : N) : js_string :=
  lit (NilZero.string_of_uint (N.to_uint n)).

(** Values as [JSON.parse] produces them, plus [undefined].  An object
    keeps its own properties in insertion order, each key once. *)
Inductive js_value : Type :=
| JUndefined
| JNull
| JBool (b : bool)
| JNumber (x : float)
| JString (s : js_string)
| JArray (items : list js_value)
| JObject (props : list (js_string * js_value)).

(** ToBoolean *)
Definition truthy (v : js_value) : bool :=
  match v with
  | JUndefined | JNull => false
  | JBool b => b
  | JNumber x => negb (PrimFloat.eqb x 0 || PrimFloat.is_nan x)
  | JString s => negb (str_length s =? 0)
  | JArray _ | JObject _ => true
  end.

Definition typeof (v : js_value) : js_string :=
  match v with
  | JUndefined => lit "undefined"
  | JNull => lit "object"
  | JBool _ => lit "boolean"
  | JNumber _ => lit "number"
  | JString _ => lit "string"
  | JArray _ | JObject _ => lit "object"
  end.

(** [a || b] *)
Definition or_else (a b : js_value) : js_value := if truthy a then a else b.

(** The string held by a value whose [typeof] is ["string"]. *)
Definition as_string (v : js_value) : js_string :=
  match v with
  | JString s => s
  | _ => []
  end.

Fixpoint lookup (k : js_string) (props : list (js_string * js_value))
  : js_value :=
  match props with
  | [] => JUndefined
  | (k', v) :: rest => if str_eqb k k' then v else lookup k rest
  end.

(** What can be thrown.  [ElevenLabsError] is the class of lib/elevenlabs;
    every other error (TypeError, SyntaxError, ...) fails
    [instanceof ElevenLabsError]. *)
Inductive js_error : Type :=
| ElevenLabsError (message : js_string) (statusCode : option N)
                  (responseBody : option js_string)
| NativeError (name message : js_string).

(** A settled promise, or the completion of an expression. *)
Inductive outcome (A : Type) : Type :=
| Fulfilled (a : A)
| Rejected (e : js_error).
Arguments Fulfilled {A} a.
Arguments Rejected {A} e.

Definition TypeError (msg : string) : js_error :=
  NativeError (lit "TypeError") (lit msg).

(** [v.k] (also what destructuring [const { k } = v] reads): a TypeError
    on [null] and [undefined], the own property of an object, and
    [undefined] for the names used here on every other value (none of
    ["text"], ["voice_id"], ["error"], ["success"], ["voices"], ["name"],
    ["description"], ["category"] is defined on a built-in prototype). *)
Definition get (v : js_value) (k : string) : outcome js_value :=
  match v with
  | JUndefined | JNull =>
      Rejected (TypeError "Cannot read properties of null or undefined")
  | JObject props => Fulfilled (lookup (lit k) props)
  | _ => Fulfilled JUndefined
  end.

(** A plain object literal. *)
Definition obj (props : list (string * js_value)) : js_value :=
  JObject (map (fun p => (lit (fst p), snd p)) props).

Definition js_str (s : string) : js_value := JString (lit s).

End JS.

(* ================================================================== *)
(** * Programs over external calls *)

Module Effects.
Import JS.

Section Prog.
Variable E : Type.          (* the external calls *)
Variable R : E -> Type.     (* what each call answers *)

(** An [async] function body: it returns, throws, or performs an
    external call and continues with its answer. *)
Inductive prog (A : Type) : Type :=
| Ret (a : A)
| Throw (e : js_error)
| Vis (e : E) (k : R e -> prog A).
Arguments Ret {A} a.
Arguments Throw {A} e.
Arguments Vis {A} e k.

Fixpoint bind {A B} (m : prog A) (f : A -> prog B) : prog B :=
  match m with
  | Ret a => f a
  | Throw e => Throw e
  | Vis e k => Vis e (fun x => bind (k x) f)
  end.

Definition trigger (e : E) : prog (R e) := Vis e (fun x => Ret x).

(** [await p] on a promise that settles to [o]; also used for an
    expression that completes normally or abruptly. *)
Definition await {A} (o : outcome A) : prog A :=
  match o with
  | Fulfilled a => Ret a
  | Rejected e => Throw e
  end.

(** [try { m } catch (e) { h e }] *)
Fixpoint try_catch {A} (m : prog A) (h : js_error -> prog A) : prog A :=
  match m with
  | Ret a => Ret a
  | Throw e => h e
  | Vis e k => Vis e (fun x => try_catch (k x) h)
  end.

(** [try { m } finally { f }]: [f] runs on both completions of [m] and
    the completion of [m] is kept unless [f] itself throws. *)
Fixpoint try_finally {A} (m : prog A) (f : prog unit) : prog A :=
  match m with
  | Ret a => bind f (fun _ => Ret a)
  | Throw e => bind f (fun _ => Throw e)
  | Vis e k => Vis e (fun x => try_finally (k x) f)
  end.

(** The promise an [async] call returns, as the caller observes it. *)
Fixpoint settle {A} (m : prog A) : prog (outcome A) :=
  match m with
  | Ret a => Ret (Fulfilled a)
  | Throw e => Ret (Rejected e)
  | Vis e k => Vis e (fun x => settle (k x))
  end.

(** Running a program against an environment that answers every call:
    the calls made, in order, and the completion. *)
Fixpoint run {A} (env : forall e, R e) (m : prog A) : list E * outcome A :=
  match m with
  | Ret a => ([], Fulfilled a)
  | Throw e => ([], Rejected e)
  | Vis e k => let (t, o) := run env (k (env e)) in (e :: t, o)
  end.

End Prog.

Arguments Ret {E R A} a.
Arguments Throw {E R A} e.
Arguments Vis {E R A} e k.
Arguments bind {E R A B} m f.
Arguments trigger {E R} e.
Arguments await {E R A} o.
Arguments try_catch {E R A} m h.
Arguments try_finally {E R A} m f.
Arguments settle {E R A} m.
Arguments run {E R A} env m.

(** Replacing every call of a program by a program over other calls. *)
Section Interp.
Variables (E : Type) (R : E -> Type) (F : Type) (S : F -> Type).
Variable h : forall e : E, prog F S (R e).

Fixpoint interp {A} (m : prog E R A) : prog F S A :=
  match m with
  | Ret a => Ret a
  | Throw e => Throw e
  | Vis e k => bind (h e) (fun x => interp (k x))
  end.
End Interp.
Arguments interp {E R F S} h {A} m.

Module Notations.
Notation "x <- m ;; k" := (bind m (fun x => k))
    (at level 61, m at next level, right associativity).
Notation "m ;;; k" := (bind m (fun _ => k))
    (at level 61, right associativity).
End Notations.

End Effects.

(* ================================================================== *)
(** * The Fetch API and the server runtime *)

Module Web.
Import JS.

Definition ArrayBuffer := list byte.
Definition byteLength (b : ArrayBuffer) : N := N.of_nat (List.length b).

(** The second argument of [fetch].  [body] holds the value whose
    [JSON.stringify] text is sent. *)
Record RequestInit := {
  method : js_string;
  headers : list (js_string * js_string);
  body : option js_value
}.

(** A [Response] as its reader sees it: the status line, the headers and
    what each body reader settles to. *)
Record Response := {
  status : N;
  statusText : js_string;
  response_headers : list (js_string * js_string);
  text : outcome js_string;
  json : outcome js_value;
  arrayBuffer : outcome ArrayBuffer;
  blob : outcome ArrayBuffer
}.

(** [response.ok] *)
Definition ok (r : Response) : bool := (200 <=? status r) && (status r <=? 299).

Definition ascii_lower (c : N) : N :=
  if (65 <=? c) && (c <=? 90) then c + 32 else c.

(** [headers.get(name)]: header names match without regard to ASCII case;
    [null] is [None]. *)
Fixpoint headers_get (hs : list (js_string * js_string)) (name : js_string)
  : option js_string :=
  match hs with
  | [] => None
  | (n, v) :: rest =>
      if str_eqb (map ascii_lower n) (map ascii_lower name) then Some v
      else headers_get rest name
  end.

(** What [console.log] and [console.error] are given. *)
Inductive log_arg : Type :=
| LogString (s : js_string)
| LogError (e : js_error).

(** The calls a server module makes to its runtime. *)
Inductive nodeE : Type :=
| Fetch (url : js_string) (init : RequestInit)
| ConsoleLog (args : list log_arg)
| ConsoleError (args : list log_arg).

Definition nodeR (e : nodeE) : Type :=
  match e with
  | Fetch _ _ => outcome Response
  | ConsoleLog _ | ConsoleError _ => unit
  end.

End Web.

(* ================================================================== *)
(** * lib/elevenlabs *)

Module Elevenlabs.
Import JS Effects Effects.Notations Web.

Definition node A := prog nodeE nodeR A.

Definition fetch (url : js_string) (init : RequestInit) : node Response :=
  Vis (Fetch url init) (fun o => await o).

Definition ELEVENLABS_API_BASE : js_string := lit "https://api.elevenlabs.io/v1".

(** [new ElevenLabsError(message)] leaves [statusCode] and [responseBody]
    undefined. *)
Definition ElevenLabsError1 (message : string) : js_error :=
  ElevenLabsError (lit message) None None.

(** The callback of [data.voices.map]: the reduced voice object. *)
Definition reduce_voice (voice : js_value) : outcome js_value :=
  match get voice "voice_id", get voice "name",
        get voice "description", get voice "category" with
  | Fulfilled voice_id, Fulfilled name, Fulfilled description,
    Fulfilled category =>
      Fulfilled (obj [("voice_id", voice_id); ("name", name);
                      ("description", description); ("category", category)])
  | Rejected e, _, _, _ => Rejected e
  | _, Rejected e, _, _ => Rejected e
  | _, _, Rejected e, _ => Rejected e
  | _, _, _, Rejected e => Rejected e
  end.

Fixpoint map_outcome (f : js_value -> outcome js_value) (l : list js_value)
  : outcome (list js_value) :=
  match l with
  | [] => Fulfilled []
  | x :: l' =>
      match f x with
      | Rejected e => Rejected e
      | Fulfilled y =>
          match map_outcome f l' with
          | Rejected e => Rejected e
          | Fulfilled ys => Fulfilled (y :: ys)
          end
      end
  end.

(** [v.map(f)]: only a JSON array has a [map] method. *)
Definition array_map (v : js_value) (f : js_value -> outcome js_value)
  : outcome (list js_value) :=
  match v with
  | JArray items => map_outcome f items
  | _ => Rejected (TypeError "map is not a function")
  end.

Definition fetchElevenLabsVoices (apiKey : js_string) : node (list js_value) :=
  if negb (truthy (JString apiKey)) then
    Throw (ElevenLabsError1 "API key is required")
  else
    response <- fetch (ELEVENLABS_API_BASE ++ lit "/voices")
      {| method := lit "GET";
         headers := [(lit "Accept", lit "application/json");
                     (lit "xi-api-key", apiKey)];
         body := None |} ;;
    if negb (ok response) then
      errorBody <- await (text response) ;;
      Throw (ElevenLabsError
               (lit "Failed to fetch voices: " ++ statusText response)
               (Some (status response))
               (Some errorBody))
    else
      data <- await (json response) ;;
      voices <- await (get data "voices") ;;
      await (array_map voices reduce_voice).

Definition generateSpeech (apiKey text voiceId : js_string) : node ArrayBuffer :=
  if negb (truthy (JString apiKey)) then
    Throw (ElevenLabsError1 "API key is required")
  else if negb (truthy (JString text)) || (str_length (trim text) =? 0) then
    Throw (ElevenLabsError1 "Text is required and cannot be empty")
  else if negb (truthy (JString voiceId)) then
    Throw (ElevenLabsError1 "Voice ID is required")
  else
    let requestBody :=
      obj [("text", JString text);
           ("model_id", js_str "eleven_monolingual_v1");
           ("voice_settings",
            obj [("stability", JNumber 0.5%float);
                 ("similarity_boost", JNumber 0.75%float)])] in
    response <- fetch (ELEVENLABS_API_BASE ++ lit "/text-to-speech/" ++ voiceId)
      {| method := lit "POST";
         headers := [(lit "Accept", lit "audio/mpeg");
                     (lit "Content-Type", lit "application/json");
                     (lit "xi-api-key", apiKey)];
         body := Some requestBody |} ;;
    if negb (ok response) then
      errorBody <- await (Web.text response) ;;
      let errorMessage :=
        if status response =? 401 then lit "Invalid API key"
        else if status response =? 422 then
          lit "Invalid request: check text length and voice ID"
        else if status response =? 429 then
          lit "Rate limit exceeded: please try again later"
        else lit "Failed to generate speech: " ++ statusText response in
      Throw (ElevenLabsError errorMessage (Some (status response))
                             (Some errorBody))
    else
      await (arrayBuffer response).

End Elevenlabs.

(* ================================================================== *)
(** * Route handlers: what they call and what they answer *)

Module Next.
Import JS Effects Effects.Notations Web.

(** [process.env] *)
Record ProcessEnv := { ELEVENLABS_API_KEY : option js_string }.

Definition env_value (o : option js_string) : js_value :=
  match o with
  | Some s => JString s
  | None => JUndefined
  end.

(** [v === "literal"] *)
Definition strict_eq_lit (v : js_value) (s : string) : bool :=
  match v with
  | JString x => str_eqb x (lit s)
  | _ => false
  end.

(** A [NextRequest], as far as the handlers read it: what
    [request.json()] settles to. *)
Record NextRequest := { request_json : outcome js_value }.

Inductive response_body : Type :=
| JsonBody (v : js_value)
| BufferBody (b : ArrayBuffer).

Record NextResponse := {
  res_status : N;
  res_headers : list (js_string * js_string);
  res_body : response_body
}.

(** The response [NextResponse.json(body, { status })] returns, when it
    returns one. *)
Definition json_response (body : js_value) (status : N) : NextResponse :=
  {| res_status := status;
     res_headers := [(lit "content-type", lit "application/json")];
     res_body := JsonBody body |}.

(** A status that a response with a body cannot have (101 and 103 are
    null body statuses too, and out of range already). *)
Definition null_body_status (status : N) : bool :=
  (status =? 204) || (status =? 205) || (status =? 304).

(** [NextResponse.json(body, { status })].  It builds the response with
    [Response.json], which throws a RangeError for a status outside
    200..599 and, since the response has a body, a TypeError for a null
    body status. *)
Definition NextResponse_json (body : js_value) (status : N)
  : outcome NextResponse :=
  if (status <? 200) || (599 <? status) then
    Rejected (NativeError (lit "RangeError")
                (lit "The status must be in the range of 200 to 599"))
  else if null_body_status status then
    Rejected (TypeError "Invalid response status code")
  else Fulfilled (json_response body status).

(** [new NextResponse(buffer, { status, headers })] *)
Definition NextResponse_new (buffer : ArrayBuffer) (status : N)
    (headers : list (string * js_string)) : NextResponse :=
  {| res_status := status;
     res_headers := map (fun h => (lit (fst h), snd h)) headers;
     res_body := BufferBody buffer |}.

(** A route handler calls the runtime and the functions it imports from
    lib/elevenlabs. *)
Inductive routeE : Type :=
| Runtime (e : nodeE)
| Call_generateSpeech (apiKey text voiceId : js_string)
| Call_fetchElevenLabsVoices (apiKey : js_string).

Definition routeR (e : routeE) : Type :=
  match e with
  | Runtime e' => nodeR e'
  | Call_generateSpeech _ _ _ => outcome ArrayBuffer
  | Call_fetchElevenLabsVoices _ => outcome (list js_value)
  end.

Definition route A := prog routeE routeR A.

Definition console_log (args : list log_arg) : route unit :=
  Vis (Runtime (ConsoleLog args)) (fun _ => Ret tt).

Definition console_error (args : list log_arg) : route unit :=
  Vis (Runtime (ConsoleError args)) (fun _ => Ret tt).

(** [await generateSpeech(apiKey, text, voiceId)] *)
Definition generateSpeech (apiKey text voiceId : js_string) : route ArrayBuffer :=
  Vis (Call_generateSpeech apiKey text voiceId) (fun o => await o).

(** [await fetchElevenLabsVoices(apiKey)] *)
Definition fetchElevenLabsVoices (apiKey : js_string) : route (list js_value) :=
  Vis (Call_fetchElevenLabsVoices apiKey) (fun o => await o).

(** [error.statusCode || 500] *)
Definition statusCode_or (statusCode : option N) (d : N) : N :=
  match statusCode with
  | Some n => if n =? 0 then d else n
  | None => d
  end.

(** The imports resolved: each call of a lib function runs that function
    and hands its promise's completion to the caller. *)
Definition lib (e : routeE) : Elevenlabs.node (routeR e) :=
  match e with
  | Runtime e' => trigger e'
  | Call_generateSpeech a t v => settle (Elevenlabs.generateSpeech a t v)
  | Call_fetchElevenLabsVoices a => settle (Elevenlabs.fetchElevenLabsVoices a)
  end.

Definition link {A} (m : route A) : Elevenlabs.node A := interp lib m.

End Next.

(* ================================================================== *)
(** * app/api/generate-voice/route.ts *)

Module GenerateVoice.
Import JS Effects Effects.Notations Web Next.

Definition MIN_TEXT_LENGTH : N := 1.

(** The error envelope with this message and status. *)
Definition error_response (message : js_string) (status : N) : NextResponse :=
  json_response
    (obj [("success", JBool false); ("error", JString message)]) status.

(** [NextResponse.json({ success: false, error: message }, { status })] *)
Definition json_error (message : js_string) (status : N)
  : route NextResponse :=
  await (NextResponse_json
           (obj [("success", JBool false); ("error", JString message)])
           status).

Section Route.
(** [MAX_TEXT_LENGTH] is imported from lib/constants; its value is left
    open.  [toLocaleString] is [Number.prototype.toLocaleString] in the
    locale of the server. *)
Variable MAX_TEXT_LENGTH : N.
Variable toLocaleString : N -> js_string.

Definition POST (env : ProcessEnv) (request : NextRequest)
  : route NextResponse :=
  let apiKey := env_value (ELEVENLABS_API_KEY env) in
  if negb (truthy apiKey) || strict_eq_lit apiKey "your_key_here" then
    console_error
      [LogString (lit "[/api/generate-voice] ELEVENLABS_API_KEY not configured")] ;;;
    json_error (lit "Server configuration error: API key not set") 500
  else
  match request_json request with
  | Rejected _ =>
      json_error (lit "Invalid JSON in request body") 400
  | Fulfilled body =>
  text <- await (get body "text") ;;
  voice_id <- await (get body "voice_id") ;;
  if negb (truthy text) || negb (str_eqb (typeof text) (lit "string")) then
    json_error (lit "Text is required and must be a string") 400
  else
  let trimmedText := trim (as_string text) in
  if str_length trimmedText <? MIN_TEXT_LENGTH then
    json_error (lit "Text cannot be empty") 400
  else
  if MAX_TEXT_LENGTH <? str_length (as_string text) then
    json_error
      (lit "Text exceeds maximum length of "
       ++ toLocaleString MAX_TEXT_LENGTH ++ lit " characters") 400
  else
  if negb (truthy voice_id) || negb (str_eqb (typeof voice_id) (lit "string")) then
    json_error (lit "Voice ID is required and must be a string") 400
  else
  try_catch
    (console_log
       [LogString (lit "[/api/generate-voice] Generating speech: "
                   ++ toString (str_length (as_string text))
                   ++ lit " chars, voice: " ++ as_string voice_id)] ;;;
     audioBuffer <- generateSpeech (as_string apiKey) trimmedText
                                   (as_string voice_id) ;;
     Ret (NextResponse_new audioBuffer 200
            [("Content-Type", lit "audio/mpeg");
             ("Content-Length", toString (byteLength audioBuffer));
             ("Cache-Control", lit "private, max-age=3600");
             ("Content-Disposition",
              lit "inline; filename=" ++ dquote
              ++ lit "generated-audio.mp3" ++ dquote)]))
    (fun error =>
       console_error
         [LogString (lit "[/api/generate-voice] Error generating speech:");
          LogError error] ;;;
       match error with
       | ElevenLabsError _ statusCode _ =>
           let statusCode := statusCode_or statusCode 500 in
           let clientMessage :=
             if statusCode =? 401 then
               lit "Authentication failed with speech service"
             else if statusCode =? 422 then
               lit "Invalid request: please check your text and try again"
             else if statusCode =? 429 then
               lit "Speech service rate limit exceeded, please try again later"
             else lit "Failed to generate speech" in
           json_error clientMessage
             (if 500 <=? statusCode then 500 else statusCode)
       | NativeError _ _ =>
           json_error
             (lit "An unexpected error occurred while generating speech") 500
       end)
  end.
End Route.

End GenerateVoice.

(* ================================================================== *)
(** * app/api/voices/route.ts *)

Module Voices.
Import JS Effects Effects.Notations Web Next.

Definition GET (env : ProcessEnv) : route NextResponse :=
  let apiKey := env_value (ELEVENLABS_API_KEY env) in
  if negb (truthy apiKey) || strict_eq_lit apiKey "your_key_here" then
    console_error
      [LogString (lit "[/api/voices] ELEVENLABS_API_KEY not configured")] ;;;
    await (NextResponse_json
           (obj [("success", JBool false);
                 ("error", js_str "Server configuration error: API key not set")])
           500)
  else
  try_catch
    (voices <- fetchElevenLabsVoices (as_string apiKey) ;;
     await (NextResponse_json
            (obj [("success", JBool true); ("voices", JArray voices)]) 200))
    (fun error =>
       console_error
         [LogString (lit "[/api/voices] Error fetching voices:");
          LogError error] ;;;
       match error with
       | ElevenLabsError _ statusCode _ =>
           let statusCode := statusCode_or statusCode 500 in
           let clientMessage :=
             if statusCode =? 401 then lit "Invalid API key configuration"
             else if statusCode =? 429 then
               lit "Rate limit exceeded, please try again later"
             else lit "Failed to fetch voices" in
           await (NextResponse_json
                  (obj [("success", JBool false);
                        ("error", JString clientMessage)])
                  (if 500 <=? statusCode then 500 else statusCode))
       | NativeError _ _ =>
           await (NextResponse_json
                  (obj [("success", JBool false);
                        ("error", js_str "An unexpected error occurred")])
                  500)
       end).

End Voices.

(* ================================================================== *)
(** * app/page.tsx *)

Module Page.
Import JS Effects Effects.Notations Web.

(** A blob URL ([URL.createObjectURL] never returns the same one twice),
    named by its serial number. *)
Definition object_url := N.

(** The state hooks of [Home]. *)
Record State := {
  storyText : js_string;
  voices : js_value;
  selectedVoiceId : option js_string;
  audioUrl : option object_url;
  isLoadingVoices : bool;
  isGenerating : bool;
  error : js_value
}.

Definition initial_state : State :=
  {| storyText := [];
     voices := JArray [];
     selectedVoiceId := None;
     audioUrl := None;
     isLoadingVoices := true;
     isGenerating := false;
     error := JNull |}.

Inductive browserE : Type :=
| CreateObjectURL (blob : ArrayBuffer)
| RevokeObjectURL (url : object_url).

Definition browserR (e : browserE) : Type :=
  match e with
  | CreateObjectURL _ => object_url
  | RevokeObjectURL _ => unit
  end.

(** What the component's code calls: its state setters, [fetch] and the
    blob URL store. *)
Inductive pageE : Type :=
| SetVoices (v : js_value)
| SetAudioUrl (u : option object_url)
| SetIsLoadingVoices (b : bool)
| SetIsGenerating (b : bool)
| SetError (v : js_value)
| PageFetch (url : js_string) (init : option RequestInit)
| Browser (e : browserE).

Definition pageR (e : pageE) : Type :=
  match e with
  | PageFetch _ _ => outcome Response
  | Browser e' => browserR e'
  | _ => unit
  end.

Definition page A := prog pageE pageR A.

Definition setVoices v : page unit := Vis (SetVoices v) (fun _ => Ret tt).
Definition setAudioUrl u : page unit := Vis (SetAudioUrl u) (fun _ => Ret tt).
Definition setIsLoadingVoices b : page unit :=
  Vis (SetIsLoadingVoices b) (fun _ => Ret tt).
Definition setIsGenerating b : page unit :=
  Vis (SetIsGenerating b) (fun _ => Ret tt).
Definition setError v : page unit := Vis (SetError v) (fun _ => Ret tt).
Definition fetch url init : page Response :=
  Vis (PageFetch url init) (fun o => await o).
Definition createObjectURL blob : page object_url :=
  Vis (Browser (CreateObjectURL blob)) (fun u => Ret u).

(** [string | null] as a value. *)
Definition nullable (o : option js_string) : js_value :=
  match o with
  | Some s => JString s
  | None => JNull
  end.

(** The effect that runs once on mount. *)
Definition loadVoices : page unit :=
  try_finally
    (try_catch
       (response <- fetch (lit "/api/voices") None ;;
        data <- await (json response) ;;
        success <- await (get data "success") ;;
        voices <- await (get data "voices") ;;
        if truthy success && truthy voices then setVoices voices
        else
          error <- await (get data "error") ;;
          setError (or_else error (js_str "Failed to load voices")))
       (fun _ => setError (js_str "Failed to connect to server")))
    (setIsLoadingVoices false).

(** The cleanup the [audioUrl] effect returns; [currentUrl] is the value
    the effect captured. *)
Definition audioUrl_cleanup (currentUrl : option object_url)
  : prog browserE browserR unit :=
  match currentUrl with
  | Some url => Vis (RevokeObjectURL url) (fun _ => Ret tt)
  | None => Ret tt
  end.

(** [handleGenerate], closed over the [storyText] and [selectedVoiceId]
    of the render it belongs to. *)
Definition handleGenerate (storyText : js_string)
    (selectedVoiceId : option js_string) : page unit :=
  if negb (truthy (JString (trim storyText)))
     || negb (truthy (nullable selectedVoiceId)) then Ret tt
  else
    setIsGenerating true ;;;
    setError JNull ;;;
    setAudioUrl None ;;;
    try_finally
      (try_catch
         (response <- fetch (lit "/api/generate-voice")
            (Some {| method := lit "POST";
                     headers := [(lit "Content-Type", lit "application/json")];
                     body := Some (obj [("text", JString storyText);
                                        ("voice_id", nullable selectedVoiceId)]) |}) ;;
          if negb (ok response) then
            data <- await (json response) ;;
            error <- await (get data "error") ;;
            setError
              (or_else error
                 (JString (lit "Generation failed ("
                           ++ toString (status response) ++ lit ")")))
          else
            let contentType :=
              headers_get (response_headers response) (lit "Content-Type") in
            if match contentType with
               | Some ct => includes ct (lit "audio/mpeg")
               | None => false
               end
            then
              blob <- await (blob response) ;;
              url <- createObjectURL blob ;;
              setAudioUrl (Some url)
            else setError (js_str "Unexpected response format from server"))
         (fun _ => setError (js_str "Network error. Please try again.")))
      (setIsGenerating false).

(** [isGenerateDisabled] *)
Definition isGenerateDisabled (s : State) : bool :=
  negb (truthy (JString (trim (storyText s))))
  || negb (truthy (nullable (selectedVoiceId s)))
  || isLoadingVoices s.

(** ** The component at run time

    React keeps the state of the mounted component and, for the effect
    with dependency list [[audioUrl]], the cleanup its last run returned
    (held here by the [currentUrl] it captured).  The browser keeps the
    blob URL store.  A [fetch] that has not settled yet is kept with the
    rest of the handler that awaits it. *)

Record Pending := {
  p_event : pageE;
  p_resume : pageR p_event -> page unit
}.

Record World := {
  mounted : bool;
  state : State;
  captured : option object_url;
  live : list object_url;       (* blob URLs created and not revoked *)
  revoked : list object_url;    (* the calls of URL.revokeObjectURL *)
  next_url : object_url;
  inflight : list Pending
}.

Definition with_state (f : State -> State) (w : World) : World :=
  {| mounted := mounted w; state := f (state w); captured := captured w;
     live := live w; revoked := revoked w; next_url := next_url w;
     inflight := inflight w |}.

Definition with_captured (c : option object_url) (w : World) : World :=
  {| mounted := mounted w; state := state w; captured := c;
     live := live w; revoked := revoked w; next_url := next_url w;
     inflight := inflight w |}.

Definition with_inflight (l : list Pending) (w : World) : World :=
  {| mounted := mounted w; state := state w; captured := captured w;
     live := live w; revoked := revoked w; next_url := next_url w;
     inflight := l |}.

Definition put_voices v (s : State) : State :=
  {| storyText := storyText s; voices := v;
     selectedVoiceId := selectedVoiceId s; audioUrl := audioUrl s;
     isLoadingVoices := isLoadingVoices s; isGenerating := isGenerating s;
     error := error s |}.

Definition put_audioUrl u (s : State) : State :=
  {| storyText := storyText s; voices := voices s;
     selectedVoiceId := selectedVoiceId s; audioUrl := u;
     isLoadingVoices := isLoadingVoices s; isGenerating := isGenerating s;
     error := error s |}.

Definition put_isLoadingVoices b (s : State) : State :=
  {| storyText := storyText s; voices := voices s;
     selectedVoiceId := selectedVoiceId s; audioUrl := audioUrl s;
     isLoadingVoices := b; isGenerating := isGenerating s;
     error := error s |}.

Definition put_isGenerating b (s : State) : State :=
  {| storyText := storyText s; voices := voices s;
     selectedVoiceId := selectedVoiceId s; audioUrl := audioUrl s;
     isLoadingVoices := isLoadingVoices s; isGenerating := b;
     error := error s |}.

Definition put_error v (s : State) : State :=
  {| storyText := storyText s; voices := voices s;
     selectedVoiceId := selectedVoiceId s; audioUrl := audioUrl s;
     isLoadingVoices := isLoadingVoices s; isGenerating := isGenerating s;
     error := v |}.

Definition put_storyText t (s : State) : State :=
  {| storyText := t; voices := voices s;
     selectedVoiceId := selectedVoiceId s; audioUrl := audioUrl s;
     isLoadingVoices := isLoadingVoices s; isGenerating := isGenerating s;
     error := error s |}.

Definition put_selectedVoiceId v (s : State) : State :=
  {| storyText := storyText s; voices := voices s;
     selectedVoiceId := v; audioUrl := audioUrl s;
     isLoadingVoices := isLoadingVoices s; isGenerating := isGenerating s;
     error := error s |}.

(** A state setter: React drops updates of an unmounted component. *)
Definition set_state (f : State -> State) (w : World) : World :=
  if mounted w then with_state f w else w.

(** The blob URL store. *)
Definition perform_browser (e : browserE) (w : World) : World * browserR e :=
  match e return World * browserR e with
  | CreateObjectURL _ =>
      ({| mounted := mounted w; state := state w; captured := captured w;
          live := live w ++ [next_url w]; revoked := revoked w;
          next_url := next_url w + 1; inflight := inflight w |},
       next_url w)
  | RevokeObjectURL url =>
      ({| mounted := mounted w; state := state w; captured := captured w;
          live := filter (fun u => negb (u =? url)) (live w);
          revoked := revoked w ++ [url];
          next_url := next_url w; inflight := inflight w |},
       tt)
  end.

Fixpoint exec_browser {A} (m : prog browserE browserR A) (w : World) : World :=
  match m with
  | Ret _ | Throw _ => w
  | Vis e k => let (w', x) := perform_browser e w in exec_browser (k x) w'
  end.

Definition url_eqb (a b : option object_url) : bool :=
  match a, b with
  | Some x, Some y => x =? y
  | None, None => true
  | _, _ => false
  end.

(** [setAudioUrl u]: when the committed [audioUrl] changes, React runs the
    cleanup of the effect's last run and then the effect again, which
    captures the new value.  (The setters a handler calls between two
    awaits are committed together; [audioUrl] is set at most once between
    two awaits, so committing each setter on its own runs the same
    cleanups.) *)
Definition set_audioUrl (u : option object_url) (w : World) : World :=
  if mounted w then
    if url_eqb u (audioUrl (state w)) then w
    else
      with_captured u
        (exec_browser (audioUrl_cleanup (captured w))
           (with_state (put_audioUrl u) w))
  else w.

(** One call, when it completes at once; [None] for a [fetch], which
    suspends the handler. *)
Definition perform (e : pageE) (w : World) : World * option (pageR e) :=
  match e return World * option (pageR e) with
  | SetVoices v => (set_state (put_voices v) w, Some tt)
  | SetAudioUrl u => (set_audioUrl u w, Some tt)
  | SetIsLoadingVoices b => (set_state (put_isLoadingVoices b) w, Some tt)
  | SetIsGenerating b => (set_state (put_isGenerating b) w, Some tt)
  | SetError v => (set_state (put_error v) w, Some tt)
  | PageFetch _ _ => (w, None)
  | Browser e' => let (w', x) := perform_browser e' w in (w', Some x)
  end.

(** Running a handler up to its end or to its next [fetch]. *)
Fixpoint exec (m : page unit) (w : World) : World :=
  match m with
  | Ret _ | Throw _ => w
  | Vis e k =>
      match perform e w with
      | (w', Some x) => exec (k x) w'
      | (w', None) =>
          with_inflight (inflight w' ++ [{| p_event := e; p_resume := k |}]) w'
      end
  end.

(** The handler a pending [fetch] resumes once it settles to [o]. *)
Definition resume (p : Pending) (o : outcome Response) : page unit :=
  match p_event p as e return (pageR e -> page unit) -> page unit with
  | PageFetch _ _ => fun k => k o
  | _ => fun _ => Ret tt
  end (p_resume p).

(** The first render: the initial state, the [audioUrl] effect run once
    (capturing [null]) and [loadVoices] started. *)
Definition mount : World :=
  exec loadVoices
    {| mounted := true; state := initial_state; captured := None;
       live := []; revoked := []; next_url := 0; inflight := [] |}.

(** What happens to the mounted page. *)
Inductive action : Type :=
| ChangeText (value : js_string)        (* StoryInput onChange *)
| ChangeVoice (voiceId : js_string)     (* VoiceSelector onVoiceChange *)
| ClickGenerate                         (* GenerateButton onClick *)
| AudioError                            (* AudioPlayer onError *)
| Settle (i : nat) (o : outcome Response)
| Unmount.

Fixpoint remove_nth {A} (i : nat) (l : list A) : list A :=
  match i, l with
  | _, [] => []
  | O, _ :: l' => l'
  | S i', x :: l' => x :: remove_nth i' l'
  end.

(** One step; [None] when the action cannot happen.  The button is
    [disabled || isLoading], so a click reaches [handleGenerate] only when
    neither holds.  The text area and the select are taken to accept any
    value while the page is mounted, which allows more than their own
    [disabled] flags do. *)
Definition step (a : action) (w : World) : option World :=
  match a with
  | ChangeText value =>
      if mounted w then Some (set_state (put_storyText value) w) else None
  | ChangeVoice voiceId =>
      if mounted w then Some (set_state (put_selectedVoiceId (Some voiceId)) w)
      else None
  | ClickGenerate =>
      if mounted w
         && negb (isGenerateDisabled (state w) || isGenerating (state w))
      then Some (exec (handleGenerate (storyText (state w))
                                      (selectedVoiceId (state w))) w)
      else None
  | AudioError =>
      if mounted w then Some (exec (setError (js_str "Failed to play audio")) w)
      else None
  | Settle i o =>
      match nth_error (inflight w) i with
      | Some p =>
          Some (exec (resume p o) (with_inflight (remove_nth i (inflight w)) w))
      | None => None
      end
  | Unmount =>
      if mounted w then
        let w' := exec_browser (audioUrl_cleanup (captured w)) w in
        Some {| mounted := false; state := state w'; captured := captured w';
                live := live w'; revoked := revoked w';
                next_url := next_url w'; inflight := inflight w' |}
      else None
  end.

Fixpoint steps (l : list action) (w : World) : option World :=
  match l with
  | [] => Some w
  | a :: l' =>
      match step a w with
      | Some w' => steps l' w'
      | None => None
      end
  end.

Definition reachable (w : World) : Prop :=
  exists l, steps l mount = Some w.

End Page.


(* ================================================================== *)
(** * components/StoryInput.tsx *)

Module StoryInput.
Import JS Page.

(** [characterCount] *)
Definition characterCount (value : js_string) : N := str_length value.

(** [handleChange]: the new value of the text area is handed to
    [onChange] only when it is not longer than [maxLength]. *)
Definition handleChange (maxLength : N) (onChange : js_string -> World -> World)
    (newValue : js_string) : World -> World :=
  if str_length newValue <=? maxLength then onChange newValue
  else fun w => w.

End StoryInput.

(* ================================================================== *)
(** * components/VoiceSelector *)

Module VoiceSelector.
Import JS Page.

(** [voices.length === 0].  The page hands over its [voices] state, which
    is the initial empty array or a truthy value of the envelope, never
    [null] or [undefined], for which reading [length] would throw. *)
Definition length_is_zero (voices : js_value) : bool :=
  match voices with
  | JArray items => N.of_nat (List.length items) =? 0
  | JString s => str_length s =? 0
  | JObject props =>
      match lookup (lit "length") props with
      | JNumber x => PrimFloat.eqb x 0
      | _ => false
      end
  | _ => false
  end.

Definition isLoading (voices : js_value) : bool := length_is_zero voices.

(** The [disabled] attribute of the select. *)
Definition select_disabled (voices : js_value) (disabled : bool) : bool :=
  disabled || isLoading voices.

(** Whether [value] can be the value of an option to choose: the
    [voice_id] of a voice when that is a string.  For a voice whose
    [voice_id] is not a string, and for a [voices] that is not an array,
    every value is let through. *)
Definition offers (voices : js_value) (value : js_string) : bool :=
  match voices with
  | JArray items =>
      existsb (fun voice =>
                 match get voice "voice_id" with
                 | Fulfilled (JString voice_id) => str_eqb voice_id value
                 | _ => true
                 end) items
  | _ => true
  end.

(** [handleChange] *)
Definition handleChange (onVoiceChange : js_string -> World -> World)
    (value : js_string) : World -> World :=
  onVoiceChange value.

End VoiceSelector.

(* ================================================================== *)
(** * components/GenerateButton *)

Module GenerateButton.
Import JS.

(** The [disabled] attribute of the button. *)
Definition button_disabled (isLoading disabled : bool) : bool :=
  disabled || isLoading.

Definition label (isLoading : bool) : js_string :=
  if isLoading then lit "Generating..." else lit "Generate Audio".

End GenerateButton.

(* ================================================================== *)
(** * components/AudioPlayer.tsx *)

Module AudioPlayer.
Import JS Page.

(** What the component renders. *)
Inductive view : Type :=
| Nothing
| ErrorBox
| Player (src : object_url).

Definition render (audioUrl : option object_url) (hasError : bool) : view :=
  match audioUrl with
  | None => Nothing
  | Some url => if hasError then ErrorBox else Player url
  end.

(** [handleError]: [setHasError(true)], then [onError?.()]. *)
Definition handleError (onError : option (World -> World))
    (hasError_page : bool * World) : bool * World :=
  (true,
   match onError with
   | Some f => f (snd hasError_page)
   | None => snd hasError_page
   end).

(** The effect with dependency list [[audioUrl]]: [setHasError(false)]
    when the prop has changed since the last render. *)
Definition reset_on_change (before after : option object_url)
    (hasError : bool) : bool :=
  if url_eqb after before then hasError else false.

End AudioPlayer.

(* ================================================================== *)
(** * The page with its components *)

Module Screen.
Import JS Effects Web Page.

(** The page and the state hook of its [AudioPlayer]. *)
Record Screen := {
  page : World;
  hasError : bool
}.

Definition first_screen : Screen := {| page := mount; hasError := false |}.

(** What the user and the network do. *)
Inductive ui_action : Type :=
| TypeText (newValue : js_string)       (* change event of the text area *)
| ChooseVoice (value : js_string)       (* change event of the select *)
| PressGenerate                         (* click on the button *)
| PlaybackFails                         (* error event of the audio element *)
| Answer (i : nat) (o : outcome Response)
| Leave.

(** The render after a move of the page, with the [audioUrl] effect of
    the player run. *)
Definition rerender (s : Screen) (w' : World) : Screen :=
  {| page := w';
     hasError :=
       AudioPlayer.reset_on_change (audioUrl (state (page s)))
         (audioUrl (state w')) (hasError s) |}.

Section Steps.
(** [MAX_TEXT_LENGTH] of lib/constants, which the page hands to the text
    area as [maxLength]. *)
Variable MAX_TEXT_LENGTH : N.

(** One step; [None] when the event cannot happen: a disabled control
    fires no event, and there is no audio element unless the player is
    rendered. *)
Definition ui_step (a : ui_action) (s : Screen) : option Screen :=
  let w := page s in
  let st := state w in
  match a with
  | TypeText newValue =>
      if mounted w && negb (isGenerating st) then
        Some (rerender s
                (StoryInput.handleChange MAX_TEXT_LENGTH
                   (fun value => set_state (put_storyText value)) newValue w))
      else None
  | ChooseVoice value =>
      if mounted w
         && negb (VoiceSelector.select_disabled (voices st)
                    (isGenerating st || isLoadingVoices st))
         && VoiceSelector.offers (voices st) value
      then
        Some (rerender s
                (VoiceSelector.handleChange
                   (fun voiceId => set_state (put_selectedVoiceId (Some voiceId)))
                   value w))
      else None
  | PressGenerate =>
      if mounted w
         && negb (GenerateButton.button_disabled (isGenerating st)
                    (isGenerateDisabled st))
      then Some (rerender s
                   (exec (handleGenerate (storyText st) (selectedVoiceId st)) w))
      else None
  | PlaybackFails =>
      match AudioPlayer.render (audioUrl st) (hasError s) with
      | AudioPlayer.Player _ =>
          if mounted w then
            let (e, w') :=
              AudioPlayer.handleError
                (Some (exec (setError (js_str "Failed to play audio"))))
                (hasError s, w) in
            Some {| page := w'; hasError := e |}
          else None
      | _ => None
      end
  | Answer i o =>
      match step (Settle i o) w with
      | Some w' => Some (rerender s w')
      | None => None
      end
  | Leave =>
      match step Unmount w with
      | Some w' => Some (rerender s w')
      | None => None
      end
  end.

Fixpoint ui_steps (l : list ui_action) (s : Screen) : option Screen :=
  match l with
  | [] => Some s
  | a :: l' =>
      match ui_step a s with
      | Some s' => ui_steps l' s'
      | None => None
      end
  end.

Definition ui_reachable (s : Screen) : Prop :=
  exists l, ui_steps l first_screen = Some s.

End Steps.

End Screen.

(* ================================================================== *)
(** * The page and the generate endpoint on the wire *)

Module Wire.
Import JS Effects Web Next Page.

(** The endpoint receives the request the page sent: [request.json()]
    settles to the value the page stringified. *)
Definition carries (init : option RequestInit) (rq : NextRequest) : Prop :=
  exists i b, init = Some i /\ body i = Some b /\ request_json rq = Fulfilled b.

(** The page receives the response the endpoint answered: the same
    status and headers, and the body as the endpoint gave it, read as
    JSON or as a blob. *)
Definition delivers (answer : NextResponse) (r : Response) : Prop :=
  status r = res_status answer /\
  response_headers r = res_headers answer /\
  match res_body answer with
  | JsonBody v => json r = Fulfilled v
  | BufferBody b => blob r = Fulfilled b
  end.

End Wire.

(* ================================================================== *)
(** * The vocabulary of the properties *)

Module Spec.
Import JS Effects Web Next GenerateVoice.

(** The credential is configured: set, not empty, and not the
    placeholder of the sample environment file. *)
Definition configured (env : ProcessEnv) (apiKey : js_string) : Prop :=
  ELEVENLABS_API_KEY env = Some apiKey /\
  apiKey <> [] /\ apiKey <> lit "your_key_here".

(** A value that is a non-empty string. *)
Definition nonempty_string (v : js_value) : bool :=
  match v with
  | JString (_ :: _) => true
  | _ => false
  end.

(** The body of the request parsed and [text], [voice_id] could be read
    from it (the body is not [null]). *)
Definition parsed (rq : NextRequest) (text voice_id : js_value) : Prop :=
  exists body,
    request_json rq = Fulfilled body /\
    get body "text" = Fulfilled text /\
    get body "voice_id" = Fulfilled voice_id.

Section Validation.
Variable MAX_TEXT_LENGTH : N.
Variable toLocaleString : N -> js_string.

Definition too_long_message : js_string :=
  lit "Text exceeds maximum length of "
  ++ toLocaleString MAX_TEXT_LENGTH ++ lit " characters".

(** The first validation that fails, in the order of the handler, and the
    message it answers with. *)
Inductive validation_failure (rq : NextRequest) : js_string -> Prop :=
| malformed_json e :
    request_json rq = Rejected e ->
    validation_failure rq (lit "Invalid JSON in request body")
| text_not_a_string text voice_id :
    parsed rq text voice_id ->
    nonempty_string text = false ->
    validation_failure rq (lit "Text is required and must be a string")
| text_blank s voice_id :
    parsed rq (JString s) voice_id ->
    s <> [] -> trim s = [] ->
    validation_failure rq (lit "Text cannot be empty")
| text_too_long s voice_id :
    parsed rq (JString s) voice_id ->
    trim s <> [] -> MAX_TEXT_LENGTH < str_length s ->
    validation_failure rq too_long_message
| voice_id_not_a_string s voice_id :
    parsed rq (JString s) voice_id ->
    trim s <> [] -> str_length s <= MAX_TEXT_LENGTH ->
    nonempty_string voice_id = false ->
    validation_failure rq (lit "Voice ID is required and must be a string").

(** The request passes every validation, with this [text] and
    [voice_id]. *)
Definition valid_request (rq : NextRequest) (text voice_id : js_string) : Prop :=
  parsed rq (JString text) (JString voice_id) /\
  trim text <> [] /\ str_length text <= MAX_TEXT_LENGTH /\ voice_id <> [].

End Validation.

(** How the generate endpoint answers a provider error that carries the
    status code [s], for [s] of 400 or more. *)
Definition remapped (s : N) (answer : outcome NextResponse) : Prop :=
  (s = 401 ->
   answer = Fulfilled
     (error_response (lit "Authentication failed with speech service") 401)) /\
  (s = 422 ->
   answer = Fulfilled
     (error_response
        (lit "Invalid request: please check your text and try again") 422)) /\
  (s = 429 ->
   answer = Fulfilled
     (error_response
        (lit "Speech service rate limit exceeded, please try again later")
        429)) /\
  (s <> 401 -> s <> 422 -> s <> 429 -> 400 <= s < 500 ->
   answer = Fulfilled (error_response (lit "Failed to generate speech") s)) /\
  (500 <= s ->
   answer = Fulfilled (error_response (lit "Failed to generate speech") 500)).

(** How the voices endpoint answers an [ElevenLabsError] whose status
    code is [sc], for a status code of 400 or more and for none. *)
Definition voices_remapped (sc : option N) (answer : outcome NextResponse)
  : Prop :=
  (sc = Some 401 ->
   answer = Fulfilled
     (error_response (lit "Invalid API key configuration") 401)) /\
  (sc = Some 429 ->
   answer = Fulfilled
     (error_response (lit "Rate limit exceeded, please try again later") 429)) /\
  (forall s, sc = Some s -> s <> 401 -> s <> 429 -> 400 <= s < 500 ->
   answer = Fulfilled (error_response (lit "Failed to fetch voices") s)) /\
  (forall s, sc = Some s -> 500 <= s ->
   answer = Fulfilled (error_response (lit "Failed to fetch voices") 500)) /\
  (sc = None ->
   answer = Fulfilled (error_response (lit "Failed to fetch voices") 500)).

(** [voice] is [item] reduced to its four fields. *)
Definition reduced_from (item voice : js_value) : Prop :=
  exists voice_id name description category,
    get item "voice_id" = Fulfilled voice_id /\
    get item "name" = Fulfilled name /\
    get item "description" = Fulfilled description /\
    get item "category" = Fulfilled category /\
    voice = obj [("voice_id", voice_id); ("name", name);
                 ("description", description); ("category", category)].

(** The success envelope of the voices endpoint. *)
Definition voices_response (voices : list js_value) : NextResponse :=
  json_response
    (obj [("success", JBool true); ("voices", JArray voices)]) 200.

(** An element of a JSON array that has properties to read. *)
Definition readable (item : js_value) : Prop :=
  item <> JNull /\ item <> JUndefined.

(** The audio answer for the payload [buf]. *)
Definition audio_response (buf : ArrayBuffer) : NextResponse :=
  {| res_status := 200;
     res_headers :=
       [(lit "Content-Type", lit "audio/mpeg");
        (lit "Content-Length", toString (byteLength buf));
        (lit "Cache-Control", lit "private, max-age=3600");
        (lit "Content-Disposition",
         lit "inline; filename=" ++ dquote
         ++ lit "generated-audio.mp3" ++ dquote)];
     res_body := BufferBody buf |}.

(** The calls of [generateSpeech] in a trace of a route handler. *)
Fixpoint generateSpeech_calls (t : list routeE)
  : list (js_string * js_string * js_string) :=
  match t with
  | [] => []
  | Call_generateSpeech k x v :: t' => (k, x, v) :: generateSpeech_calls t'
  | _ :: t' => generateSpeech_calls t'
  end.

(** The requests sent to the provider in a trace of the linked server. *)
Fixpoint fetches (t : list nodeE) : list (js_string * RequestInit) :=
  match t with
  | [] => []
  | Fetch url init :: t' => (url, init) :: fetches t'
  | _ :: t' => fetches t'
  end.

(** A provider that answers every request with the response [r]. *)
Definition provider_answers (r : Response) (e : nodeE) : nodeR e :=
  match e with
  | Fetch _ _ => Fulfilled r
  | ConsoleLog _ | ConsoleError _ => tt
  end.

(** A provider that cannot be reached. *)
Definition provider_unreachable (e : nodeE) : nodeR e :=
  match e with
  | Fetch _ _ => Rejected (TypeError "fetch failed")
  | ConsoleLog _ | ConsoleError _ => tt
  end.

(** Lib functions stubbed: [generateSpeech] settles to [speech] and
    [fetchElevenLabsVoices] to [voices]. *)
Definition stubbed (speech : outcome ArrayBuffer)
    (voices : outcome (list js_value)) (e : routeE) : routeR e :=
  match e with
  | Runtime e' => provider_unreachable e'
  | Call_generateSpeech _ _ _ => speech
  | Call_fetchElevenLabsVoices _ => voices
  end.

(** What the lib functions answer a route handler when the runtime
    answers as [provider] does, and the runtime calls behind each call of
    the handler. *)
Definition resolved (provider : forall e, nodeR e) (e : routeE) : routeR e :=
  match e with
  | Runtime e' => provider e'
  | Call_generateSpeech a t v =>
      snd (run provider (Elevenlabs.generateSpeech a t v))
  | Call_fetchElevenLabsVoices a =>
      snd (run provider (Elevenlabs.fetchElevenLabsVoices a))
  end.

Definition calls_behind (provider : forall e, nodeR e) (e : routeE)
  : list nodeE :=
  match e with
  | Runtime e' => [e']
  | Call_generateSpeech a t v =>
      fst (run provider (Elevenlabs.generateSpeech a t v))
  | Call_fetchElevenLabsVoices a =>
      fst (run provider (Elevenlabs.fetchElevenLabsVoices a))
  end.

(** A provider response with this status line and body, whose readers
    all succeed. *)
Definition response_of (status : N) (statusText : js_string)
    (bytes : ArrayBuffer) (as_text : js_string) (as_json : js_value)
  : Response :=
  {| status := status; statusText := statusText; response_headers := [];
     text := Fulfilled as_text; json := Fulfilled as_json;
     arrayBuffer := Fulfilled bytes; blob := Fulfilled bytes |}.

(** Sample inputs. *)
Definition sample_env : ProcessEnv :=
  {| ELEVENLABS_API_KEY := Some (lit "sk_test_key") |}.

Definition unset_env : ProcessEnv := {| ELEVENLABS_API_KEY := None |}.

Definition request_of (text voice_id : js_value) : NextRequest :=
  {| request_json :=
       Fulfilled (obj [("text", text); ("voice_id", voice_id)]) |}.

Definition malformed_request : NextRequest :=
  {| request_json :=
       Rejected (NativeError (lit "SyntaxError") (lit "Unexpected token")) |}.

Definition sample_audio : ArrayBuffer := [x49; x44; x33; x04; x00].

Definition rachel : js_value :=
  obj [("voice_id", js_str "v1"); ("name", js_str "Rachel");
       ("category", js_str "premade");
       ("labels", obj [("accent", js_str "american")]);
       ("preview_url", js_str "https://example.com/rachel.mp3")].

Definition catalog : js_value := obj [("voices", JArray [rachel])].

Definition story_request : NextRequest :=
  request_of (js_str "  Once upon a time  ") (js_str "voice_1").

Definition blank_request : NextRequest :=
  request_of (js_str "   ") (js_str "voice_1").

Definition empty_request : NextRequest :=
  request_of (js_str "") (js_str "voice_1").

Definition padded_request : NextRequest :=
  request_of (js_str "  hi    ") (js_str "voice_1").

(** The string does not start with a code unit that [trim] strips. *)
Definition head_kept (s : js_string) : Prop :=
  match s with
  | [] => True
  | c :: _ => is_white_space c = false
  end.

(** Digits in groups of three, as [toLocaleString] prints an integer in
    the en-US locale. *)
Fixpoint group3 (rev_digits : js_string) (n : nat) : js_string :=
  match rev_digits with
  | [] => []
  | d :: rest =>
      match n with
      | O => 44 :: d :: group3 rest 2
      | S n' => d :: group3 rest n'
      end
  end.

Definition toLocaleString_en_US (n : N) : js_string :=
  match rev (toString n) with
  | [] => []
  | d :: rest => rev (d :: group3 rest 2)
  end.

End Spec.


(* ================================================================== *)
(** * The vocabulary of the properties of the page *)

Module PageSpec.
Import JS Effects Web Page.

(** The guard of [handleGenerate] lets the action through. *)
Definition can_generate (storyText : js_string)
    (selectedVoiceId : option js_string) : Prop :=
  trim storyText <> [] /\
  exists voiceId, selectedVoiceId = Some voiceId /\ voiceId <> [].

(** A success answer of the generate endpoint that declares and carries
    MPEG audio. *)
Definition audio_answer (r : Response) : Prop :=
  ok r = true /\
  (exists ct,
     headers_get (response_headers r) (lit "Content-Type") = Some ct /\
     includes ct (lit "audio/mpeg") = true) /\
  exists bytes, blob r = Fulfilled bytes.

Definition option_list {A} (o : option A) : list A :=
  match o with
  | Some x => [x]
  | None => []
  end.

(** The pending request is one to the generate endpoint. *)
Definition is_generate (p : Pending) : bool :=
  match p_event p with
  | PageFetch url _ => str_eqb url (lit "/api/generate-voice")
  | _ => false
  end.

(** How many generations are in flight. *)
Definition generating (w : World) : nat :=
  List.length (filter is_generate (inflight w)).

(** [createObjectURL] on the world. *)
Definition created (w : World) : World :=
  {| mounted := mounted w; state := state w; captured := captured w;
     live := live w ++ [next_url w]; revoked := revoked w;
     next_url := next_url w + 1; inflight := inflight w |}.

(** How the world moves when a generation settles: an error is shown, or
    a new blob URL is created and stored; [isGenerating] is cleared in
    both cases. *)
Definition settled_generate (w w' : World) : Prop :=
  (exists v,
     w' = set_state (put_isGenerating false) (set_state (put_error v) w)) \/
  w' = set_state (put_isGenerating false)
         (set_audioUrl (Some (next_url w)) (created w)).

(** How the world moves when the voices request settles. *)
Definition settled_voices (w w' : World) : Prop :=
  exists v,
    w' = set_state (put_isLoadingVoices false) (set_state (put_voices v) w) \/
    w' = set_state (put_isLoadingVoices false) (set_state (put_error v) w).

(** A pending request resumes the handler that awaits it without sending
    another request. *)
Definition well_formed (p : Pending) : Prop :=
  if is_generate p
  then forall o w, settled_generate w (exec (resume p o) w)
  else forall o w, settled_voices w (exec (resume p o) w).

(** What holds of the page in every state it reaches. *)
Record invariant (w : World) : Prop := {
  inv_captured : mounted w = true -> captured w = audioUrl (state w);
  inv_live : mounted w = true -> live w = option_list (audioUrl (state w));
  inv_one : (List.length (live w) + generating w <= 1)%nat;
  inv_idle : mounted w = true -> isGenerating (state w) = false ->
             generating w = O;
  inv_fresh : forall u, In u (live w ++ revoked w) -> u < next_url w;
  inv_nodup : NoDup (live w ++ revoked w);
  inv_pending : Forall well_formed (inflight w)
}.

(** The page is idle and its button is enabled. *)
Definition ready (w : World) : Prop :=
  mounted w = true /\ inflight w = [] /\
  isGenerateDisabled (state w) = false /\ isGenerating (state w) = false.

(** One generation after the other, each answered with audio. *)
Definition generations (answers : list Response) : list action :=
  flat_map (fun r => [ClickGenerate; Settle 0 (Fulfilled r)]) answers.

(** Sample inputs. *)
Definition voices_ok : Response :=
  {| status := 200; statusText := lit "OK"; response_headers := [];
     text := Fulfilled [];
     json := Fulfilled
               (obj [("success", JBool true);
                     ("voices",
                      JArray [obj [("voice_id", js_str "v1");
                                   ("name", js_str "Rachel");
                                   ("category", js_str "premade")]])]);
     arrayBuffer := Fulfilled []; blob := Fulfilled [] |}.

Definition audio_ok (bytes : ArrayBuffer) : Response :=
  {| status := 200; statusText := lit "OK";
     response_headers := [(lit "content-type", lit "audio/mpeg")];
     text := Fulfilled [];
     json := Rejected (NativeError (lit "SyntaxError") (lit "Unexpected token"));
     arrayBuffer := Fulfilled bytes; blob := Fulfilled bytes |}.

Definition session_start : list action :=
  [Settle 0 (Fulfilled voices_ok); ChangeText (lit "Once upon a time");
   ChangeVoice (lit "v1")].

(** The page once the voices are loaded, a story typed and a voice
    chosen. *)
Definition session : World :=
  match steps session_start mount with
  | Some w => w
  | None => mount
  end.

(** An environment in which the server cannot be reached. *)
Definition network_down (e : pageE) : pageR e :=
  match e with
  | PageFetch _ _ => Rejected (TypeError "Failed to fetch")
  | Browser (CreateObjectURL _) => 0
  | Browser (RevokeObjectURL _) => tt
  | SetVoices _ | SetAudioUrl _ | SetIsLoadingVoices _
  | SetIsGenerating _ | SetError _ => tt
  end.

Definition three_answers : list Response :=
  [audio_ok [x01]; audio_ok [x02; x03]; audio_ok []].

End PageSpec.

(* ================================================================== *)
(** * The vocabulary of further properties of the server *)

Module ServerSpec.
Import JS Effects Web Elevenlabs Next GenerateVoice Spec.

(** The credential counts as not configured. *)
Definition unconfigured (env : ProcessEnv) : Prop :=
  ELEVENLABS_API_KEY env = None \/
  ELEVENLABS_API_KEY env = Some [] \/
  ELEVENLABS_API_KEY env = Some (lit "your_key_here").

Definition config_error : NextResponse :=
  error_response (lit "Server configuration error: API key not set") 500.

(** A JSON value that is neither [null] nor an object. *)
Definition primitive_or_array (v : js_value) : bool :=
  match v with
  | JBool _ | JNumber _ | JString _ | JArray _ => true
  | JUndefined | JNull | JObject _ => false
  end.

(** The headers other than [name]. *)
Definition without_header (name : js_string)
    (hs : list (js_string * js_string)) : list (js_string * js_string) :=
  filter (fun h => negb (str_eqb (map ascii_lower (fst h))
                                 (map ascii_lower name))) hs.

(** A success response to the catalog request whose body is not a
    catalog: not JSON, [null], without an array under [voices], or with
    a [null] among the voices. *)
Inductive malformed_catalog (r : Response) : Prop :=
| not_json name message :
    json r = Rejected (NativeError name message) -> malformed_catalog r
| null_catalog :
    json r = Fulfilled JNull -> malformed_catalog r
| voices_not_an_array data v :
    json r = Fulfilled data -> get data "voices" = Fulfilled v ->
    (forall items, v <> JArray items) -> malformed_catalog r
| null_voice data items :
    json r = Fulfilled data ->
    get data "voices" = Fulfilled (JArray items) ->
    In JNull items -> malformed_catalog r.

(** The message [generateSpeech] gives the error it throws for a failure
    response. *)
Definition speech_error_message (r : Response) (message : js_string) : Prop :=
  (status r = 401 -> message = lit "Invalid API key") /\
  (status r = 422 ->
   message = lit "Invalid request: check text length and voice ID") /\
  (status r = 429 ->
   message = lit "Rate limit exceeded: please try again later") /\
  (status r <> 401 -> status r <> 422 -> status r <> 429 ->
   message = lit "Failed to generate speech: " ++ statusText r).

(** How a handler ends that hands the status code [s] and the message
    [m] of an error envelope to [NextResponse.json]: the call throws for
    a status no response can have, and for a status no response with a
    body can have; otherwise the envelope is answered with that status. *)
Definition passed_on (s : N) (m : js_string) (answer : outcome NextResponse)
  : Prop :=
  (s < 200 \/ 599 < s ->
   exists message,
     answer = Rejected (NativeError (lit "RangeError") message)) /\
  (s = 204 \/ s = 205 \/ s = 304 ->
   exists message,
     answer = Rejected (NativeError (lit "TypeError") message)) /\
  (200 <= s <= 599 -> s <> 204 -> s <> 205 -> s <> 304 ->
   answer = Fulfilled (error_response m s)).

(** A provider response that is not a success and has a status below
    400. *)
Definition not_modified : Response :=
  {| status := 304; statusText := lit "Not Modified"; response_headers := [];
     text := Fulfilled []; json := Fulfilled JNull;
     arrayBuffer := Fulfilled []; blob := Fulfilled [] |}.

(** Sample inputs. *)
Definition empty_key_env : ProcessEnv := {| ELEVENLABS_API_KEY := Some [] |}.

Definition null_request : NextRequest := {| request_json := Fulfilled JNull |}.

Definition array_request : NextRequest :=
  {| request_json := Fulfilled (JArray [js_str "hello"]) |}.

Definition html_page : Response :=
  {| status := 200; statusText := lit "OK"; response_headers := [];
     text := Fulfilled (lit "<html></html>");
     json := Rejected (NativeError (lit "SyntaxError") (lit "Unexpected token"));
     arrayBuffer := Fulfilled []; blob := Fulfilled [] |}.

End ServerSpec.

(* ================================================================== *)
(** * The vocabulary of further properties of the page *)

Module PageExtraSpec.
Import JS Effects Web Page PageSpec.

(** The requests in a trace of a handler of the page. *)
Fixpoint page_fetches (t : list pageE)
  : list (js_string * option RequestInit) :=
  match t with
  | [] => []
  | PageFetch url init :: t' => (url, init) :: page_fetches t'
  | _ :: t' => page_fetches t'
  end.

(** The handler ends with this message shown and the busy flag cleared;
    nothing else moves. *)
Definition fails_with (message : js_value) (w w' : World) : Prop :=
  w' = set_state (put_isGenerating false) (set_state (put_error message) w).

(** The envelope of the voices endpoint could be read from the response. *)
Definition envelope (r : Response) (success voices error : js_value) : Prop :=
  exists data,
    json r = Fulfilled data /\
    get data "success" = Fulfilled success /\
    get data "voices" = Fulfilled voices /\
    get data "error" = Fulfilled error.

(** The response cannot be read as an envelope: it is not JSON, or it is
    [null]. *)
Definition unreadable (r : Response) : Prop :=
  (exists e, json r = Rejected e) \/ json r = Fulfilled JNull.

(** The response declares MPEG audio. *)
Definition declares_audio (r : Response) : bool :=
  match headers_get (response_headers r) (lit "Content-Type") with
  | Some ct => includes ct (lit "audio/mpeg")
  | None => false
  end.

(** Sample inputs. *)
Definition rate_limited : Response :=
  {| status := 429; statusText := lit "Too Many Requests";
     response_headers := [(lit "content-type", lit "application/json")];
     text := Fulfilled [];
     json := Fulfilled (obj [("success", JBool false);
                             ("error", js_str "rate limited")]);
     arrayBuffer := Fulfilled []; blob := Fulfilled [] |}.

Definition generating_session : World :=
  match step ClickGenerate session with
  | Some w => w
  | None => session
  end.

End PageExtraSpec.

(* ================================================================== *)
(** * The vocabulary of the properties of the page with its components *)

Module ScreenSpec.
Import JS Effects Web Next GenerateVoice Page PageSpec Screen Wire Spec.

(** How many requests for the voices are in flight. *)
Definition loading (w : World) : nat :=
  List.length (filter (fun p => negb (is_generate p)) (inflight w)).

(** Every voice of the list has a string for its [voice_id]. *)
Definition string_ids (items : list js_value) : Prop :=
  forall voice, In voice items ->
    exists voice_id, get voice "voice_id" = Fulfilled (JString voice_id).

(** What holds of the form in every state the page reaches with its
    components. *)
Record form_invariant (MAX_TEXT_LENGTH : N) (w : World) : Prop := {
  fi_length : str_length (storyText (state w)) <= MAX_TEXT_LENGTH;
  fi_loading : (loading w <= 1)%nat;
  fi_loaded : mounted w = true -> isLoadingVoices (state w) = false ->
              loading w = O;
  fi_voice : forall v, selectedVoiceId (state w) = Some v ->
             isLoadingVoices (state w) = false /\
             VoiceSelector.isLoading (voices (state w)) = false /\
             VoiceSelector.offers (voices (state w)) v = true;
  fi_never : selectedVoiceId (state w) = None ->
             generating w = O /\ next_url w = 0
}.

(** A move of the page that leaves the form and the requests in flight
    as they are. *)
Definition same_form (w w' : World) : Prop :=
  mounted w' = mounted w /\
  storyText (state w') = storyText (state w) /\
  selectedVoiceId (state w') = selectedVoiceId (state w) /\
  voices (state w') = voices (state w) /\
  isLoadingVoices (state w') = isLoadingVoices (state w) /\
  inflight w' = inflight w.

(** What holds of the page with its components in every state it
    reaches. *)
Definition ui_invariant (MAX_TEXT_LENGTH : N) (s : Screen) : Prop :=
  reachable (page s) /\
  form_invariant MAX_TEXT_LENGTH (page s) /\
  (hasError s = true -> audioUrl (state (page s)) <> None).

(** The message of the generate endpoint for a provider failure with
    this status code. *)
Definition speech_failure_shown (s : N) : js_string :=
  if s =? 401 then lit "Authentication failed with speech service"
  else if s =? 422 then
    lit "Invalid request: please check your text and try again"
  else if s =? 429 then
    lit "Speech service rate limit exceeded, please try again later"
  else lit "Failed to generate speech".

(** Sample inputs. *)
Definition typed_session : list ui_action :=
  [Answer 0 (Fulfilled voices_ok); TypeText (lit "Once upon a time");
   ChooseVoice (lit "v1")].

(** The screen once the voices are loaded, a story typed and a voice
    chosen. *)
Definition story_screen : Screen :=
  match ui_steps 100000 typed_session first_screen with
  | Some s => s
  | None => first_screen
  end.

(** The screen while the voices are being loaded, with this text typed:
    until the voices arrive the select and the button are disabled, so
    the text is all the user can change. *)
Definition waiting_screen (t : js_string) : Screen :=
  {| page := set_state (put_storyText t) mount; hasError := false |}.

Definition pressed_screen : Screen :=
  match ui_step 100000 PressGenerate story_screen with
  | Some s => s
  | None => story_screen
  end.

(** The request of the endpoint that carries what the page of
    [story_screen] sends. *)
Definition typed_request : NextRequest :=
  request_of (js_str "Once upon a time") (js_str "v1").

(** The response of the page that delivers an answer of the endpoint. *)
Definition delivered (answer : NextResponse) : Response :=
  {| status := res_status answer; statusText := [];
     response_headers := res_headers answer;
     text := Fulfilled [];
     json := match res_body answer with
             | JsonBody v => Fulfilled v
             | BufferBody _ =>
                 Rejected (NativeError (lit "SyntaxError")
                             (lit "Unexpected token"))
             end;
     arrayBuffer := Fulfilled [];
     blob := match res_body answer with
             | JsonBody _ => Fulfilled []
             | BufferBody b => Fulfilled b
             end |}.

End ScreenSpec.

(* ================================================================== *)
(** * Facts about the JavaScript fragment *)

Module JSFacts.
Import JS Spec.

Lemma str_eqb_refl (s : js_string) : str_eqb s s = true.
Proof.
  induction s as [|c s IH]; simpl; [reflexivity|].
  now rewrite N.eqb_refl, IH.
Qed.

Lemma str_eqb_eq (a b : js_string) : str_eqb a b = true <-> a = b.
Proof.
  split; [|intros ->; apply str_eqb_refl].
  revert b; induction a as [|x a IH]; intros [|y b]; simpl; try discriminate.
  - reflexivity.
  - intros H. apply andb_true_iff in H as [Hx Hab].
    apply N.eqb_eq in Hx. f_equal; auto.
Qed.

Lemma str_eqb_neq (a b : js_string) : a <> b -> str_eqb a b = false.
Proof.
  intros H. destruct (str_eqb a b) eqn:E; [|reflexivity].
  apply str_eqb_eq in E. contradiction.
Qed.

Lemma str_length_zero (s : js_string) : (str_length s =? 0) = true <-> s = [].
Proof.
  unfold str_length. destruct s; simpl; split; intros H;
    try reflexivity; try discriminate.
Qed.

Lemma str_length_lt_one (s : js_string) : (str_length s <? 1) = true <-> s = [].
Proof.
  rewrite <- str_length_zero, N.ltb_lt, N.eqb_eq. lia.
Qed.

Lemma starts_with_app (p s : js_string) : starts_with p (p ++ s) = true.
Proof.
  induction p as [|c p IH]; simpl; [reflexivity|].
  now rewrite N.eqb_refl, IH.
Qed.

(** A string includes each of its parts. *)
Lemma includes_middle (a p b : js_string) : includes (a ++ p ++ b) p = true.
Proof.
  induction a as [|c a IH]; simpl.
  - destruct (p ++ b) eqn:E; simpl; rewrite <- E, starts_with_app; reflexivity.
  - rewrite IH. apply orb_true_r.
Qed.

(** [!v || typeof v !== "string"] holds of everything but a non-empty
    string. *)
Lemma not_a_string_test (v : js_value) :
  negb (truthy v) || negb (str_eqb (typeof v) (lit "string"))
  = negb (nonempty_string v).
Proof.
  destruct v as [| |b|x|s|l|l]; try reflexivity.
  - destruct b; reflexivity.
  - simpl. apply orb_true_r.
  - destruct s; reflexivity.
Qed.

Lemma nonempty_string_inv (v : js_value) :
  nonempty_string v = true -> exists s, v = JString s /\ s <> [].
Proof.
  destruct v as [| | | |[|c s]| |]; simpl; try discriminate.
  intros _. exists (c :: s). split; [reflexivity|discriminate].
Qed.

Lemma nonempty_string_JString (s : js_string) :
  nonempty_string (JString s) = true <-> s <> [].
Proof.
  destruct s; simpl; split; intros H; try discriminate; try reflexivity.
  contradiction.
Qed.

Lemma trim_nonempty (s : js_string) : trim s <> [] -> s <> [].
Proof. intros H ->. apply H. reflexivity. Qed.

(** [trim] never lengthens a string. *)
Lemma trimStart_length (s : js_string) :
  (List.length (trimStart s) <= List.length s)%nat.
Proof.
  induction s as [|c s IH]; simpl; [lia|].
  destruct (is_white_space c); simpl; lia.
Qed.

Lemma trim_length (s : js_string) : str_length (trim s) <= str_length s.
Proof.
  unfold trim, trimEnd, str_length.
  rewrite length_rev.
  pose proof (trimStart_length (rev (trimStart s))) as H1.
  rewrite length_rev in H1.
  pose proof (trimStart_length s) as H2. lia.
Qed.

Lemma lit_inj (a b : string) : lit a = lit b -> a = b.
Proof.
  unfold lit. intros H.
  rewrite <- (string_of_list_ascii_of_string a),
          <- (string_of_list_ascii_of_string b).
  f_equal.
  revert H. generalize (list_ascii_of_string a) (list_ascii_of_string b).
  induction l as [|x l IH]; intros [|y l']; simpl; try discriminate.
  - reflexivity.
  - intros H. injection H as Hxy Hl.
    f_equal; [|auto].
    rewrite <- (ascii_N_embedding x), <- (ascii_N_embedding y).
    now rewrite Hxy.
Qed.

Lemma to_uint_not_nil (n : N) : N.to_uint n <> Decimal.Nil.
Proof.
  destruct n as [|p]; simpl; [discriminate|].
  apply DecimalPos.Unsigned.to_uint_nonnil.
Qed.

(** The decimal text of a number determines the number. *)
Lemma toString_inj (n m : N) : toString n = toString m -> n = m.
Proof.
  unfold toString. intros H. apply lit_inj in H.
  apply DecimalN.Unsigned.to_uint_inj.
  pose proof (NilZero.usu _ (to_uint_not_nil n)) as En.
  pose proof (NilZero.usu _ (to_uint_not_nil m)) as Em.
  rewrite H in En. rewrite Em in En. now injection En.
Qed.

(** ** [trim] is idempotent *)

Lemma trimStart_head (s : js_string) : head_kept (trimStart s).
Proof.
  induction s as [|c s IH]; simpl; [exact I|].
  destruct (is_white_space c) eqn:E; [exact IH|exact E].
Qed.

Lemma trimStart_fixed (s : js_string) : head_kept s -> trimStart s = s.
Proof.
  destruct s as [|c s]; simpl; [reflexivity|].
  intros ->. reflexivity.
Qed.

Lemma trimStart_suffix (s : js_string) : exists p, s = p ++ trimStart s.
Proof.
  induction s as [|c s [p IH]]; simpl.
  - exists []. reflexivity.
  - destruct (is_white_space c).
    + exists (c :: p). simpl. now rewrite <- IH.
    + exists []. reflexivity.
Qed.

Lemma head_kept_prefix (a b : js_string) : head_kept (a ++ b) -> head_kept a.
Proof. destruct a; simpl; auto. Qed.

Lemma trimEnd_head (s : js_string) : head_kept s -> head_kept (trimEnd s).
Proof.
  unfold trimEnd. intros H.
  destruct (trimStart_suffix (rev s)) as [p E].
  apply (f_equal (@rev N)) in E.
  rewrite rev_involutive, rev_app_distr in E.
  rewrite E in H. now apply head_kept_prefix in H.
Qed.

Lemma trimEnd_fixed (s : js_string) : trimEnd (trimEnd s) = trimEnd s.
Proof.
  unfold trimEnd. rewrite rev_involutive.
  now rewrite (trimStart_fixed _ (trimStart_head (rev s))).
Qed.

Lemma trim_idempotent (s : js_string) : trim (trim s) = trim s.
Proof.
  unfold trim.
  rewrite (trimStart_fixed _ (trimEnd_head _ (trimStart_head s))).
  apply trimEnd_fixed.
Qed.

End JSFacts.

(* ================================================================== *)
(** * Facts about programs *)

Module EffectsFacts.
Import JS Effects.

Section Run.
Variable E : Type.
Variable R : E -> Type.
Variable env : forall e, R e.

Lemma run_Vis A (e : E) (k : R e -> prog E R A) :
  run env (Vis e k) = (e :: fst (run env (k (env e))), snd (run env (k (env e)))).
Proof. simpl. now destruct (run env (k (env e))). Qed.

(** The calls of [bind m f] are those of [m] followed, when [m] returns,
    by those of [f]. *)
Lemma run_bind A B (m : prog E R A) (f : A -> prog E R B) :
  run env (bind m f) =
  match snd (run env m) with
  | Fulfilled a =>
      (fst (run env m) ++ fst (run env (f a)), snd (run env (f a)))
  | Rejected e => (fst (run env m), Rejected e)
  end.
Proof.
  induction m as [a|e|e k IH]; simpl.
  - now destruct (run env (f a)).
  - reflexivity.
  - rewrite IH. destruct (run env (k (env e))) as [t [a|err]]; simpl;
      reflexivity.
Qed.

(** A settled call neither throws nor adds calls. *)
Lemma run_settle A (m : prog E R A) :
  run env (settle m) = (fst (run env m), Fulfilled (snd (run env m))).
Proof.
  induction m as [a|e|e k IH]; simpl; try reflexivity.
  rewrite IH. now destruct (run env (k (env e))).
Qed.

End Run.
End EffectsFacts.

(* ================================================================== *)
(** * The provider client *)

Module ElevenlabsFacts.
Import JS Effects Effects.Notations Web Elevenlabs Spec JSFacts.

Lemma nonempty_truthy (s : js_string) :
  s <> [] -> negb (truthy (JString s)) = false.
Proof. destruct s; [contradiction|reflexivity]. Qed.

Lemma speech_text_check_passes (text : js_string) :
  trim text <> [] ->
  negb (truthy (JString text)) || (str_length (trim text) =? 0) = false.
Proof.
  intros H. rewrite (nonempty_truthy _ (trim_nonempty _ H)). simpl.
  destruct (str_length (trim text) =? 0) eqn:E; [|reflexivity].
  apply str_length_zero in E. contradiction.
Qed.

(** [generateSpeech], its three local checks passed: one request, whose
    body carries [text] as given, and no call after it; the payload of a
    success response is returned as read; a failure response is thrown
    with its status code; a network failure is rethrown. *)
Lemma generateSpeech_request (apiKey text voiceId : js_string) :
  apiKey <> [] -> trim text <> [] -> voiceId <> [] ->
  exists url init k,
    generateSpeech apiKey text voiceId = Vis (Fetch url init) k /\
    (exists b, body init = Some b /\ get b "text" = Fulfilled (JString text)) /\
    (forall o, exists result, k o = await result) /\
    (forall r, ok r = true -> k (Fulfilled r) = await (arrayBuffer r)) /\
    (forall r b, ok r = false -> Web.text r = Fulfilled b ->
       exists m, k (Fulfilled r)
                 = Throw (ElevenLabsError m (Some (status r)) (Some b))) /\
    (forall e, k (Rejected e) = Throw e).
Proof.
  intros Hk Ht Hv. unfold generateSpeech.
  rewrite (nonempty_truthy _ Hk), (speech_text_check_passes _ Ht),
          (nonempty_truthy _ Hv).
  unfold fetch. cbn [bind].
  eexists _, _, _. split; [reflexivity|].
  split; [eexists; split; reflexivity|].
  split; [|split; [|split]].
  - intros [r|e]; cbn [await bind].
    + destruct (ok r); cbn [negb].
      * now exists (arrayBuffer r).
      * destruct (Web.text r) as [b|e]; cbn [await bind].
        -- eexists (Rejected _). reflexivity.
        -- now exists (Rejected e).
    + now exists (Rejected e).
  - intros r Hok. cbn [await bind]. now rewrite Hok.
  - intros r b Hok Hb. cbn [await bind]. rewrite Hok. cbn [negb].
    rewrite Hb. cbn [await bind]. eexists. reflexivity.
  - reflexivity.
Qed.

Lemma run_await E R (env : forall e : E, R e) A (o : outcome A) :
  run env (await o) = ([], o).
Proof. now destruct o. Qed.

(** The outcome of [generateSpeech] against a provider that answers its
    request with [r]. *)
Lemma generateSpeech_outcome (provider : forall e, nodeR e)
    (apiKey text voiceId : js_string) (r : Response) :
  apiKey <> [] -> trim text <> [] -> voiceId <> [] ->
  (forall url init, provider (Fetch url init) = Fulfilled r) ->
  (forall buf, ok r = true -> arrayBuffer r = Fulfilled buf ->
     snd (run provider (generateSpeech apiKey text voiceId)) = Fulfilled buf) /\
  (forall b, ok r = false -> Web.text r = Fulfilled b ->
     exists m,
       snd (run provider (generateSpeech apiKey text voiceId))
       = Rejected (ElevenLabsError m (Some (status r)) (Some b))).
Proof.
  intros Hk Ht Hv Hp.
  destruct (generateSpeech_request _ _ _ Hk Ht Hv)
    as (url & init & k & -> & _ & _ & Hok & Hfail & _).
  split.
  - intros buf Hr Hb. rewrite EffectsFacts.run_Vis, Hp. cbn [snd].
    now rewrite (Hok _ Hr), Hb.
  - intros b Hr Hb. destruct (Hfail _ _ Hr Hb) as [m Hm]. exists m.
    rewrite EffectsFacts.run_Vis, Hp. cbn [snd]. now rewrite Hm.
Qed.

(** Exactly one request is sent, whatever the provider answers. *)
Lemma generateSpeech_one_request (provider : forall e, nodeR e)
    (apiKey text voiceId : js_string) :
  apiKey <> [] -> trim text <> [] -> voiceId <> [] ->
  exists url init b,
    fst (run provider (generateSpeech apiKey text voiceId)) = [Fetch url init] /\
    body init = Some b /\ get b "text" = Fulfilled (JString text).
Proof.
  intros Hk Ht Hv.
  destruct (generateSpeech_request _ _ _ Hk Ht Hv)
    as (url & init & k & -> & (b & Hb & Hg) & Hone & _).
  exists url, init, b. split; [|now split].
  rewrite EffectsFacts.run_Vis. cbn [fst].
  destruct (Hone (provider (Fetch url init))) as [res ->].
  now rewrite run_await.
Qed.

Lemma reduce_voice_readable (item : js_value) :
  readable item -> exists voice,
    reduce_voice item = Fulfilled voice /\ reduced_from item voice.
Proof.
  intros [Hn Hu]. unfold reduce_voice, reduced_from.
  destruct item; try contradiction; cbn [get];
    eexists; (split; [reflexivity|]); eexists _, _, _, _;
    repeat split; reflexivity.
Qed.

Lemma map_reduce_voice (items : list js_value) :
  Forall readable items ->
  exists voices,
    map_outcome reduce_voice items = Fulfilled voices /\
    Forall2 reduced_from items voices.
Proof.
  induction 1 as [|item items Hitem _ (voices & IH & Hall)].
  - exists []. split; [reflexivity|constructor].
  - destruct (reduce_voice_readable item Hitem) as (voice & Hv & Hr).
    exists (voice :: voices). cbn [map_outcome]. rewrite Hv, IH.
    split; [reflexivity|now constructor].
Qed.

(** [fetchElevenLabsVoices] with an API key, against a provider that
    answers its request with [r]. *)
Lemma fetchElevenLabsVoices_outcome (provider : forall e, nodeR e)
    (apiKey : js_string) (r : Response) :
  apiKey <> [] ->
  (forall url init, provider (Fetch url init) = Fulfilled r) ->
  (forall b, ok r = false -> Web.text r = Fulfilled b ->
     snd (run provider (fetchElevenLabsVoices apiKey))
     = Rejected (ElevenLabsError
                   (lit "Failed to fetch voices: " ++ statusText r)
                   (Some (status r)) (Some b))) /\
  (forall data v, ok r = true -> json r = Fulfilled data ->
     get data "voices" = Fulfilled v ->
     snd (run provider (fetchElevenLabsVoices apiKey))
     = array_map v reduce_voice).
Proof.
  intros Hk Hp. unfold fetchElevenLabsVoices.
  rewrite (nonempty_truthy _ Hk). unfold fetch. cbn [bind].
  split.
  - intros b Hok Hb. rewrite EffectsFacts.run_Vis, Hp. cbn [snd await bind].
    rewrite Hok. cbn [negb]. now rewrite Hb.
  - intros data v Hok Hj Hv. rewrite EffectsFacts.run_Vis, Hp.
    cbn [snd await bind]. rewrite Hok. cbn [negb].
    rewrite Hj. cbn [await bind]. rewrite Hv. cbn [await bind].
    now rewrite run_await.
Qed.

End ElevenlabsFacts.

(* ================================================================== *)
(** * Linking a route handler with the provider client *)

Module NextFacts.
Import JS Effects Web Next Spec JSFacts EffectsFacts.

(** Running the linked handler is running the handler with each lib call
    answered by the lib function's own run. *)
Lemma link_adequate (provider : forall e, nodeR e) A (m : route A) :
  run provider (link m) =
  (flat_map (calls_behind provider) (fst (run (resolved provider) m)),
   snd (run (resolved provider) m)).
Proof.
  induction m as [a|e|e k IH]; try reflexivity.
  change (link (Vis e k)) with (bind (lib e) (fun x => link (k x))).
  rewrite run_bind, run_Vis. cbn [fst snd flat_map].
  assert (Hlib : run provider (lib e)
                 = (calls_behind provider e, Fulfilled (resolved provider e))).
  { destruct e as [e'|a t v|a]; cbn [lib calls_behind resolved].
    - reflexivity.
    - apply run_settle.
    - apply run_settle. }
  rewrite Hlib. cbn [fst snd]. now rewrite IH.
Qed.

(** The configuration check of both handlers lets a configured
    credential through. *)
Lemma config_check_passes (apiKey : js_string) :
  apiKey <> [] -> apiKey <> lit "your_key_here" ->
  negb (truthy (JString apiKey)) || strict_eq_lit (JString apiKey) "your_key_here"
  = false.
Proof.
  intros Hne Hph. unfold strict_eq_lit.
  rewrite (str_eqb_neq _ _ Hph), orb_false_r.
  destruct apiKey; [contradiction|reflexivity].
Qed.

(** [NextResponse.json] returns the response for every status a response
    with a body can have. *)
Lemma NextResponse_json_answers (body : js_value) (status : N) :
  200 <= status -> status <= 599 ->
  status <> 204 -> status <> 205 -> status <> 304 ->
  NextResponse_json body status = Fulfilled (json_response body status).
Proof.
  intros Hlo Hhi H204 H205 H304. unfold NextResponse_json, null_body_status.
  apply N.ltb_ge in Hlo, Hhi. apply N.eqb_neq in H204, H205, H304.
  now rewrite Hlo, Hhi, H204, H205, H304.
Qed.

(** It throws for every other status. *)
Lemma NextResponse_json_throws (body : js_value) (status : N) :
  status < 200 \/ 599 < status \/
  status = 204 \/ status = 205 \/ status = 304 ->
  exists name message,
    NextResponse_json body status = Rejected (NativeError name message) /\
    (name = lit "RangeError" <-> status < 200 \/ 599 < status).
Proof.
  intros H. unfold NextResponse_json.
  destruct ((status <? 200) || (599 <? status)) eqn:E.
  - eexists _, _. split; [reflexivity|]. split; [|reflexivity].
    intros _. apply orb_true_iff in E as [E|E]; apply N.ltb_lt in E; auto.
  - apply orb_false_iff in E as [E1 E2]. apply N.ltb_ge in E1, E2.
    assert (Hn : null_body_status status = true).
    { unfold null_body_status.
      destruct H as [H|[H|[ -> | [ -> | -> ] ]]]; try reflexivity; lia. }
    rewrite Hn. eexists _, _. split; [reflexivity|].
    split; [discriminate|]. intros [H'|H']; lia.
Qed.

End NextFacts.

(* ================================================================== *)
(** * The generate endpoint *)

Module GenerateVoiceFacts.
Import JS Effects Effects.Notations Web Next GenerateVoice Spec.
Import JSFacts EffectsFacts ElevenlabsFacts NextFacts.

Section Facts.
Variable MAX_TEXT_LENGTH : N.
Variable toLocaleString : N -> js_string.

Local Notation POST := (POST MAX_TEXT_LENGTH toLocaleString).
Local Notation validation_failure :=
  (validation_failure MAX_TEXT_LENGTH toLocaleString).
Local Notation valid_request := (valid_request MAX_TEXT_LENGTH).

Implicit Type answers : forall e : routeE, routeR e.
Implicit Type provider : forall e : nodeE, nodeR e.
Implicit Types env : ProcessEnv.
Implicit Types rq : NextRequest.
Implicit Types apiKey text voice_id : js_string.

(** What the handler does once the credential is configured and the body
    could be read: the four validations in order, then the call. *)
Ltac enter_POST Hc Hp :=
  let body := fresh "body" in
  let Hkey := fresh "Hkey" in
  let Hne := fresh "Hne" in
  let Hph := fresh "Hph" in
  let Hj := fresh "Hj" in
  let Ht := fresh "Ht" in
  let Hv := fresh "Hv" in
  destruct Hc as (Hkey & Hne & Hph);
  destruct Hp as (body & Hj & Ht & Hv);
  unfold GenerateVoice.POST; rewrite Hkey; cbn [env_value];
  rewrite (config_check_passes _ Hne Hph), Hj, Ht, Hv;
  cbn [await bind].

Lemma text_check_passes (s : js_string) :
  trim s <> [] ->
  negb (truthy (JString s)) || negb (str_eqb (typeof (JString s)) (lit "string"))
  = false.
Proof.
  intros H. rewrite not_a_string_test.
  apply trim_nonempty in H. apply nonempty_string_JString in H.
  now rewrite H.
Qed.

Lemma blank_check (s : js_string) :
  (str_length (trim s) <? MIN_TEXT_LENGTH) = true <-> trim s = [].
Proof. apply str_length_lt_one. Qed.

Lemma blank_check_passes (s : js_string) :
  trim s <> [] -> (str_length (trim s) <? MIN_TEXT_LENGTH) = false.
Proof.
  intros H. destruct (str_length (trim s) <? MIN_TEXT_LENGTH) eqn:E;
    [|reflexivity].
  apply blank_check in E. contradiction.
Qed.

(** A request that fails a validation is answered with 400 and the
    message of that validation, without any call. *)
Lemma POST_validation_failure env apiKey rq message :
  configured env apiKey ->
  validation_failure rq message ->
  POST env rq = Ret (error_response message 400).
Proof.
  intros Hc Hf. destruct Hf as [e He|text voice_id Hp Hn|s voice_id Hp Hs Hb
                               |s voice_id Hp Ht Hl|s voice_id Hp Ht Hl Hn].
  - destruct Hc as (Hkey & Hne & Hph).
    unfold GenerateVoice.POST. rewrite Hkey. cbn [env_value].
    now rewrite (config_check_passes _ Hne Hph), He.
  - enter_POST Hc Hp. now rewrite not_a_string_test, Hn.
  - enter_POST Hc Hp. rewrite not_a_string_test.
    apply nonempty_string_JString in Hs. rewrite Hs. cbn [negb as_string].
    apply blank_check in Hb. now rewrite Hb.
  - enter_POST Hc Hp. rewrite (text_check_passes _ Ht). cbn [as_string].
    rewrite (blank_check_passes _ Ht).
    apply N.ltb_lt in Hl. now rewrite Hl.
  - enter_POST Hc Hp. rewrite (text_check_passes _ Ht). cbn [as_string].
    rewrite (blank_check_passes _ Ht).
    apply N.ltb_ge in Hl. rewrite Hl.
    now rewrite not_a_string_test, Hn.
Qed.
Arguments POST_validation_failure {env apiKey rq message} _ _.

Lemma voice_check_passes (v : js_string) :
  v <> [] ->
  negb (truthy (JString v)) || negb (str_eqb (typeof (JString v)) (lit "string"))
  = false.
Proof.
  intros H. rewrite not_a_string_test.
  apply nonempty_string_JString in H. now rewrite H.
Qed.

Ltac enter_valid Hc Hv :=
  let Hp := fresh "Hp" in
  let Htrim := fresh "Htrim" in
  let Hlen := fresh "Hlen" in
  let Hvoice := fresh "Hvoice" in
  destruct Hv as (Hp & Htrim & Hlen & Hvoice);
  enter_POST Hc Hp;
  rewrite (text_check_passes _ Htrim); cbn [as_string];
  rewrite (blank_check_passes _ Htrim);
  apply N.ltb_ge in Hlen; rewrite Hlen;
  rewrite (voice_check_passes _ Hvoice).

(** The calls of a valid request: a log line, one call of
    [generateSpeech] with the trimmed text, and a log line when that call
    fails. *)
Lemma POST_trace env apiKey rq text voice_id answers :
  configured env apiKey -> valid_request rq text voice_id ->
  exists line rest,
    fst (run answers (POST env rq))
    = Runtime (ConsoleLog line)
      :: Call_generateSpeech apiKey (trim text) voice_id :: rest /\
    (rest = [] \/ exists l, rest = [Runtime (ConsoleError l)]).
Proof.
  intros Hc Hv. enter_valid Hc Hv.
  cbn [console_log generateSpeech bind try_catch].
  rewrite !run_Vis. cbn [fst].
  eexists _, _. split; [reflexivity|].
  destruct (answers (Call_generateSpeech apiKey (trim text) voice_id))
    as [buf|[m sc b|n m]]; [left|right|right]; try reflexivity.
  - eexists. cbn [await bind try_catch console_error]. rewrite run_Vis.
    unfold json_error. rewrite run_await. reflexivity.
  - eexists. reflexivity.
Qed.
Arguments POST_trace {env apiKey rq text voice_id} answers _ _.

Lemma POST_calls_once env apiKey rq text voice_id answers :
  configured env apiKey -> valid_request rq text voice_id ->
  generateSpeech_calls (fst (run answers (POST env rq)))
  = [(apiKey, trim text, voice_id)].
Proof.
  intros Hc Hv.
  destruct (POST_trace answers Hc Hv) as (line & rest & -> & [->|[l ->]]);
    reflexivity.
Qed.
Arguments POST_calls_once {env apiKey rq text voice_id} answers _ _.

(** Linked with the provider client, a valid request sends the provider
    one request, whose text is the trimmed text. *)
Lemma POST_fetches_once env apiKey rq text voice_id provider :
  configured env apiKey -> valid_request rq text voice_id ->
  exists url init b,
    fetches (fst (run provider (link (POST env rq)))) = [(url, init)] /\
    body init = Some b /\
    get b "text" = Fulfilled (JString (trim text)).
Proof.
  intros Hc Hv. rewrite link_adequate. cbn [fst].
  destruct (POST_trace (resolved provider) Hc Hv) as (line & rest & -> & Hrest).
  destruct Hc as (_ & Hne & _). destruct Hv as (_ & Htrim & _ & Hvoice).
  assert (Htt : trim (trim text) <> []) by now rewrite trim_idempotent.
  destruct (generateSpeech_one_request provider _ _ _ Hne Htt Hvoice)
    as (url & init & b & Hf & Hb & Hg).
  exists url, init, b. split; [|now split].
  cbn [flat_map calls_behind]. rewrite Hf.
  destruct Hrest as [->|[l ->]]; reflexivity.
Qed.
Arguments POST_fetches_once {env apiKey rq text voice_id} provider _ _.

Lemma POST_speech env apiKey rq text voice_id answers buf :
  configured env apiKey -> valid_request rq text voice_id ->
  answers (Call_generateSpeech apiKey (trim text) voice_id) = Fulfilled buf ->
  snd (run answers (POST env rq)) = Fulfilled (audio_response buf).
Proof.
  intros Hc Hv Ha. enter_valid Hc Hv.
  cbn [console_log generateSpeech bind try_catch].
  rewrite !run_Vis. cbn [snd]. rewrite Ha. reflexivity.
Qed.
Arguments POST_speech {env apiKey rq text voice_id} answers {buf} _ _ _.

Lemma POST_provider_error env apiKey rq text voice_id answers m s b :
  configured env apiKey -> valid_request rq text voice_id ->
  answers (Call_generateSpeech apiKey (trim text) voice_id)
  = Rejected (ElevenLabsError m (Some s) b) ->
  remapped s (snd (run answers (POST env rq))).
Proof.
  intros Hc Hv Ha. enter_valid Hc Hv.
  cbn [console_log generateSpeech bind try_catch].
  rewrite !run_Vis. cbn [snd]. rewrite Ha.
  cbn [await bind try_catch console_error]. rewrite run_Vis.
  cbn [snd statusCode_or]. unfold json_error. rewrite run_await. cbn [snd].
  repeat split.
  - intros ->. reflexivity.
  - intros ->. reflexivity.
  - intros ->. reflexivity.
  - intros H1 H2 H3 [Hlo Hhi].
    assert (H0 : (s =? 0) = false) by (apply N.eqb_neq; lia).
    pose proof (fun body =>
                  NextResponse_json_answers body s ltac:(lia) ltac:(lia)
                    ltac:(lia) ltac:(lia) ltac:(lia)) as Hjson.
    apply N.eqb_neq in H1, H2, H3. apply N.leb_gt in Hhi.
    rewrite H0, H1, H2, H3, Hhi. apply Hjson.
  - intros Hs.
    assert (H0 : (s =? 0) = false) by (apply N.eqb_neq; lia).
    assert (H1 : (s =? 401) = false) by (apply N.eqb_neq; lia).
    assert (H2 : (s =? 422) = false) by (apply N.eqb_neq; lia).
    assert (H3 : (s =? 429) = false) by (apply N.eqb_neq; lia).
    apply N.leb_le in Hs.
    now rewrite H0, H1, H2, H3, Hs.
Qed.
Arguments POST_provider_error {env apiKey rq text voice_id} answers {m s b} _ _ _.

(** The outcome of the lib call behind a valid request, for a provider
    that answers with [r]. *)
Lemma resolved_speech env apiKey rq text voice_id provider r :
  configured env apiKey -> valid_request rq text voice_id ->
  (forall url init, provider (Fetch url init) = Fulfilled r) ->
  (forall buf, ok r = true -> arrayBuffer r = Fulfilled buf ->
     resolved provider (Call_generateSpeech apiKey (trim text) voice_id)
     = Fulfilled buf) /\
  (forall b, ok r = false -> Web.text r = Fulfilled b ->
     exists m,
       resolved provider (Call_generateSpeech apiKey (trim text) voice_id)
       = Rejected (ElevenLabsError m (Some (status r)) (Some b))).
Proof.
  intros (_ & Hne & _) (_ & Htrim & _ & Hvoice) Hp.
  assert (Htt : trim (trim text) <> []) by now rewrite trim_idempotent.
  exact (generateSpeech_outcome provider _ _ _ r Hne Htt Hvoice Hp).
Qed.
Arguments resolved_speech {env apiKey rq text voice_id provider r} _ _ _.

Lemma POST_linked_speech env apiKey rq text voice_id provider r buf :
  configured env apiKey -> valid_request rq text voice_id ->
  (forall url init, provider (Fetch url init) = Fulfilled r) ->
  ok r = true -> arrayBuffer r = Fulfilled buf ->
  snd (run provider (link (POST env rq))) = Fulfilled (audio_response buf).
Proof.
  intros Hc Hv Hp Hok Hb. rewrite link_adequate. cbn [snd].
  destruct (resolved_speech Hc Hv Hp) as [Hsucc _].
  exact (POST_speech _ Hc Hv (Hsucc buf Hok Hb)).
Qed.
Arguments POST_linked_speech {env apiKey rq text voice_id provider r buf}.

(** C9. When the credential is absent or is the placeholder, every POST
    is answered with 500 and "Server configuration error: API key not
    set", whatever the request holds (malformed JSON, empty or over-long
    text included): the configuration check comes before the body is
    read, and the only call made is the log line. *)
Theorem config_error_precedes_validation env rq answers :
  ELEVENLABS_API_KEY env = None \/
  ELEVENLABS_API_KEY env = Some (lit "your_key_here") ->
  run answers (POST env rq)
  = ([Runtime (ConsoleError
        [LogString
           (lit "[/api/generate-voice] ELEVENLABS_API_KEY not configured")])],
     Fulfilled
       (error_response (lit "Server configuration error: API key not set")
          500)).
Proof.
  intros [H|H]; unfold GenerateVoice.POST; rewrite H; reflexivity.
Qed.

(** C1 (amended). With a configured credential, a request that fails a
    validation is answered with 400 and the message of the first
    validation it fails, in the order: malformed JSON; [text] missing,
    not a string or the empty string ("Text is required and must be a
    string"); [text] not empty but blank once trimmed ("Text cannot be
    empty"); [text] longer than the maximum (the message includes the
    maximum as [toLocaleString] prints it); [voice_id] missing, not a
    string or empty.  No call is made at all, neither by the handler nor,
    once linked with the provider client, to the provider. *)
Theorem validation_fails_fast env apiKey rq message :
  configured env apiKey ->
  validation_failure rq message ->
  (forall answers,
     run answers (POST env rq) = ([], Fulfilled (error_response message 400))) /\
  (forall provider,
     run provider (link (POST env rq))
     = ([], Fulfilled (error_response message 400))) /\
  includes (too_long_message MAX_TEXT_LENGTH toLocaleString)
           (toLocaleString MAX_TEXT_LENGTH) = true.
Proof.
  intros Hc Hf. rewrite (POST_validation_failure Hc Hf).
  repeat split. apply includes_middle.
Qed.

(** Every request whose body parses to something other than [null] either
    fails one validation or passes them all. *)
Lemma validation_decides rq (text voice_id : js_value) :
  parsed rq text voice_id ->
  (exists message, validation_failure rq message) \/
  (exists t v, valid_request rq t v).
Proof.
  intros Hp.
  destruct (nonempty_string text) eqn:Et.
  2:{ left. eexists. eapply text_not_a_string; eauto. }
  apply nonempty_string_inv in Et as (s & -> & Hs).
  destruct (trim s) as [|c t] eqn:Etrim.
  { left. eexists. eapply text_blank; eauto. }
  destruct (MAX_TEXT_LENGTH <? str_length s) eqn:El.
  { left. eexists. eapply text_too_long; eauto.
    - rewrite Etrim. discriminate.
    - now apply N.ltb_lt. }
  apply N.ltb_ge in El.
  destruct (nonempty_string voice_id) eqn:Ev.
  2:{ left. eexists. eapply voice_id_not_a_string; eauto.
      rewrite Etrim. discriminate. }
  apply nonempty_string_inv in Ev as (v & -> & Hv).
  right. exists s, v. repeat split; auto. rewrite Etrim. discriminate.
Qed.

(** A request fails at most one validation first. *)
Lemma validation_failure_unique rq (m1 m2 : js_string) :
  validation_failure rq m1 -> validation_failure rq m2 -> m1 = m2.
Proof.
  intros H1 H2.
  assert (Hc : configured sample_env (lit "sk_test_key"))
    by (repeat split; discriminate).
  pose proof (POST_validation_failure Hc H1) as E1.
  pose proof (POST_validation_failure Hc H2) as E2.
  rewrite E1 in E2. now injection E2.
Qed.

(** C2 (amended). For a valid request whose [generateSpeech] call fails
    with an [ElevenLabsError] carrying a status code [s] of 400 or more,
    the answer is the error envelope with: 401 and "Authentication failed
    with speech service" for 401; 422 and "Invalid request: please check
    your text and try again" for 422; 429 and the rate-limit message for
    429; the status [s] itself and "Failed to generate speech" for any
    other [s] from 400 to 499; 500 and that message for [s] from 500 on.
    The same holds end to end for a provider response with a status of
    400 or more.  Status codes below 400 are not part of this statement. *)
Theorem provider_error_is_remapped env apiKey rq text voice_id :
  configured env apiKey -> valid_request rq text voice_id ->
  (forall answers m s b,
     answers (Call_generateSpeech apiKey (trim text) voice_id)
     = Rejected (ElevenLabsError m (Some s) b) ->
     remapped s (snd (run answers (POST env rq)))) /\
  (forall provider r b,
     (forall url init, provider (Fetch url init) = Fulfilled r) ->
     ok r = false -> Web.text r = Fulfilled b ->
     remapped (status r) (snd (run provider (link (POST env rq))))).
Proof.
  intros Hc Hv. split.
  - intros answers m s b Ha. exact (POST_provider_error _ Hc Hv Ha).
  - intros provider r b Hp Hok Hb. rewrite link_adequate. cbn [snd].
    destruct (resolved_speech Hc Hv Hp) as [_ Hfail].
    destruct (Hfail b Hok Hb) as [m Hm].
    exact (POST_provider_error _ Hc Hv Hm).
Qed.

(** C4. For a valid request whose provider call succeeds, the answer has
    status 200, the provider's payload as its body, byte for byte, and
    the headers Content-Type audio/mpeg, Content-Length the decimal byte
    count of the payload, Cache-Control private with max-age 3600, and
    Content-Disposition inline with a file name. *)
Theorem audio_is_returned_unmodified env apiKey rq text voice_id :
  configured env apiKey -> valid_request rq text voice_id ->
  (forall answers buf,
     answers (Call_generateSpeech apiKey (trim text) voice_id) = Fulfilled buf ->
     snd (run answers (POST env rq)) = Fulfilled (audio_response buf)) /\
  (forall provider r buf,
     (forall url init, provider (Fetch url init) = Fulfilled r) ->
     ok r = true -> arrayBuffer r = Fulfilled buf ->
     snd (run provider (link (POST env rq))) = Fulfilled (audio_response buf)).
Proof.
  intros Hc Hv. split.
  - intros answers buf Ha. exact (POST_speech _ Hc Hv Ha).
  - intros provider r buf Hp Hok Hb.
    exact (POST_linked_speech Hc Hv Hp Hok Hb).
Qed.

(** The Content-Length of the audio answer names the byte count of its
    body and no other number. *)
Lemma content_length_is_byte_count (buf : ArrayBuffer) (n : N) :
  headers_get (res_headers (audio_response buf)) (lit "content-length")
  = Some (toString n) ->
  n = byteLength buf.
Proof.
  intros H.
  change (headers_get (res_headers (audio_response buf))
            (lit "content-length"))
    with (Some (toString (byteLength buf))) in H.
  injection H as H. symmetry. now apply toString_inj.
Qed.

(** C8. Two calls with the same text and voice id, each answered by the
    provider with a success response carrying the same bytes, return the
    same answer: that payload, and the same Content-Length. *)
Theorem generate_is_deterministic env apiKey rq1 rq2 text voice_id
    provider1 provider2 r1 r2 buf :
  configured env apiKey ->
  valid_request rq1 text voice_id -> valid_request rq2 text voice_id ->
  (forall url init, provider1 (Fetch url init) = Fulfilled r1) ->
  (forall url init, provider2 (Fetch url init) = Fulfilled r2) ->
  ok r1 = true -> ok r2 = true ->
  arrayBuffer r1 = Fulfilled buf -> arrayBuffer r2 = Fulfilled buf ->
  snd (run provider1 (link (POST env rq1)))
  = snd (run provider2 (link (POST env rq2))) /\
  exists answer,
    snd (run provider1 (link (POST env rq1))) = Fulfilled answer /\
    res_body answer = BufferBody buf /\
    headers_get (res_headers answer) (lit "Content-Length")
    = Some (toString (byteLength buf)).
Proof.
  intros Hc Hv1 Hv2 Hp1 Hp2 Hok1 Hok2 Hb1 Hb2.
  rewrite (POST_linked_speech Hc Hv1 Hp1 Hok1 Hb1),
          (POST_linked_speech Hc Hv2 Hp2 Hok2 Hb2).
  split; [reflexivity|].
  exists (audio_response buf). repeat split.
Qed.

(** C10. With a configured credential: a valid request calls
    [generateSpeech] once, with the trimmed text, and the request sent to
    the provider carries the trimmed text; the maximum length is checked
    on the text as received, so a text longer than the maximum is refused
    with 400, without any call, however short its trimmed form. *)
Theorem provider_receives_trimmed_text env apiKey rq :
  configured env apiKey ->
  (forall text voice_id,
     valid_request rq text voice_id ->
     (forall answers,
        generateSpeech_calls (fst (run answers (POST env rq)))
        = [(apiKey, trim text, voice_id)]) /\
     (forall provider,
        exists url init b,
          fetches (fst (run provider (link (POST env rq)))) = [(url, init)] /\
          body init = Some b /\
          get b "text" = Fulfilled (JString (trim text)))) /\
  (forall s (v : js_value),
     parsed rq (JString s) v ->
     trim s <> [] -> MAX_TEXT_LENGTH < str_length s ->
     forall answers,
       run answers (POST env rq)
       = ([], Fulfilled
                (error_response
                   (too_long_message MAX_TEXT_LENGTH toLocaleString) 400))).
Proof.
  intros Hc. split.
  - intros text voice_id Hv. split.
    + intros answers. exact (POST_calls_once answers Hc Hv).
    + intros provider. exact (POST_fetches_once provider Hc Hv).
  - intros s v Hp Ht Hl answers.
    now rewrite (POST_validation_failure Hc
                   (text_too_long MAX_TEXT_LENGTH toLocaleString rq s v
                      Hp Ht Hl)).
Qed.

End Facts.

(** ** The theorems at sample inputs *)

Lemma sample_configured : configured sample_env (lit "sk_test_key").
Proof. repeat split; discriminate. Qed.

Lemma story_parsed :
  parsed story_request (js_str "  Once upon a time  ") (js_str "voice_1").
Proof. eexists. repeat split. Qed.

Lemma story_valid :
  valid_request 100000 story_request
    (lit "  Once upon a time  ") (lit "voice_1").
Proof.
  split; [exact story_parsed|]. repeat split; vm_compute; discriminate.
Qed.

Lemma config_error_precedes_validation_witness :
  run (stubbed (Fulfilled sample_audio) (Fulfilled []))
      (POST 100000 toLocaleString_en_US unset_env malformed_request)
  = ([Runtime (ConsoleError
        [LogString
           (lit "[/api/generate-voice] ELEVENLABS_API_KEY not configured")])],
     Fulfilled
       (error_response (lit "Server configuration error: API key not set")
          500)).
Proof.
  apply (config_error_precedes_validation 100000 toLocaleString_en_US
           unset_env malformed_request).
  left. reflexivity.
Defined.

Lemma blank_fails :
  validation_failure 100000 toLocaleString_en_US blank_request
    (lit "Text cannot be empty").
Proof.
  apply text_blank with (s := lit "   ") (voice_id := js_str "voice_1").
  - eexists. repeat split.
  - discriminate.
  - reflexivity.
Qed.

Lemma validation_fails_fast_witness :
  (forall answers,
     run answers (POST 100000 toLocaleString_en_US sample_env blank_request)
     = ([], Fulfilled (error_response (lit "Text cannot be empty") 400))) /\
  (forall provider,
     run provider
       (link (POST 100000 toLocaleString_en_US sample_env blank_request))
     = ([], Fulfilled (error_response (lit "Text cannot be empty") 400))) /\
  includes (too_long_message 100000 toLocaleString_en_US) (lit "100,000") = true.
Proof.
  exact (validation_fails_fast 100000 toLocaleString_en_US sample_env
           (lit "sk_test_key") blank_request (lit "Text cannot be empty")
           sample_configured blank_fails).
Defined.

(** The empty string is a string whose trimmed form is empty, and it is
    answered with the message of the missing text, not with "Text cannot
    be empty". *)
Lemma empty_text_reported_as_missing :
  ~ (forall env apiKey rq s (v : js_value) (answers : forall e, routeR e),
       configured env apiKey -> parsed rq (JString s) v -> trim s = [] ->
       snd (run answers (POST 100000 toLocaleString_en_US env rq))
       = Fulfilled (error_response (lit "Text cannot be empty") 400)).
Proof.
  intros H.
  specialize (H sample_env (lit "sk_test_key") empty_request (lit "")
                (js_str "voice_1")
                (stubbed (Fulfilled sample_audio) (Fulfilled []))
                sample_configured).
  assert (Hp : parsed empty_request (JString (lit "")) (js_str "voice_1"))
    by (eexists; repeat split).
  specialize (H Hp eq_refl). vm_compute in H. discriminate H.
Qed.

Lemma provider_error_is_remapped_witness :
  remapped 401
    (snd (run (stubbed
                 (Rejected (ElevenLabsError (lit "Invalid API key") (Some 401)
                              (Some (lit "unauthorized"))))
                 (Fulfilled []))
              (POST 100000 toLocaleString_en_US sample_env story_request))) /\
  remapped 503
    (snd (run (provider_answers
                 (response_of 503 (lit "Service Unavailable") []
                    (lit "busy") JNull))
              (link (POST 100000 toLocaleString_en_US sample_env
                       story_request)))).
Proof.
  destruct (provider_error_is_remapped 100000 toLocaleString_en_US
              sample_env (lit "sk_test_key") story_request
              (lit "  Once upon a time  ") (lit "voice_1")
              sample_configured story_valid) as [Hstub Hlinked].
  split.
  - apply Hstub with (m := lit "Invalid API key")
                     (b := Some (lit "unauthorized")).
    reflexivity.
  - apply (Hlinked (provider_answers
                      (response_of 503 (lit "Service Unavailable") []
                         (lit "busy") JNull))
                   (response_of 503 (lit "Service Unavailable") []
                      (lit "busy") JNull)
                   (lit "busy")); reflexivity.
Defined.

(** A provider status of 404 is answered with 404, not with 500. *)
Lemma other_status_is_not_500 :
  ~ (forall env apiKey rq text voice_id (answers : forall e, routeR e) m s b,
       configured env apiKey -> valid_request 100000 rq text voice_id ->
       answers (Call_generateSpeech apiKey (trim text) voice_id)
       = Rejected (ElevenLabsError m (Some s) b) ->
       s <> 401 -> s <> 422 -> s <> 429 ->
       exists message,
         snd (run answers (POST 100000 toLocaleString_en_US env rq))
         = Fulfilled (error_response message 500)).
Proof.
  intros H.
  assert (Hm := H sample_env (lit "sk_test_key") story_request
              (lit "  Once upon a time  ") (lit "voice_1")
              (stubbed (Rejected (ElevenLabsError (lit "Not Found") (Some 404)
                                    None))
                       (Fulfilled []))
              (lit "Not Found") 404 None
              sample_configured story_valid eq_refl
              ltac:(discriminate) ltac:(discriminate) ltac:(discriminate)).
  destruct Hm as [message Hm].
  vm_compute in Hm. discriminate Hm.
Qed.

Lemma audio_is_returned_unmodified_witness :
  snd (run (stubbed (Fulfilled sample_audio) (Fulfilled []))
           (POST 100000 toLocaleString_en_US sample_env story_request))
  = Fulfilled (audio_response sample_audio) /\
  snd (run (provider_answers
              (response_of 200 (lit "OK") sample_audio [] JNull))
           (link (POST 100000 toLocaleString_en_US sample_env story_request)))
  = Fulfilled (audio_response sample_audio).
Proof.
  destruct (audio_is_returned_unmodified 100000 toLocaleString_en_US
              sample_env (lit "sk_test_key") story_request
              (lit "  Once upon a time  ") (lit "voice_1")
              sample_configured story_valid) as [Hstub Hlinked].
  split.
  - apply Hstub. reflexivity.
  - apply (Hlinked _ (response_of 200 (lit "OK") sample_audio [] JNull));
      reflexivity.
Defined.

Lemma generate_is_deterministic_witness :
  snd (run (provider_answers
              (response_of 200 (lit "OK") sample_audio [] JNull))
           (link (POST 100000 toLocaleString_en_US sample_env story_request)))
  = snd (run (provider_answers
                (response_of 201 (lit "Created") sample_audio
                   (lit "ID3") JNull))
             (link (POST 100000 toLocaleString_en_US sample_env
                      story_request))) /\
  exists answer,
    snd (run (provider_answers
                (response_of 200 (lit "OK") sample_audio [] JNull))
             (link (POST 100000 toLocaleString_en_US sample_env
                      story_request)))
    = Fulfilled answer /\
    res_body answer = BufferBody sample_audio /\
    headers_get (res_headers answer) (lit "Content-Length")
    = Some (toString (byteLength sample_audio)).
Proof.
  apply (generate_is_deterministic 100000 toLocaleString_en_US
           sample_env (lit "sk_test_key") story_request story_request
           (lit "  Once upon a time  ") (lit "voice_1")
           (provider_answers (response_of 200 (lit "OK") sample_audio [] JNull))
           (provider_answers
              (response_of 201 (lit "Created") sample_audio (lit "ID3") JNull))
           (response_of 200 (lit "OK") sample_audio [] JNull)
           (response_of 201 (lit "Created") sample_audio (lit "ID3") JNull)
           sample_audio
           sample_configured story_valid story_valid);
    reflexivity.
Defined.

Lemma provider_receives_trimmed_text_witness :
  generateSpeech_calls
    (fst (run (stubbed (Fulfilled sample_audio) (Fulfilled []))
              (POST 100000 toLocaleString_en_US sample_env story_request)))
  = [(lit "sk_test_key", lit "Once upon a time", lit "voice_1")] /\
  run (stubbed (Fulfilled sample_audio) (Fulfilled []))
      (POST 5 toLocaleString_en_US sample_env padded_request)
  = ([], Fulfilled
           (error_response (too_long_message 5 toLocaleString_en_US) 400)).
Proof.
  split.
  - apply (proj1 (provider_receives_trimmed_text 100000 toLocaleString_en_US
                    sample_env (lit "sk_test_key") story_request
                    sample_configured)
             (lit "  Once upon a time  ") (lit "voice_1") story_valid).
  - apply (proj2 (provider_receives_trimmed_text 5 toLocaleString_en_US
                    sample_env (lit "sk_test_key") padded_request
                    sample_configured)
             (lit "  hi    ") (js_str "voice_1")).
    + eexists. repeat split.
    + vm_compute. discriminate.
    + reflexivity.
Defined.

End GenerateVoiceFacts.

(* ================================================================== *)
(** * The voices endpoint *)

Module VoicesFacts.
Import JS Effects Effects.Notations Web Next GenerateVoice Voices Spec.
Import JSFacts EffectsFacts ElevenlabsFacts NextFacts.

Implicit Type answers : forall e : routeE, routeR e.
Implicit Type provider : forall e : nodeE, nodeR e.

Ltac enter_GET Hc :=
  let Hkey := fresh "Hkey" in
  let Hne := fresh "Hne" in
  let Hph := fresh "Hph" in
  destruct Hc as (Hkey & Hne & Hph);
  unfold GET; rewrite Hkey; cbn [env_value];
  rewrite (config_check_passes _ Hne Hph);
  cbn [fetchElevenLabsVoices bind try_catch as_string]; rewrite run_Vis;
  cbn [snd].

Lemma GET_voices env apiKey answers voices :
  configured env apiKey ->
  answers (Call_fetchElevenLabsVoices apiKey) = Fulfilled voices ->
  snd (run answers (GET env)) = Fulfilled (voices_response voices).
Proof.
  intros Hc Ha. enter_GET Hc. now rewrite Ha.
Qed.
Arguments GET_voices {env apiKey} answers {voices} _ _.

Lemma GET_provider_error env apiKey answers m sc b :
  configured env apiKey ->
  answers (Call_fetchElevenLabsVoices apiKey)
  = Rejected (ElevenLabsError m sc b) ->
  voices_remapped sc (snd (run answers (GET env))).
Proof.
  intros Hc Ha. enter_GET Hc. rewrite Ha.
  cbn [await bind try_catch console_error]. rewrite run_Vis.
  cbn [snd]. rewrite run_await. cbn [snd].
  repeat split.
  - intros ->. reflexivity.
  - intros ->. reflexivity.
  - intros s -> H1 H2 [Hlo Hhi]. cbn [statusCode_or].
    assert (H0 : (s =? 0) = false) by (apply N.eqb_neq; lia).
    pose proof (fun body =>
                  NextResponse_json_answers body s ltac:(lia) ltac:(lia)
                    ltac:(lia) ltac:(lia) ltac:(lia)) as Hjson.
    apply N.eqb_neq in H1, H2. apply N.leb_gt in Hhi.
    rewrite H0, H1, H2, Hhi. apply Hjson.
  - intros s -> Hs. cbn [statusCode_or].
    assert (H0 : (s =? 0) = false) by (apply N.eqb_neq; lia).
    assert (H1 : (s =? 401) = false) by (apply N.eqb_neq; lia).
    assert (H2 : (s =? 429) = false) by (apply N.eqb_neq; lia).
    apply N.leb_le in Hs.
    now rewrite H0, H1, H2, Hs.
  - intros ->. reflexivity.
Qed.
Arguments GET_provider_error {env apiKey} answers {m sc b} _ _.

Lemma GET_unexpected env apiKey answers name message :
  configured env apiKey ->
  answers (Call_fetchElevenLabsVoices apiKey)
  = Rejected (NativeError name message) ->
  snd (run answers (GET env))
  = Fulfilled (error_response (lit "An unexpected error occurred") 500).
Proof.
  intros Hc Ha. enter_GET Hc. now rewrite Ha.
Qed.
Arguments GET_unexpected {env apiKey} answers {name message} _ _.

(** The answer to a classified error is a function of its status code
    alone. *)
Lemma GET_error_ignores_body env apiKey answers1 answers2 m1 m2 sc b1 b2 :
  configured env apiKey ->
  answers1 (Call_fetchElevenLabsVoices apiKey)
  = Rejected (ElevenLabsError m1 sc b1) ->
  answers2 (Call_fetchElevenLabsVoices apiKey)
  = Rejected (ElevenLabsError m2 sc b2) ->
  snd (run answers1 (GET env)) = snd (run answers2 (GET env)).
Proof.
  intros Hc H1 H2.
  enter_GET Hc. rewrite H1, run_Vis. cbn [snd]. rewrite H2.
  cbn [await bind try_catch console_error]. rewrite !run_Vis.
  cbn [snd]. now rewrite !run_await.
Qed.
Arguments GET_error_ignores_body {env apiKey} answers1 answers2 {m1 m2 sc b1 b2} _ _ _.

Lemma resolved_voices_error env apiKey provider r b :
  configured env apiKey ->
  (forall url init, provider (Fetch url init) = Fulfilled r) ->
  ok r = false -> Web.text r = Fulfilled b ->
  resolved provider (Call_fetchElevenLabsVoices apiKey)
  = Rejected (ElevenLabsError (lit "Failed to fetch voices: " ++ statusText r)
                (Some (status r)) (Some b)).
Proof.
  intros (_ & Hne & _) Hp Hok Hb.
  exact (proj1 (fetchElevenLabsVoices_outcome provider apiKey r Hne Hp) b Hok Hb).
Qed.
Arguments resolved_voices_error {env apiKey provider r b} _ _ _ _.

(** C3 (amended). With a configured credential the voices endpoint
    answers: on provider success, 200 and [{success: true, voices}],
    each voice being the provider's record reduced to [voice_id], [name],
    [description] and [category]; on a provider failure with a status of
    400 or more, the error envelope with status 401 for provider 401, 429
    for provider 429, the provider's status itself for any other status
    from 400 to 499, and 500 for a status from 500 on; the error envelope
    with status 500 for an error without status code and for an
    unclassified error.  The answer to a provider failure depends on the
    provider's status only, not on the body or the status text of its
    response.  Status codes below 400 are not part of the statement on
    the envelope. *)
Theorem voices_endpoint_answers env apiKey :
  configured env apiKey ->
  (forall answers voices,
     answers (Call_fetchElevenLabsVoices apiKey) = Fulfilled voices ->
     snd (run answers (GET env)) = Fulfilled (voices_response voices)) /\
  (forall provider r data items,
     (forall url init, provider (Fetch url init) = Fulfilled r) ->
     ok r = true -> json r = Fulfilled data ->
     get data "voices" = Fulfilled (JArray items) ->
     Forall readable items ->
     exists voices,
       snd (run provider (link (GET env))) = Fulfilled (voices_response voices) /\
       Forall2 reduced_from items voices) /\
  (forall answers m sc b,
     answers (Call_fetchElevenLabsVoices apiKey)
     = Rejected (ElevenLabsError m sc b) ->
     voices_remapped sc (snd (run answers (GET env)))) /\
  (forall answers name message,
     answers (Call_fetchElevenLabsVoices apiKey)
     = Rejected (NativeError name message) ->
     snd (run answers (GET env))
     = Fulfilled (error_response (lit "An unexpected error occurred") 500)) /\
  (forall provider r b,
     (forall url init, provider (Fetch url init) = Fulfilled r) ->
     ok r = false -> Web.text r = Fulfilled b ->
     voices_remapped (Some (status r)) (snd (run provider (link (GET env))))) /\
  (forall provider1 provider2 r1 r2 b1 b2,
     (forall url init, provider1 (Fetch url init) = Fulfilled r1) ->
     (forall url init, provider2 (Fetch url init) = Fulfilled r2) ->
     ok r1 = false -> ok r2 = false -> status r1 = status r2 ->
     Web.text r1 = Fulfilled b1 -> Web.text r2 = Fulfilled b2 ->
     snd (run provider1 (link (GET env)))
     = snd (run provider2 (link (GET env)))).
Proof.
  intros Hc. repeat apply conj.
  - intros answers voices Ha. exact (GET_voices _ Hc Ha).
  - intros provider r data items Hp Hok Hj Hv Hitems.
    destruct (map_reduce_voice items Hitems) as (voices & Hm & Hall).
    exists voices. split; [|exact Hall].
    rewrite link_adequate. cbn [snd].
    apply (GET_voices _ Hc).
    destruct Hc as (_ & Hne & _). cbn [resolved].
    rewrite (proj2 (fetchElevenLabsVoices_outcome provider apiKey r Hne Hp)
               data (JArray items) Hok Hj Hv).
    exact Hm.
  - intros answers m sc b Ha. exact (GET_provider_error _ Hc Ha).
  - intros answers name message Ha. exact (GET_unexpected _ Hc Ha).
  - intros provider r b Hp Hok Hb. rewrite link_adequate. cbn [snd].
    exact (GET_provider_error _ Hc (resolved_voices_error Hc Hp Hok Hb)).
  - intros provider1 provider2 r1 r2 b1 b2 Hp1 Hp2 Hok1 Hok2 Hs Hb1 Hb2.
    rewrite !link_adequate. cbn [snd].
    pose proof (resolved_voices_error Hc Hp1 Hok1 Hb1) as H1.
    pose proof (resolved_voices_error Hc Hp2 Hok2 Hb2) as H2.
    rewrite Hs in H1.
    exact (GET_error_ignores_body _ _ Hc H1 H2).
Qed.

Lemma catalog_readable : Forall readable [rachel].
Proof. repeat constructor; discriminate. Qed.

Lemma voices_endpoint_answers_witness :
  (exists voices,
     snd (run (provider_answers (response_of 200 (lit "OK") [] [] catalog))
              (link (GET sample_env)))
     = Fulfilled (voices_response voices) /\
     Forall2 reduced_from [rachel] voices) /\
  voices_remapped (Some 429)
    (snd (run (provider_answers
                 (response_of 429 (lit "Too Many Requests") []
                    (lit "quota exceeded") JNull))
              (link (GET sample_env)))).
Proof.
  pose proof (voices_endpoint_answers sample_env (lit "sk_test_key")
                GenerateVoiceFacts.sample_configured)
    as (_ & Hsucc & _ & _ & Hfail & _).
  split.
  - apply (Hsucc _ (response_of 200 (lit "OK") [] [] catalog) catalog [rachel]);
      try reflexivity.
    exact catalog_readable.
  - apply (Hfail _ (response_of 429 (lit "Too Many Requests") []
                      (lit "quota exceeded") JNull) (lit "quota exceeded"));
      reflexivity.
Defined.

(** A provider status of 404 is answered with 404, not with 500. *)
Lemma voices_other_status_is_not_500 :
  ~ (forall env apiKey (answers : forall e, routeR e) m s b,
       configured env apiKey ->
       answers (Call_fetchElevenLabsVoices apiKey)
       = Rejected (ElevenLabsError m (Some s) b) ->
       s <> 401 -> s <> 429 ->
       exists message,
         snd (run answers (GET env))
         = Fulfilled (error_response message 500)).
Proof.
  intros H.
  assert (Hm := H sample_env (lit "sk_test_key")
              (stubbed (Fulfilled sample_audio)
                 (Rejected (ElevenLabsError (lit "Not Found") (Some 404) None)))
              (lit "Not Found") 404 None
              GenerateVoiceFacts.sample_configured eq_refl
              ltac:(discriminate) ltac:(discriminate)).
  destruct Hm as [message Hm].
  vm_compute in Hm. discriminate Hm.
Qed.

End VoicesFacts.

(* ================================================================== *)
(** * The page *)

Module PageFacts.
Import JS Effects Effects.Notations Web Page PageSpec.
Import JSFacts EffectsFacts.

(** ** The guard of [handleGenerate] *)

Lemma guard_passes (t : js_string) (v : option js_string) :
  can_generate t v ->
  negb (truthy (JString (trim t))) || negb (truthy (nullable v)) = false.
Proof.
  intros (Ht & voiceId & -> & Hv).
  destruct (trim t); [contradiction|].
  destruct voiceId; [contradiction|]. reflexivity.
Qed.

Lemma guard_blocks (t : js_string) (v : option js_string) :
  trim t = [] \/ v = None \/ v = Some [] ->
  negb (truthy (JString (trim t))) || negb (truthy (nullable v)) = true.
Proof.
  intros [ -> | [ -> | -> ] ]; [reflexivity| |]; apply orb_true_r.
Qed.

(** ** Running [handleGenerate] *)

(** Up to its [fetch], the handler sets [isGenerating], clears the error
    and the audio URL, and leaves a well-formed pending request. *)
Lemma exec_handleGenerate (t : js_string) (v : option js_string) (w : World) :
  can_generate t v ->
  exists p,
    exec (handleGenerate t v) w =
    (let w' := set_audioUrl None
                 (set_state (put_error JNull)
                    (set_state (put_isGenerating true) w)) in
     with_inflight (inflight w' ++ [p]) w') /\
    is_generate p = true /\
    (forall r w0, audio_answer r ->
       exec (resume p (Fulfilled r)) w0
       = set_state (put_isGenerating false)
           (set_audioUrl (Some (next_url w0)) (created w0))) /\
    well_formed p.
Proof.
  intros Hg. unfold handleGenerate. rewrite (guard_passes _ _ Hg).
  cbn [setIsGenerating setError setAudioUrl fetch bind try_catch try_finally
       exec perform].
  eexists. split; [reflexivity|]. split; [reflexivity|].
  split.
  { intros r w0 (Hok & (ct & Hct & Hinc) & (bytes & Hb)).
    unfold resume. cbn [p_event p_resume await bind try_catch try_finally].
    rewrite Hok. cbn [negb]. rewrite Hct, Hinc, Hb. reflexivity. }
  unfold well_formed. cbn [is_generate p_event]. 
  change (str_eqb (lit "/api/generate-voice") (lit "/api/generate-voice"))
    with true. cbn iota.
  intros o w0. unfold resume. cbn [p_event p_resume].
  destruct o as [r|e]; cbn [await bind try_catch try_finally].
  2:{ left. eexists. reflexivity. }
  destruct (ok r); cbn [negb].
  - destruct (match headers_get (response_headers r) (lit "Content-Type") with
              | Some ct => includes ct (lit "audio/mpeg")
              | None => false
              end).
    + destruct (blob r) as [b|e]; cbn [await bind try_catch try_finally].
      * right. reflexivity.
      * left. eexists. reflexivity.
    + left. eexists. reflexivity.
  - destruct (json r) as [data|e]; cbn [await bind try_catch try_finally].
    2:{ left. eexists. reflexivity. }
    destruct (get data "error") as [err|e];
      cbn [await bind try_catch try_finally]; left; eexists; reflexivity.
Qed.

(** The pending request [loadVoices] leaves. *)
Lemma exec_loadVoices (w : World) :
  exists p,
    exec loadVoices w = with_inflight (inflight w ++ [p]) w /\
    is_generate p = false /\ well_formed p.
Proof.
  unfold loadVoices.
  cbn [fetch bind try_catch try_finally exec perform].
  eexists. split; [reflexivity|]. split; [reflexivity|].
  unfold well_formed. cbn [is_generate p_event].
  change (str_eqb (lit "/api/voices") (lit "/api/generate-voice")) with false.
  cbn iota.
  intros o w0. unfold resume. cbn [p_event p_resume].
  destruct o as [r|e]; cbn [await bind try_catch try_finally].
  2:{ eexists. right. reflexivity. }
  destruct (json r) as [data|e]; cbn [await bind try_catch try_finally].
  2:{ eexists. right. reflexivity. }
  destruct (get data "success") as [success|e];
    cbn [await bind try_catch try_finally].
  2:{ eexists. right. reflexivity. }
  destruct (get data "voices") as [voices|e];
    cbn [await bind try_catch try_finally].
  2:{ eexists. right. reflexivity. }
  destruct (truthy success && truthy voices).
  - eexists. left. reflexivity.
  - destruct (get data "error") as [err|e];
      cbn [await bind try_catch try_finally]; eexists; right; reflexivity.
Qed.

(** ** Lists of pending requests *)

Lemma filter_remove_nth A (f : A -> bool) (l : list A) (i : nat) (x : A) :
  nth_error l i = Some x ->
  (List.length (filter f (remove_nth i l)) + (if f x then 1 else 0)
   = List.length (filter f l))%nat.
Proof.
  revert i. induction l as [|y l IH]; intros [|i]; simpl; try discriminate.
  - intros [= ->]. destruct (f x); simpl; lia.
  - intros H. specialize (IH i H). destruct (f y); simpl; lia.
Qed.

Lemma Forall_remove_nth A (P : A -> Prop) (l : list A) (i : nat) :
  Forall P l -> Forall P (remove_nth i l).
Proof.
  intros H. revert i. induction H as [|y l Hy Hl IH]; intros [|i]; simpl;
    auto.
Qed.

Lemma Forall_nth_error A (P : A -> Prop) (l : list A) (i : nat) (x : A) :
  Forall P l -> nth_error l i = Some x -> P x.
Proof.
  intros H Hn. apply nth_error_In in Hn.
  rewrite Forall_forall in H. auto.
Qed.

Lemma NoDup_app_disjoint A (l l' : list A) (x : A) :
  NoDup (l ++ l') -> In x l -> In x l' -> False.
Proof.
  induction l as [|y l IH]; cbn; [intros _ []|].
  intros Hn [->|Hx] Hx'; apply NoDup_cons_iff in Hn as [Hy Hn].
  - apply Hy. apply in_or_app. now right.
  - now apply IH.
Qed.

Lemma filter_keeps_none (l : list N) (u : N) :
  ~ In u l -> filter (fun x => negb (x =? u)) l = l.
Proof.
  induction l as [|x l IH]; simpl; [reflexivity|].
  intros H. destruct (x =? u) eqn:E.
  - apply N.eqb_eq in E. subst. exfalso. apply H. now left.
  - simpl. f_equal. apply IH. intros Hin. apply H. now right.
Qed.

(** ** The invariant is kept by each move of the world *)

Lemma invariant_set_state (f : State -> State) (w : World) :
  (forall s, audioUrl (f s) = audioUrl s) ->
  (forall s, isGenerating (f s) = isGenerating s) ->
  invariant w -> invariant (set_state f w).
Proof.
  intros Ha Hg [Hc Hl H1 Hi Hf Hn Hp].
  destruct w as [m st c l rv n infl]. unfold set_state. cbn in *.
  destruct m; [|constructor; assumption].
  constructor; cbn; rewrite ?Ha, ?Hg; auto.
Qed.

Lemma invariant_isGenerating_true (w : World) :
  invariant w -> invariant (set_state (put_isGenerating true) w).
Proof.
  intros [Hc Hl H1 Hi Hf Hn Hp].
  destruct w as [m st c l rv n infl]. unfold set_state. cbn in *.
  destruct m; [|constructor; assumption].
  constructor; cbn; auto. discriminate.
Qed.

Lemma invariant_isGenerating_false (w : World) :
  invariant w -> generating w = O ->
  invariant (set_state (put_isGenerating false) w).
Proof.
  intros [Hc Hl H1 Hi Hf Hn Hp] Hg.
  destruct w as [m st c l rv n infl]. unfold set_state. cbn in *.
  destruct m; [|constructor; assumption].
  constructor; cbn; auto.
Qed.

Lemma generating_set_state (f : State -> State) (w : World) :
  generating (set_state f w) = generating w.
Proof. unfold set_state. now destruct (mounted w). Qed.

Lemma mounted_set_state (f : State -> State) (w : World) :
  mounted (set_state f w) = mounted w.
Proof. unfold set_state. now destruct (mounted w) eqn:E. Qed.

(** [setAudioUrl(null)] on a mounted page releases the URL held, if any. *)
Lemma invariant_clear_audio (w : World) :
  invariant w ->
  invariant (set_audioUrl None w) /\
  generating (set_audioUrl None w) = generating w /\
  mounted (set_audioUrl None w) = mounted w /\
  isGenerating (state (set_audioUrl None w)) = isGenerating (state w) /\
  (mounted w = true -> live (set_audioUrl None w) = []).
Proof.
  intros [Hc Hl H1 Hi Hf Hn Hp].
  destruct w as [m st c l rv n infl]. unfold set_audioUrl. cbn in *.
  destruct m.
  2:{ repeat split; try assumption. discriminate. }
  specialize (Hc eq_refl). specialize (Hl eq_refl). subst c l.
  destruct (audioUrl st) as [u|] eqn:Eu; cbn.
  - rewrite N.eqb_refl. cbn.
    repeat split; cbn; try reflexivity; auto.
    + unfold generating. cbn in *. lia.
    + intros x Hx. apply Hf. cbn in Hx. apply in_app_or in Hx as [Hx|[<-|[]]].
      * now right.
      * now left.
    + cbn in Hn. apply NoDup_cons_iff in Hn as [Hu Hr].
      apply NoDup_app; [assumption|repeat constructor; intros []|].
      intros x Hx [<-|[]]. contradiction.
  - repeat split; cbn; auto; try (rewrite Eu; reflexivity).
Qed.

Lemma invariant_add_generate (w : World) (p : Pending) :
  invariant w -> live w = [] -> generating w = O ->
  (mounted w = true -> isGenerating (state w) = true) ->
  is_generate p = true -> well_formed p ->
  invariant (with_inflight (inflight w ++ [p]) w).
Proof.
  intros [Hc Hl H1 Hi Hf Hn Hp] Hlive Hg Hm Hgen Hwf.
  destruct w as [m st c l rv n infl]. unfold generating in *. cbn in *.
  subst l.
  constructor; cbn; auto.
  - unfold generating. cbn. rewrite filter_app, length_app, Hg. cbn.
    rewrite Hgen. cbn. lia.
  - intros E1 E2. rewrite (Hm E1) in E2. discriminate.
  - apply Forall_app. split; [assumption|]. now constructor.
Qed.

Lemma invariant_add_other (w : World) (p : Pending) :
  invariant w -> is_generate p = false -> well_formed p ->
  invariant (with_inflight (inflight w ++ [p]) w).
Proof.
  intros [Hc Hl H1 Hi Hf Hn Hp] Hgen Hwf.
  destruct w as [m st c l rv n infl]. unfold generating in *. cbn in *.
  assert (E : filter is_generate (infl ++ [p]) = filter is_generate infl).
  { rewrite filter_app. cbn. rewrite Hgen. apply app_nil_r. }
  constructor; cbn; auto; unfold generating; cbn; rewrite ?E; auto.
  apply Forall_app. split; [assumption|]. now constructor.
Qed.

Lemma invariant_remove (w : World) (i : nat) (p : Pending) :
  invariant w -> nth_error (inflight w) i = Some p ->
  invariant (with_inflight (remove_nth i (inflight w)) w) /\
  (is_generate p = true ->
   generating (with_inflight (remove_nth i (inflight w)) w) = O /\
   live w = []).
Proof.
  intros [Hc Hl H1 Hi Hf Hn Hp] Hnth.
  pose proof (filter_remove_nth _ is_generate _ _ _ Hnth) as Hcount.
  destruct w as [m st c l rv n infl]. unfold generating in *. cbn in *.
  split.
  - constructor; cbn; auto; unfold generating; cbn.
    + destruct (is_generate p); lia.
    + intros E1 E2. specialize (Hi E1 E2). destruct (is_generate p); lia.
    + now apply Forall_remove_nth.
  - intros Hgen. rewrite Hgen in Hcount. unfold generating. cbn.
    split; [lia|]. destruct l; [reflexivity|]. cbn in H1. lia.
Qed.

(** A new blob URL stored in [audioUrl]. *)
Lemma invariant_store_audio (w : World) :
  invariant w -> live w = [] -> generating w = O ->
  invariant (set_state (put_isGenerating false)
               (set_audioUrl (Some (next_url w)) (created w))).
Proof.
  intros [Hc Hl H1 Hi Hf Hn Hp] Hlive Hg.
  destruct w as [m st c l rv n infl].
  unfold set_state, set_audioUrl, generating in *. cbn in *. subst l.
  assert (Hfresh : forall u, In u ([n] ++ rv) -> u < n + 1).
  { intros u [<-|Hu]; [lia|]. specialize (Hf u Hu). lia. }
  assert (Hnodup : NoDup ([n] ++ rv)).
  { cbn. constructor; [|assumption]. intros Hin. specialize (Hf n Hin). lia. }
  destruct m; cbn.
  - specialize (Hc eq_refl). specialize (Hl eq_refl).
    destruct (audioUrl st) as [u|] eqn:Eu; [discriminate|]. subst c. cbn.
    constructor; cbn; auto. unfold generating. cbn. rewrite Hg. lia.
  - constructor; cbn; auto; try discriminate.
    unfold generating. cbn. rewrite Hg. lia.
Qed.

Lemma invariant_settled_generate (w w' : World) :
  invariant w -> live w = [] -> generating w = O ->
  settled_generate w w' -> invariant w'.
Proof.
  intros Hinv Hlive Hg [[v ->]| ->].
  - apply invariant_isGenerating_false.
    + now apply invariant_set_state.
    + now rewrite generating_set_state.
  - now apply invariant_store_audio.
Qed.

Lemma invariant_settled_voices (w w' : World) :
  invariant w -> settled_voices w w' -> invariant w'.
Proof.
  intros Hinv [v [ -> | -> ]]; repeat apply invariant_set_state; auto.
Qed.

Lemma invariant_unmount (w : World) :
  invariant w -> mounted w = true ->
  let w' := exec_browser (audioUrl_cleanup (captured w)) w in
  invariant {| mounted := false; state := state w'; captured := captured w';
               live := live w'; revoked := revoked w';
               next_url := next_url w'; inflight := inflight w' |}.
Proof.
  intros [Hc Hl H1 Hi Hf Hn Hp] Hm.
  destruct w as [m st c l rv n infl]. unfold generating in *. cbn in *.
  subst m. specialize (Hc eq_refl). specialize (Hl eq_refl). subst c l.
  destruct (audioUrl st) as [u|]; cbn in *.
  - rewrite N.eqb_refl. cbn.
    constructor; cbn; try discriminate; auto.
    + unfold generating. cbn. lia.
    + intros x Hx. apply Hf. apply in_app_or in Hx as [Hx|[<-|[]]].
      * now right.
      * now left.
    + apply NoDup_cons_iff in Hn as [Hu Hr].
      apply NoDup_app; [assumption|repeat constructor; intros []|].
      intros x Hx [<-|[]]. contradiction.
  - constructor; cbn; try discriminate; auto.
Qed.

Lemma enabled_can_generate (s : State) :
  isGenerateDisabled s = false ->
  can_generate (storyText s) (selectedVoiceId s) /\ isLoadingVoices s = false.
Proof.
  unfold isGenerateDisabled, can_generate. intros H.
  apply orb_false_iff in H as [H Hload].
  apply orb_false_iff in H as [Ht Hv].
  split; [|assumption]. split.
  - intros E. rewrite E in Ht. discriminate.
  - destruct (selectedVoiceId s) as [[|c v]|]; try discriminate.
    exists (c :: v). split; [reflexivity|discriminate].
Qed.

Lemma invariant_mount : invariant mount.
Proof.
  unfold mount.
  match goal with |- invariant (exec loadVoices ?w0) =>
    destruct (exec_loadVoices w0) as (p & -> & Hg & Hwf);
    apply invariant_add_other; auto
  end.
  constructor; cbn; auto; try discriminate; try constructor.
  intros u [].
Qed.

(** Every step keeps the invariant. *)
Lemma invariant_step (a : action) (w w' : World) :
  invariant w -> step a w = Some w' -> invariant w'.
Proof.
  intros Hinv. destruct a as [value|voiceId| | |i o|]; cbn [step].
  - destruct (mounted w); [|discriminate]. intros [= <-].
    now apply invariant_set_state.
  - destruct (mounted w); [|discriminate]. intros [= <-].
    now apply invariant_set_state.
  - destruct (mounted w) eqn:Hm; [|discriminate]. cbn [andb].
    destruct (isGenerateDisabled (state w)) eqn:Hd; [discriminate|].
    destruct (isGenerating (state w)) eqn:Hg; [discriminate|].
    cbn [orb negb]. intros [= <-].
    destruct (enabled_can_generate _ Hd) as [Hcan _].
    destruct (exec_handleGenerate _ _ w Hcan) as (p & -> & Hgen & _ & Hwf).
    cbn zeta.
    pose proof (invariant_isGenerating_true _ Hinv) as H1.
    pose proof (invariant_set_state (put_error JNull) _
                  (fun _ => eq_refl) (fun _ => eq_refl) H1) as H2.
    destruct (invariant_clear_audio _ H2) as (H3 & Hcount & Hmount & Hgenf & Hlive).
    rewrite !generating_set_state in Hcount.
    rewrite !mounted_set_state in Hmount, Hlive.
    apply invariant_add_generate; auto.
    + rewrite Hcount. now apply (inv_idle _ Hinv).
    + intros _. rewrite Hgenf. unfold set_state. rewrite Hm. cbn.
      rewrite Hm. reflexivity.
  - destruct (mounted w); [|discriminate]. intros [= <-].
    cbn [setError exec perform]. now apply invariant_set_state.
  - destruct (nth_error (inflight w) i) as [p|] eqn:Hnth; [|discriminate].
    intros [= <-].
    destruct (invariant_remove _ _ _ Hinv Hnth) as [Hrem Hgen].
    pose proof (Forall_nth_error _ _ _ _ _ (inv_pending _ Hinv) Hnth) as Hwf.
    unfold well_formed in Hwf.
    destruct (is_generate p).
    + destruct (Hgen eq_refl) as [H0 Hlive].
      eapply invariant_settled_generate; [exact Hrem| |exact H0|apply Hwf].
      exact Hlive.
    + eapply invariant_settled_voices; [exact Hrem|apply Hwf].
  - destruct (mounted w) eqn:Hm; [|discriminate]. intros [= <-].
    now apply invariant_unmount.
Qed.

Lemma invariant_steps (l : list action) (w w' : World) :
  invariant w -> steps l w = Some w' -> invariant w'.
Proof.
  revert w. induction l as [|a l IH]; intros w Hinv; cbn [steps].
  - now intros [= <-].
  - destruct (step a w) as [w1|] eqn:E; [|discriminate].
    apply IH. exact (invariant_step _ _ _ Hinv E).
Qed.

Lemma reachable_invariant (w : World) : reachable w -> invariant w.
Proof.
  intros [l Hl]. exact (invariant_steps _ _ _ invariant_mount Hl).
Qed.
Arguments reachable_invariant {w} _.

(** ** Generations that succeed *)

(** One click answered with audio: the URL held before, if any, is
    released, and one new URL is created, stored and live. *)
Lemma one_generation (w : World) (r : Response) :
  invariant w -> ready w -> audio_answer r ->
  exists w',
    steps [ClickGenerate; Settle 0 (Fulfilled r)] w = Some w' /\
    ready w' /\
    audioUrl (state w') = Some (next_url w) /\
    live w' = [next_url w] /\
    revoked w' = revoked w ++ option_list (audioUrl (state w)) /\
    next_url w' = next_url w + 1.
Proof.
  intros Hinv (Hm & Hin & Hd & Hg) Ha.
  pose proof (inv_captured _ Hinv Hm) as Hc.
  pose proof (inv_live _ Hinv Hm) as Hl.
  destruct (enabled_can_generate _ Hd) as [Hcan Hload].
  cbn [steps step]. rewrite Hm, Hd, Hg. cbn [andb orb negb].
  destruct (exec_handleGenerate _ _ w Hcan) as (p & -> & Hgen & Haudio & _).
  cbn zeta.
  destruct w as [m st c l rv n infl]. cbn in Hm, Hin, Hd, Hg, Hc, Hl, Hcan.
  subst m infl c l.
  destruct st as [t vs sel a lv g e]. cbn in Hd, Hg, Hload, Hcan. subst g lv.
  unfold isGenerateDisabled, ready. cbn [storyText selectedVoiceId] in *.
  destruct a as [u|].
  - cbn. rewrite N.eqb_refl. cbn. rewrite Haudio by assumption.
    cbn. eexists. split; [reflexivity|]. cbn.
    repeat split; try reflexivity. exact Hd.
  - cbn. rewrite Haudio by assumption.
    cbn. eexists. split; [reflexivity|]. cbn.
    repeat split; try reflexivity.
    + exact Hd.
    + now rewrite app_nil_r.
Qed.
Arguments one_generation {w r} _ _ _.

Lemma steps_app (l1 l2 : list action) (w w1 : World) :
  steps l1 w = Some w1 -> steps (l1 ++ l2) w = steps l2 w1.
Proof.
  revert w. induction l1 as [|a l1 IH]; intros w; cbn [steps app].
  - now intros [= ->].
  - destruct (step a w); [apply IH|discriminate].
Qed.

(** After each further generation one more URL has been released. *)
Lemma many_generations (rs : list Response) (w : World) :
  invariant w -> ready w -> Forall audio_answer rs -> rs <> [] ->
  exists w',
    steps (generations rs) w = Some w' /\
    ready w' /\ invariant w' /\
    List.length (live w') = 1%nat /\
    (List.length (revoked w')
     = List.length (revoked w)
       + List.length (option_list (audioUrl (state w)))
       + List.length rs - 1)%nat.
Proof.
  intros Hinv Hready Hall. revert w Hinv Hready.
  induction Hall as [|r rs Hr Hrs IH]; intros w Hinv Hready Hne;
    [contradiction|].
  destruct (one_generation Hinv Hready Hr)
    as (w1 & Hsteps & Hready1 & Haudio1 & Hlive1 & Hrev1 & _).
  pose proof (invariant_steps _ _ _ Hinv Hsteps) as Hinv1.
  change (generations (r :: rs))
    with ([ClickGenerate; Settle 0 (Fulfilled r)] ++ generations rs).
  rewrite (steps_app _ (generations rs) _ _ Hsteps).
  destruct rs as [|r' rs'].
  - exists w1. cbn [generations flat_map steps].
    split; [reflexivity|]. split; [assumption|]. split; [assumption|].
    split.
    + now rewrite Hlive1.
    + rewrite Hrev1, length_app. cbn. lia.
  - destruct (IH w1 Hinv1 Hready1 ltac:(discriminate))
      as (w' & Hsteps' & Hready' & Hinv' & Hlive' & Hrev').
    exists w'.
    split; [assumption|]. split; [assumption|]. split; [assumption|].
    split; [assumption|].
    rewrite Hrev', Hrev1, Haudio1, length_app. cbn. lia.
Qed.
Arguments many_generations {rs w} _ _ _ _.

(** Teardown releases the URL held, if any. *)
Lemma unmount_releases (w : World) :
  invariant w -> mounted w = true ->
  exists w',
    step Unmount w = Some w' /\ mounted w' = false /\ live w' = [] /\
    revoked w' = revoked w ++ option_list (audioUrl (state w)).
Proof.
  intros Hinv Hm.
  pose proof (inv_captured _ Hinv Hm) as Hc.
  pose proof (inv_live _ Hinv Hm) as Hl.
  cbn [step]. rewrite Hm. eexists. split; [reflexivity|].
  destruct w as [m st c l rv n infl]. cbn in *. subst c l.
  destruct (audioUrl st) as [u|]; cbn.
  - rewrite N.eqb_refl. repeat split.
  - repeat split. now rewrite app_nil_r.
Qed.
Arguments unmount_releases {w} _ _.

Lemma settled_generate_clears (w w' : World) :
  settled_generate w w' -> mounted w = true ->
  isGenerating (state w') = false /\ inflight w' = inflight w.
Proof.
  intros Hs Hm. destruct w as [m st c l rv n infl]. cbn in Hm. subst m.
  destruct Hs as [[v ->]| ->].
  - split; reflexivity.
  - unfold set_audioUrl, created. cbn.
    destruct (audioUrl st) as [y|]; [destruct (n =? y)|];
      try (split; reflexivity); destruct c; split; reflexivity.
Qed.
Arguments settled_generate_clears {w w'} _ _.

(** ** The theorems *)

(** C5. In every state the page reaches, at most one blob URL is live,
    and while the page is mounted it is the one held in [audioUrl]; no
    URL is released twice, and none that is still live or was never
    created.  A generation answered with audio releases the URL held
    before, if any, and leaves exactly the new one live; teardown
    releases the URL held, if any.  So N generations (N > 0) answered
    with audio, started with no audio held, add N-1 releases and leave
    one URL live, and teardown then brings the releases to N and leaves
    none live.  A cleanup that holds no URL releases nothing, and
    revoking a URL that is not in the store leaves the store as it is. *)
Theorem one_live_audio_url (w : World) :
  reachable w ->
  ((List.length (live w) <= 1)%nat /\
   (mounted w = true -> live w = option_list (audioUrl (state w))) /\
   NoDup (revoked w) /\
   (forall u, In u (revoked w) -> ~ In u (live w) /\ u < next_url w)) /\
  (forall r, ready w -> audio_answer r ->
     exists w',
       steps [ClickGenerate; Settle 0 (Fulfilled r)] w = Some w' /\
       revoked w' = revoked w ++ option_list (audioUrl (state w)) /\
       live w' = [next_url w] /\
       audioUrl (state w') = Some (next_url w)) /\
  (mounted w = true ->
     exists w',
       step Unmount w = Some w' /\
       revoked w' = revoked w ++ option_list (audioUrl (state w)) /\
       live w' = []) /\
  (forall rs, ready w -> audioUrl (state w) = None ->
     Forall audio_answer rs -> rs <> [] ->
     exists w' w'',
       steps (generations rs) w = Some w' /\
       List.length (live w') = 1%nat /\
       (List.length (revoked w')
        = List.length (revoked w) + List.length rs - 1)%nat /\
       step Unmount w' = Some w'' /\
       live w'' = [] /\
       (List.length (revoked w'')
        = List.length (revoked w) + List.length rs)%nat) /\
  (forall w0, exec_browser (audioUrl_cleanup None) w0 = w0) /\
  (forall u w0, ~ In u (live w0) ->
     live (fst (perform_browser (RevokeObjectURL u) w0)) = live w0).
Proof.
  intros Hreach. pose proof (reachable_invariant Hreach) as Hinv.
  repeat apply conj.
  - pose proof (inv_one _ Hinv). lia.
  - exact (inv_live _ Hinv).
  - exact (NoDup_app_remove_l _ _ (inv_nodup _ Hinv)).
  - intros u Hu. split.
    + intros Hl.
      exact (NoDup_app_disjoint _ _ _ _ (inv_nodup _ Hinv) Hl Hu).
    + apply (inv_fresh _ Hinv). apply in_or_app. now right.
  - intros r Hready Ha.
    destruct (one_generation Hinv Hready Ha)
      as (w' & Hs & _ & Haudio & Hlive & Hrev & _).
    exists w'. repeat split; assumption.
  - intros Hm.
    destruct (unmount_releases Hinv Hm) as (w' & Hs & _ & Hlive & Hrev).
    exists w'. repeat split; assumption.
  - intros rs Hready Hnone Hall Hne.
    destruct (many_generations Hinv Hready Hall Hne)
      as (w' & Hs & Hready' & Hinv' & Hlive' & Hrev').
    destruct (unmount_releases Hinv' (proj1 Hready'))
      as (w'' & Hu & _ & Hlive'' & Hrev'').
    rewrite Hnone in Hrev'. cbn in Hrev'.
    assert (Hheld : List.length (option_list (audioUrl (state w'))) = 1%nat).
    { rewrite <- (inv_live _ Hinv' (proj1 Hready')). exact Hlive'. }
    assert (Hpos : (0 < List.length rs)%nat)
      by (destruct rs; [contradiction|cbn; lia]).
    exists w', w''. repeat split; try assumption.
    + lia.
    + rewrite Hrev'', length_app, Hheld. lia.
  - reflexivity.
  - intros u w0 Hu. cbn. now apply filter_keeps_none.
Qed.

Lemma session_reachable : reachable session.
Proof. exists session_start. reflexivity. Qed.

Lemma session_ready : ready session.
Proof. repeat split. Qed.

Lemma three_answers_audio : Forall audio_answer three_answers.
Proof.
  repeat constructor; try (eexists; split; reflexivity);
    eexists; reflexivity.
Qed.

Lemma one_live_audio_url_witness :
  exists w' w'',
    steps (generations three_answers) session = Some w' /\
    List.length (live w') = 1%nat /\
    List.length (revoked w') = 2%nat /\
    step Unmount w' = Some w'' /\
    live w'' = [] /\
    List.length (revoked w'') = 3%nat.
Proof.
  apply (proj1 (proj2 (proj2 (proj2
           (one_live_audio_url session session_reachable)))) three_answers).
  - exact session_ready.
  - reflexivity.
  - exact three_answers_audio.
  - discriminate.
Defined.

(** C6. Once the guard is passed, every run of [handleGenerate] ends
    normally and the last thing it does is [setIsGenerating(false)],
    whatever the request settles to and whatever the response holds; on
    the mounted page [isGenerating] is true while the request is pending
    and false once the handler has resumed, with no request left
    pending by it. *)
Theorem isGenerating_is_cleared (t : js_string) (v : option js_string) :
  can_generate t v ->
  (forall env : (forall e, pageR e),
     snd (run env (handleGenerate t v)) = Fulfilled tt /\
     last (fst (run env (handleGenerate t v))) (SetIsGenerating true)
     = SetIsGenerating false) /\
  (forall w, mounted w = true ->
     exists p,
       inflight (exec (handleGenerate t v) w) = inflight w ++ [p] /\
       isGenerating (state (exec (handleGenerate t v) w)) = true /\
       forall o w0, mounted w0 = true ->
         isGenerating (state (exec (resume p o) w0)) = false /\
         inflight (exec (resume p o) w0) = inflight w0).
Proof.
  intros Hg. split.
  - intros env. unfold handleGenerate. rewrite (guard_passes _ _ Hg).
    cbn [setIsGenerating setError setAudioUrl fetch createObjectURL
         bind try_catch try_finally].
    rewrite !run_Vis. cbn [fst snd].
    match goal with |- context [env (PageFetch ?u ?i)] =>
      destruct (env (PageFetch u i)) as [r|e]
    end; cbn [await bind try_catch try_finally].
    2:{ split; reflexivity. }
    destruct (ok r); cbn [negb].
    + destruct (match headers_get (response_headers r) (lit "Content-Type")
                with
                | Some ct => includes ct (lit "audio/mpeg")
                | None => false
                end).
      * destruct (blob r) as [b|e]; cbn [await bind try_catch try_finally];
          split; reflexivity.
      * split; reflexivity.
    + destruct (json r) as [data|e]; cbn [await bind try_catch try_finally].
      2:{ split; reflexivity. }
      destruct (get data "error") as [err|e];
        cbn [await bind try_catch try_finally]; split; reflexivity.
  - intros w Hm.
    destruct (exec_handleGenerate _ _ w Hg) as (p & -> & Hgen & _ & Hwf).
    exists p. cbn zeta.
    unfold well_formed in Hwf. rewrite Hgen in Hwf.
    split; [|split].
    + destruct w as [m st c l rv n infl]. cbn in Hm. subst m.
      unfold set_audioUrl. cbn.
      destruct (audioUrl st); [destruct c|]; reflexivity.
    + destruct w as [m st c l rv n infl]. cbn in Hm. subst m.
      unfold set_audioUrl. cbn.
      destruct (audioUrl st); [destruct c|]; reflexivity.
    + intros o w0 Hm0. exact (settled_generate_clears (Hwf o w0) Hm0).
Qed.

Lemma story_can_generate :
  can_generate (lit "Once upon a time") (Some (lit "v1")).
Proof.
  split; [vm_compute; discriminate|].
  eexists. split; [reflexivity|discriminate].
Qed.

Lemma isGenerating_is_cleared_witness :
  (snd (run network_down
          (handleGenerate (lit "Once upon a time") (Some (lit "v1"))))
   = Fulfilled tt /\
   last (fst (run network_down
                (handleGenerate (lit "Once upon a time") (Some (lit "v1")))))
        (SetIsGenerating true)
   = SetIsGenerating false) /\
  exists p,
    inflight (exec (handleGenerate (lit "Once upon a time") (Some (lit "v1")))
                session)
    = inflight session ++ [p] /\
    isGenerating
      (state (exec (handleGenerate (lit "Once upon a time") (Some (lit "v1")))
                session))
    = true /\
    forall o w0, mounted w0 = true ->
      isGenerating (state (exec (resume p o) w0)) = false /\
      inflight (exec (resume p o) w0) = inflight w0.
Proof.
  destruct (isGenerating_is_cleared (lit "Once upon a time") (Some (lit "v1"))
              story_can_generate) as [Hrun Hworld].
  split.
  - exact (Hrun network_down).
  - apply (Hworld session). reflexivity.
Defined.

(** C7. When [storyText] is empty or blank, or no voice is selected,
    [handleGenerate] returns at once: it calls no state setter, sends no
    request and throws nothing, so the page is left as it was. *)
Theorem guarded_generate_does_nothing (w : World) :
  trim (storyText (state w)) = [] \/ selectedVoiceId (state w) = None ->
  handleGenerate (storyText (state w)) (selectedVoiceId (state w)) = Ret tt /\
  exec (handleGenerate (storyText (state w)) (selectedVoiceId (state w))) w = w /\
  forall env : (forall e, pageR e),
    run env (handleGenerate (storyText (state w)) (selectedVoiceId (state w)))
    = ([], Fulfilled tt).
Proof.
  intros H.
  assert (E : handleGenerate (storyText (state w)) (selectedVoiceId (state w))
              = Ret tt).
  { unfold handleGenerate. rewrite guard_blocks; [reflexivity|].
    destruct H as [H|H]; [now left|right; now left]. }
  rewrite E. repeat split.
Qed.

Lemma guarded_generate_does_nothing_witness :
  handleGenerate (storyText (state mount)) (selectedVoiceId (state mount))
  = Ret tt /\
  exec (handleGenerate (storyText (state mount))
          (selectedVoiceId (state mount))) mount = mount /\
  forall env : (forall e, pageR e),
    run env (handleGenerate (storyText (state mount))
               (selectedVoiceId (state mount)))
    = ([], Fulfilled tt).
Proof.
  apply (guarded_generate_does_nothing mount). left. reflexivity.
Defined.

End PageFacts.

(* ================================================================== *)
(** * Further properties of the provider client and the endpoints *)

Module ServerFacts.
Import JS Effects Effects.Notations Web Next GenerateVoice Voices Spec.
Import ServerSpec.
Import JSFacts EffectsFacts ElevenlabsFacts NextFacts.

Implicit Type answers : forall e : routeE, routeR e.
Implicit Type provider : forall e : nodeE, nodeR e.

Lemma config_check_fails (env : ProcessEnv) :
  unconfigured env ->
  negb (truthy (env_value (ELEVENLABS_API_KEY env)))
  || strict_eq_lit (env_value (ELEVENLABS_API_KEY env)) "your_key_here" = true.
Proof. intros [ -> | [ -> | -> ] ]; reflexivity. Qed.

(** Both handlers answer the configuration error, after one log line and
    without calling the provider client, when the credential is absent,
    empty or the placeholder. *)
Theorem unconfigured_endpoints_answer_500 (MAX_TEXT_LENGTH : N)
    (toLocaleString : N -> js_string) (env : ProcessEnv) (rq : NextRequest)
    answers :
  unconfigured env ->
  run answers (GET env)
  = ([Runtime (ConsoleError
        [LogString (lit "[/api/voices] ELEVENLABS_API_KEY not configured")])],
     Fulfilled config_error) /\
  run answers (POST MAX_TEXT_LENGTH toLocaleString env rq)
  = ([Runtime (ConsoleError
        [LogString
           (lit "[/api/generate-voice] ELEVENLABS_API_KEY not configured")])],
     Fulfilled config_error) /\
  (forall provider,
     fetches (fst (run provider (link (GET env)))) = [] /\
     fetches (fst (run provider
                     (link (POST MAX_TEXT_LENGTH toLocaleString env rq)))) = []).
Proof.
  intros H. pose proof (config_check_fails env H) as Hg.
  unfold GET, GenerateVoice.POST. cbv zeta. rewrite Hg.
  repeat split.
Qed.

Lemma unconfigured_endpoints_answer_500_witness :
  run (stubbed (Fulfilled sample_audio) (Fulfilled [rachel]))
      (GET empty_key_env)
  = ([Runtime (ConsoleError
        [LogString (lit "[/api/voices] ELEVENLABS_API_KEY not configured")])],
     Fulfilled config_error) /\
  run (stubbed (Fulfilled sample_audio) (Fulfilled [rachel]))
      (POST 100000 toLocaleString_en_US empty_key_env story_request)
  = ([Runtime (ConsoleError
        [LogString
           (lit "[/api/generate-voice] ELEVENLABS_API_KEY not configured")])],
     Fulfilled config_error).
Proof.
  destruct (unconfigured_endpoints_answer_500 100000 toLocaleString_en_US
              empty_key_env story_request
              (stubbed (Fulfilled sample_audio) (Fulfilled [rachel]))
              (or_intror (or_introl eq_refl))) as (Hg & Hp & _).
  split; assumption.
Defined.

(** ** The provider client, path by path *)

Lemma speech_message_table (r : Response) :
  speech_error_message r
    (if status r =? 401 then lit "Invalid API key"
     else if status r =? 422 then
       lit "Invalid request: check text length and voice ID"
     else if status r =? 429 then
       lit "Rate limit exceeded: please try again later"
     else lit "Failed to generate speech: " ++ statusText r).
Proof.
  repeat split.
  - intros ->. reflexivity.
  - intros ->. reflexivity.
  - intros ->. reflexivity.
  - intros H1 H2 H3. apply N.eqb_neq in H1, H2, H3.
    now rewrite H1, H2, H3.
Qed.

(** [generateSpeech], its local checks passed: the one request it sends
    and how it completes for each answer. *)
Lemma generateSpeech_completion provider (apiKey text voiceId : js_string) :
  apiKey <> [] -> trim text <> [] -> voiceId <> [] ->
  exists init,
    fst (run provider (Elevenlabs.generateSpeech apiKey text voiceId))
    = [Fetch (Elevenlabs.ELEVENLABS_API_BASE ++ lit "/text-to-speech/"
              ++ voiceId) init] /\
    method init = lit "POST" /\
    headers_get (headers init) (lit "xi-api-key") = Some apiKey /\
    without_header (lit "xi-api-key") (headers init)
    = [(lit "Accept", lit "audio/mpeg");
       (lit "Content-Type", lit "application/json")] /\
    body init
    = Some (obj [("text", JString text);
                 ("model_id", js_str "eleven_monolingual_v1");
                 ("voice_settings",
                  obj [("stability", JNumber 0.5%float);
                       ("similarity_boost", JNumber 0.75%float)])]) /\
    match provider (Fetch (Elevenlabs.ELEVENLABS_API_BASE
                           ++ lit "/text-to-speech/" ++ voiceId) init) with
    | Rejected e =>
        snd (run provider (Elevenlabs.generateSpeech apiKey text voiceId))
        = Rejected e
    | Fulfilled r =>
        if ok r then
          snd (run provider (Elevenlabs.generateSpeech apiKey text voiceId))
          = arrayBuffer r
        else
          match Web.text r with
          | Fulfilled b =>
              exists message,
                speech_error_message r message /\
                snd (run provider
                       (Elevenlabs.generateSpeech apiKey text voiceId))
                = Rejected (ElevenLabsError message (Some (status r)) (Some b))
          | Rejected e =>
              snd (run provider
                     (Elevenlabs.generateSpeech apiKey text voiceId))
              = Rejected e
          end
    end.
Proof.
  intros Hk Ht Hv. unfold Elevenlabs.generateSpeech.
  rewrite (nonempty_truthy _ Hk), (speech_text_check_passes _ Ht),
          (nonempty_truthy _ Hv).
  unfold Elevenlabs.fetch. cbn [bind]. rewrite run_Vis. cbn [fst snd].
  eexists. split.
  { apply f_equal2; [reflexivity|].
    match goal with |- context [provider ?e] =>
      destruct (provider e) as [r|e0]
    end; cbn [await bind]; [|reflexivity].
    destruct (ok r); cbn [negb].
    - now rewrite run_await.
    - destruct (Web.text r) as [b|e0]; reflexivity. }
  split; [reflexivity|]. split; [reflexivity|]. split; [reflexivity|].
  split; [reflexivity|].
  match goal with |- context [provider ?e] =>
    destruct (provider e) as [r|e0]
  end; cbn [await bind]; [|reflexivity].
  destruct (ok r); cbn [negb].
  - now rewrite run_await.
  - destruct (Web.text r) as [b|e0]; cbn [await bind]; [|reflexivity].
    eexists. split; [apply speech_message_table|reflexivity].
Qed.

(** [generateSpeech] checks its arguments before it sends anything: an
    empty key, then a text that is empty once trimmed, then an empty
    voice id make it throw an [ElevenLabsError] without status code, and
    no request is sent. *)
Theorem generateSpeech_checks_locally (apiKey text voiceId : js_string) :
  (apiKey = [] ->
   Elevenlabs.generateSpeech apiKey text voiceId
   = Throw (ElevenLabsError (lit "API key is required") None None)) /\
  (apiKey <> [] -> trim text = [] ->
   Elevenlabs.generateSpeech apiKey text voiceId
   = Throw (ElevenLabsError (lit "Text is required and cannot be empty")
              None None)) /\
  (apiKey <> [] -> trim text <> [] -> voiceId = [] ->
   Elevenlabs.generateSpeech apiKey text voiceId
   = Throw (ElevenLabsError (lit "Voice ID is required") None None)).
Proof.
  unfold Elevenlabs.generateSpeech. repeat split.
  - intros ->. reflexivity.
  - intros Hk Ht. rewrite (nonempty_truthy _ Hk), Ht.
    cbn [str_length List.length N.of_nat N.eqb]. now rewrite orb_true_r.
  - intros Hk Ht ->.
    now rewrite (nonempty_truthy _ Hk), (speech_text_check_passes _ Ht).
Qed.

(** For a failure response whose body can be read, [generateSpeech]
    throws an [ElevenLabsError] that carries the provider's status code
    and the raw body, with the message "Invalid API key" for 401,
    "Invalid request: check text length and voice ID" for 422, "Rate
    limit exceeded: please try again later" for 429, and "Failed to
    generate speech: " followed by the status text otherwise. *)
Theorem speech_failure_keeps_status_and_body provider
    (apiKey text voiceId : js_string) (r : Response) (b : js_string) :
  apiKey <> [] -> trim text <> [] -> voiceId <> [] ->
  (forall url init, provider (Fetch url init) = Fulfilled r) ->
  ok r = false -> Web.text r = Fulfilled b ->
  exists message,
    speech_error_message r message /\
    snd (run provider (Elevenlabs.generateSpeech apiKey text voiceId))
    = Rejected (ElevenLabsError message (Some (status r)) (Some b)).
Proof.
  intros Hk Ht Hv Hp Hok Hb.
  destruct (generateSpeech_completion provider _ _ _ Hk Ht Hv)
    as (init & Hfst & _ & _ & _ & _ & Hsnd).
  rewrite Hp, Hok, Hb in Hsnd. destruct Hsnd as (message & Hm & Hs).
  exists message. now split.
Qed.

(** Whatever the provider answers, [generateSpeech] sends exactly one
    request: a POST to the text-to-speech path of the voice, with the key
    in the [xi-api-key] header and nowhere else, and a JSON body holding
    the text as given, the model id and the two voice settings. *)
Theorem one_speech_request provider (apiKey text voiceId : js_string) :
  apiKey <> [] -> trim text <> [] -> voiceId <> [] ->
  exists init,
    fst (run provider (Elevenlabs.generateSpeech apiKey text voiceId))
    = [Fetch (Elevenlabs.ELEVENLABS_API_BASE ++ lit "/text-to-speech/"
              ++ voiceId) init] /\
    method init = lit "POST" /\
    headers_get (headers init) (lit "xi-api-key") = Some apiKey /\
    without_header (lit "xi-api-key") (headers init)
    = [(lit "Accept", lit "audio/mpeg");
       (lit "Content-Type", lit "application/json")] /\
    body init
    = Some (obj [("text", JString text);
                 ("model_id", js_str "eleven_monolingual_v1");
                 ("voice_settings",
                  obj [("stability", JNumber 0.5%float);
                       ("similarity_boost", JNumber 0.75%float)])]).
Proof.
  intros Hk Ht Hv.
  destruct (generateSpeech_completion provider _ _ _ Hk Ht Hv)
    as (init & H1 & H2 & H3 & H4 & H5 & _).
  exists init. repeat split; assumption.
Qed.

(** ** The generate endpoint *)

Ltac enter_valid_POST Hc Hv :=
  let body := fresh "body" in
  let Hkey := fresh "Hkey" in
  let Hne := fresh "Hne" in
  let Hph := fresh "Hph" in
  let Hj := fresh "Hj" in
  let Ht := fresh "Ht" in
  let Hvo := fresh "Hvo" in
  let Htrim := fresh "Htrim" in
  let Hlen := fresh "Hlen" in
  let Hvoice := fresh "Hvoice" in
  destruct Hc as (Hkey & Hne & Hph);
  destruct Hv as ((body & Hj & Ht & Hvo) & Htrim & Hlen & Hvoice);
  unfold GenerateVoice.POST; rewrite Hkey; cbn [env_value];
  rewrite (config_check_passes _ Hne Hph), Hj, Ht, Hvo;
  cbn [await bind];
  rewrite (GenerateVoiceFacts.text_check_passes _ Htrim); cbn [as_string];
  rewrite (GenerateVoiceFacts.blank_check_passes _ Htrim);
  apply N.ltb_ge in Hlen; rewrite Hlen;
  rewrite (GenerateVoiceFacts.voice_check_passes _ Hvoice);
  cbn [console_log generateSpeech bind try_catch];
  rewrite !run_Vis; cbn [snd].

Section Generate.
Variable MAX_TEXT_LENGTH : N.
Variable toLocaleString : N -> js_string.
Local Notation POST := (POST MAX_TEXT_LENGTH toLocaleString).
Local Notation valid_request := (valid_request MAX_TEXT_LENGTH).

Lemma POST_unexpected env apiKey rq text voice_id answers name message :
  configured env apiKey -> valid_request rq text voice_id ->
  answers (Call_generateSpeech apiKey (trim text) voice_id)
  = Rejected (NativeError name message) ->
  snd (run answers (POST env rq))
  = Fulfilled
      (error_response
         (lit "An unexpected error occurred while generating speech") 500).
Proof.
  intros Hc Hv Ha. enter_valid_POST Hc Hv. now rewrite Ha.
Qed.

Lemma POST_error_without_status env apiKey rq text voice_id answers m sc b :
  configured env apiKey -> valid_request rq text voice_id ->
  answers (Call_generateSpeech apiKey (trim text) voice_id)
  = Rejected (ElevenLabsError m sc b) ->
  sc = None \/ sc = Some 0 ->
  snd (run answers (POST env rq))
  = Fulfilled (error_response (lit "Failed to generate speech") 500).
Proof.
  intros Hc Hv Ha Hsc. enter_valid_POST Hc Hv. rewrite Ha.
  destruct Hsc as [ -> | -> ]; reflexivity.
Qed.

(** What the lib call behind a valid request settles to. *)
Lemma resolved_speech_completion env apiKey rq text voice_id provider :
  configured env apiKey -> valid_request rq text voice_id ->
  exists url init,
    match provider (Fetch url init) with
    | Rejected e =>
        resolved provider (Call_generateSpeech apiKey (trim text) voice_id)
        = Rejected e
    | Fulfilled r =>
        if ok r then
          resolved provider (Call_generateSpeech apiKey (trim text) voice_id)
          = arrayBuffer r
        else
          match Web.text r with
          | Fulfilled b =>
              exists message,
                resolved provider
                  (Call_generateSpeech apiKey (trim text) voice_id)
                = Rejected (ElevenLabsError message (Some (status r)) (Some b))
          | Rejected e =>
              resolved provider
                (Call_generateSpeech apiKey (trim text) voice_id)
              = Rejected e
          end
    end.
Proof.
  intros (_ & Hne & _) (_ & Htrim & _ & Hvoice).
  assert (Htt : trim (trim text) <> []) by now rewrite trim_idempotent.
  destruct (generateSpeech_completion provider _ _ _ Hne Htt Hvoice)
    as (init & _ & _ & _ & _ & _ & Hsnd).
  exists (Elevenlabs.ELEVENLABS_API_BASE ++ lit "/text-to-speech/" ++ voice_id),
         init.
  cbn [resolved].
  destruct (provider (Fetch _ init)) as [r|e]; [|exact Hsnd].
  destruct (ok r); [exact Hsnd|].
  destruct (Web.text r) as [b|e]; [|exact Hsnd].
  destruct Hsnd as (message & _ & Hs). now exists message.
Qed.

(** A failure of a valid request that is not a provider error with a
    status code is answered with 500 and a fixed message: "An unexpected
    error occurred while generating speech" when the call fails with
    anything but an [ElevenLabsError] (the provider cannot be reached, or
    its response cannot be read), "Failed to generate speech" for an
    [ElevenLabsError] without status code or with status code 0. *)
Theorem unexpected_failures_answer_500 env apiKey rq text voice_id :
  configured env apiKey -> valid_request rq text voice_id ->
  (forall answers name message,
     answers (Call_generateSpeech apiKey (trim text) voice_id)
     = Rejected (NativeError name message) ->
     snd (run answers (POST env rq))
     = Fulfilled
         (error_response
            (lit "An unexpected error occurred while generating speech")
            500)) /\
  (forall answers m sc b,
     answers (Call_generateSpeech apiKey (trim text) voice_id)
     = Rejected (ElevenLabsError m sc b) ->
     sc = None \/ sc = Some 0 ->
     snd (run answers (POST env rq))
     = Fulfilled (error_response (lit "Failed to generate speech") 500)) /\
  (forall provider name message,
     (forall url init,
        provider (Fetch url init) = Rejected (NativeError name message)) ->
     snd (run provider (link (POST env rq)))
     = Fulfilled
         (error_response
            (lit "An unexpected error occurred while generating speech")
            500)) /\
  (forall provider r name message,
     (forall url init, provider (Fetch url init) = Fulfilled r) ->
     (ok r = false /\ Web.text r = Rejected (NativeError name message)) \/
     (ok r = true /\ arrayBuffer r = Rejected (NativeError name message)) ->
     snd (run provider (link (POST env rq)))
     = Fulfilled
         (error_response
            (lit "An unexpected error occurred while generating speech")
            500)).
Proof.
  intros Hc Hv. repeat apply conj.
  - intros answers name message Ha.
    exact (POST_unexpected _ _ _ _ _ answers _ _ Hc Hv Ha).
  - intros answers m sc b Ha Hsc.
    exact (POST_error_without_status _ _ _ _ _ answers _ _ _ Hc Hv Ha Hsc).
  - intros provider name message Hp. rewrite link_adequate. cbn [snd].
    destruct (resolved_speech_completion _ _ _ _ _ provider Hc Hv)
      as (url & init & H).
    rewrite Hp in H.
    exact (POST_unexpected _ _ _ _ _ (resolved provider) _ _ Hc Hv H).
  - intros provider r name message Hp Hr. rewrite link_adequate. cbn [snd].
    destruct (resolved_speech_completion _ _ _ _ _ provider Hc Hv)
      as (url & init & H).
    rewrite Hp in H.
    destruct Hr as [[Hok Hb]|[Hok Hb]]; rewrite Hok in H; rewrite Hb in H;
      exact (POST_unexpected _ _ _ _ _ (resolved provider) _ _ Hc Hv H).
Qed.

(** With a configured credential, a body that parses to [null] makes the
    handler throw a TypeError instead of answering, and a body that
    parses to a boolean, a number, a string or an array is answered like
    a missing text, with 400; neither calls the provider client. *)
Theorem bodies_that_are_not_objects env apiKey rq (body : js_value) answers :
  configured env apiKey -> request_json rq = Fulfilled body ->
  (body = JNull ->
   run answers (POST env rq)
   = ([], Rejected (TypeError "Cannot read properties of null or undefined"))) /\
  (primitive_or_array body = true ->
   run answers (POST env rq)
   = ([], Fulfilled
            (error_response (lit "Text is required and must be a string")
               400))).
Proof.
  intros Hc Hj. split.
  - intros ->. destruct Hc as (Hkey & Hne & Hph).
    unfold GenerateVoice.POST. rewrite Hkey. cbn [env_value].
    now rewrite (config_check_passes _ Hne Hph), Hj.
  - intros Hb.
    rewrite (@GenerateVoiceFacts.POST_validation_failure MAX_TEXT_LENGTH
               toLocaleString env apiKey rq
               (lit "Text is required and must be a string") Hc);
      [reflexivity|].
    apply text_not_a_string with (text := JUndefined) (voice_id := JUndefined);
      [|reflexivity].
    exists body. split; [assumption|].
    destruct body; try discriminate; split; reflexivity.
Qed.

End Generate.

(** ** The voices endpoint *)

(** [fetchElevenLabsVoices] with a key: the one request it sends and how
    it completes for each answer. *)
Lemma fetchElevenLabsVoices_completion provider (apiKey : js_string) :
  apiKey <> [] ->
  exists init,
    fst (run provider (Elevenlabs.fetchElevenLabsVoices apiKey))
    = [Fetch (Elevenlabs.ELEVENLABS_API_BASE ++ lit "/voices") init] /\
    method init = lit "GET" /\ body init = None /\
    headers_get (headers init) (lit "xi-api-key") = Some apiKey /\
    without_header (lit "xi-api-key") (headers init)
    = [(lit "Accept", lit "application/json")] /\
    snd (run provider (Elevenlabs.fetchElevenLabsVoices apiKey))
    = match provider (Fetch (Elevenlabs.ELEVENLABS_API_BASE ++ lit "/voices")
                        init) with
      | Rejected e => Rejected e
      | Fulfilled r =>
          if ok r then
            match json r with
            | Rejected e => Rejected e
            | Fulfilled data =>
                match get data "voices" with
                | Rejected e => Rejected e
                | Fulfilled v => Elevenlabs.array_map v Elevenlabs.reduce_voice
                end
            end
          else
            match Web.text r with
            | Fulfilled b =>
                Rejected (ElevenLabsError
                            (lit "Failed to fetch voices: " ++ statusText r)
                            (Some (status r)) (Some b))
            | Rejected e => Rejected e
            end
      end.
Proof.
  intros Hk. unfold Elevenlabs.fetchElevenLabsVoices.
  rewrite (nonempty_truthy _ Hk). unfold Elevenlabs.fetch. cbn [bind].
  rewrite run_Vis. cbn [fst snd].
  eexists. split.
  { apply f_equal2; [reflexivity|].
    match goal with |- context [provider ?e] =>
      destruct (provider e) as [r|e0]
    end; cbn [await bind]; [|reflexivity].
    destruct (ok r); cbn [negb].
    - destruct (json r) as [data|e0]; cbn [await bind]; [|reflexivity].
      destruct (get data "voices") as [v|e0]; cbn [await bind];
        [|reflexivity].
      now rewrite run_await.
    - destruct (Web.text r) as [b|e0]; reflexivity. }
  split; [reflexivity|]. split; [reflexivity|]. split; [reflexivity|].
  split; [reflexivity|].
  match goal with |- context [provider ?e] =>
    destruct (provider e) as [r|e0]
  end; cbn [await bind]; [|reflexivity].
  destruct (ok r); cbn [negb].
  - destruct (json r) as [data|e0]; cbn [await bind]; [|reflexivity].
    destruct (get data "voices") as [v|e0]; cbn [await bind]; [|reflexivity].
    now rewrite run_await.
  - destruct (Web.text r) as [b|e0]; reflexivity.
Qed.

(** Without a key [fetchElevenLabsVoices] throws before sending anything;
    with a key it sends exactly one request, whatever the provider
    answers: a GET of the voices path without body, with the key in the
    [xi-api-key] header and nowhere else. *)
Theorem one_voices_request provider (apiKey : js_string) :
  (apiKey = [] ->
   Elevenlabs.fetchElevenLabsVoices apiKey
   = Throw (ElevenLabsError (lit "API key is required") None None)) /\
  (apiKey <> [] ->
   exists init,
     fst (run provider (Elevenlabs.fetchElevenLabsVoices apiKey))
     = [Fetch (Elevenlabs.ELEVENLABS_API_BASE ++ lit "/voices") init] /\
     method init = lit "GET" /\ body init = None /\
     headers_get (headers init) (lit "xi-api-key") = Some apiKey /\
     without_header (lit "xi-api-key") (headers init)
     = [(lit "Accept", lit "application/json")]).
Proof.
  split.
  - intros ->. reflexivity.
  - intros Hk.
    destruct (fetchElevenLabsVoices_completion provider _ Hk)
      as (init & H1 & H2 & H3 & H4 & H5 & _).
    exists init. repeat split; assumption.
Qed.

Lemma reduce_voice_shape (item voice : js_value) :
  Elevenlabs.reduce_voice item = Fulfilled voice ->
  exists a b c d,
    voice = obj [("voice_id", a); ("name", b); ("description", c);
                 ("category", d)].
Proof.
  unfold Elevenlabs.reduce_voice.
  destruct (get item "voice_id") as [a|e]; [|discriminate].
  destruct (get item "name") as [b|e]; [|discriminate].
  destruct (get item "description") as [c|e]; [|discriminate].
  destruct (get item "category") as [d|e]; [|discriminate].
  intros [= <-]. now exists a, b, c, d.
Qed.

Lemma reduce_voice_fixed (item voice : js_value) :
  Elevenlabs.reduce_voice item = Fulfilled voice ->
  Elevenlabs.reduce_voice voice = Fulfilled voice.
Proof.
  intros H. destruct (reduce_voice_shape _ _ H) as (a & b & c & d & ->).
  reflexivity.
Qed.

Lemma map_reduce_fixed (items voices : list js_value) :
  Elevenlabs.map_outcome Elevenlabs.reduce_voice items = Fulfilled voices ->
  Elevenlabs.map_outcome Elevenlabs.reduce_voice voices = Fulfilled voices.
Proof.
  revert voices. induction items as [|item items IH]; intros voices;
    cbn [Elevenlabs.map_outcome].
  - now intros [= <-].
  - destruct (Elevenlabs.reduce_voice item) as [voice|e] eqn:E;
      [|discriminate].
    destruct (Elevenlabs.map_outcome Elevenlabs.reduce_voice items)
      as [rest|e]; [|discriminate].
    intros [= <-]. cbn [Elevenlabs.map_outcome].
    now rewrite (reduce_voice_fixed _ _ E), (IH rest eq_refl).
Qed.

(** Reducing a catalog that is already reduced changes nothing: the
    voices [fetchElevenLabsVoices] returns are fixed by its own
    mapping. *)
Theorem reducing_voices_is_idempotent (v : js_value) (voices : list js_value) :
  Elevenlabs.array_map v Elevenlabs.reduce_voice = Fulfilled voices ->
  Elevenlabs.array_map (JArray voices) Elevenlabs.reduce_voice
  = Fulfilled voices.
Proof.
  destruct v; try discriminate. cbn [Elevenlabs.array_map].
  apply map_reduce_fixed.
Qed.

Lemma reduce_voice_rejection (item : js_value) (e : js_error) :
  Elevenlabs.reduce_voice item = Rejected e ->
  exists name message, e = NativeError name message.
Proof.
  unfold Elevenlabs.reduce_voice.
  destruct item; cbn [get]; try discriminate;
    intros [= <-]; eexists _, _; reflexivity.
Qed.

Lemma map_reduce_null (items : list js_value) :
  In JNull items ->
  exists name message,
    Elevenlabs.map_outcome Elevenlabs.reduce_voice items
    = Rejected (NativeError name message).
Proof.
  induction items as [|item items IH]; [intros []|].
  intros Hin. cbn [Elevenlabs.map_outcome].
  destruct (Elevenlabs.reduce_voice item) as [voice|e] eqn:E.
  - destruct Hin as [->|Hin]; [discriminate E|].
    destruct (IH Hin) as (name & message & ->). now exists name, message.
  - destruct (reduce_voice_rejection _ _ E) as (name & message & ->).
    now exists name, message.
Qed.

(** When the provider answers the catalog request with a success whose
    body is not a catalog, the voices endpoint answers 500 with "An
    unexpected error occurred"; so it does when the provider cannot be
    reached. *)
Theorem malformed_catalog_answers_500 env apiKey provider :
  configured env apiKey ->
  (forall r,
     (forall url init, provider (Fetch url init) = Fulfilled r) ->
     ok r = true -> malformed_catalog r ->
     snd (run provider (link (GET env)))
     = Fulfilled (error_response (lit "An unexpected error occurred") 500)) /\
  (forall name message,
     (forall url init,
        provider (Fetch url init) = Rejected (NativeError name message)) ->
     snd (run provider (link (GET env)))
     = Fulfilled (error_response (lit "An unexpected error occurred") 500)).
Proof.
  intros Hc. pose proof Hc as (_ & Hne & _).
  destruct (fetchElevenLabsVoices_completion provider _ Hne)
    as (init & _ & _ & _ & _ & _ & Hsnd).
  split.
  - intros r Hp Hok Hbad. rewrite link_adequate. cbn [snd].
    rewrite Hp, Hok in Hsnd.
    assert (H : exists name message,
               resolved provider (Call_fetchElevenLabsVoices apiKey)
               = Rejected (NativeError name message)).
    { cbn [resolved]. rewrite Hsnd.
      destruct Hbad as [name message Hj|Hj|data v Hj Hv Hnot
                       |data items Hj Hv Hin]; rewrite Hj.
      - now exists name, message.
      - eexists _, _. reflexivity.
      - rewrite Hv. destruct v; try (eexists _, _; reflexivity).
        exfalso. now apply (Hnot items).
      - rewrite Hv. cbn [Elevenlabs.array_map]. now apply map_reduce_null. }
    destruct H as (name & message & H).
    exact (VoicesFacts.GET_unexpected (resolved provider) Hc H).
  - intros name message Hp. rewrite link_adequate. cbn [snd].
    rewrite Hp in Hsnd.
    exact (VoicesFacts.GET_unexpected (resolved provider) Hc Hsnd).
Qed.

(** ** The theorems at sample inputs *)

Lemma key_not_empty : lit "sk_test_key" <> [].
Proof. discriminate. Qed.

Lemma story_not_blank : trim (lit "Once upon a time") <> [].
Proof. vm_compute. discriminate. Qed.

Lemma voice_not_empty : lit "voice_1" <> [].
Proof. discriminate. Qed.

Lemma generateSpeech_checks_locally_witness :
  Elevenlabs.generateSpeech (lit "sk_test_key") (lit "  ") (lit "voice_1")
  = Throw (ElevenLabsError (lit "Text is required and cannot be empty")
             None None).
Proof.
  apply (proj1 (proj2 (generateSpeech_checks_locally
                         (lit "sk_test_key") (lit "  ") (lit "voice_1")))).
  - exact key_not_empty.
  - reflexivity.
Defined.

Lemma speech_failure_keeps_status_and_body_witness :
  exists message,
    speech_error_message
      (response_of 404 (lit "Not Found") [] (lit "no such voice") JNull)
      message /\
    snd (run (provider_answers
                (response_of 404 (lit "Not Found") [] (lit "no such voice")
                   JNull))
             (Elevenlabs.generateSpeech (lit "sk_test_key")
                (lit "Once upon a time") (lit "voice_1")))
    = Rejected (ElevenLabsError message (Some 404)
                  (Some (lit "no such voice"))).
Proof.
  apply (speech_failure_keeps_status_and_body
           (provider_answers
              (response_of 404 (lit "Not Found") [] (lit "no such voice")
                 JNull))
           (lit "sk_test_key") (lit "Once upon a time") (lit "voice_1")
           (response_of 404 (lit "Not Found") [] (lit "no such voice") JNull)
           (lit "no such voice")
           key_not_empty story_not_blank voice_not_empty);
    reflexivity.
Defined.

Lemma one_speech_request_witness :
  exists init,
    fst (run provider_unreachable
           (Elevenlabs.generateSpeech (lit "sk_test_key")
              (lit "Once upon a time") (lit "voice_1")))
    = [Fetch (lit "https://api.elevenlabs.io/v1/text-to-speech/voice_1") init]
    /\
    method init = lit "POST" /\
    headers_get (headers init) (lit "xi-api-key") = Some (lit "sk_test_key") /\
    without_header (lit "xi-api-key") (headers init)
    = [(lit "Accept", lit "audio/mpeg");
       (lit "Content-Type", lit "application/json")] /\
    body init
    = Some (obj [("text", JString (lit "Once upon a time"));
                 ("model_id", js_str "eleven_monolingual_v1");
                 ("voice_settings",
                  obj [("stability", JNumber 0.5%float);
                       ("similarity_boost", JNumber 0.75%float)])]).
Proof.
  exact (one_speech_request provider_unreachable
           (lit "sk_test_key") (lit "Once upon a time") (lit "voice_1")
           key_not_empty story_not_blank voice_not_empty).
Defined.

Lemma unexpected_failures_answer_500_witness :
  snd (run provider_unreachable
         (link (POST 100000 toLocaleString_en_US sample_env story_request)))
  = Fulfilled
      (error_response
         (lit "An unexpected error occurred while generating speech") 500).
Proof.
  apply (proj1 (proj2 (proj2
           (unexpected_failures_answer_500 100000 toLocaleString_en_US
              sample_env (lit "sk_test_key") story_request
              (lit "  Once upon a time  ") (lit "voice_1")
              GenerateVoiceFacts.sample_configured
              GenerateVoiceFacts.story_valid)))
           provider_unreachable (lit "TypeError") (lit "fetch failed")).
  reflexivity.
Defined.

Lemma bodies_that_are_not_objects_witness :
  run (stubbed (Fulfilled sample_audio) (Fulfilled []))
      (POST 100000 toLocaleString_en_US sample_env null_request)
  = ([], Rejected (TypeError "Cannot read properties of null or undefined")) /\
  run (stubbed (Fulfilled sample_audio) (Fulfilled []))
      (POST 100000 toLocaleString_en_US sample_env array_request)
  = ([], Fulfilled
           (error_response (lit "Text is required and must be a string") 400)).
Proof.
  split.
  - apply (proj1 (bodies_that_are_not_objects 100000 toLocaleString_en_US
                    sample_env (lit "sk_test_key") null_request JNull
                    (stubbed (Fulfilled sample_audio) (Fulfilled []))
                    GenerateVoiceFacts.sample_configured eq_refl)).
    reflexivity.
  - apply (proj2 (bodies_that_are_not_objects 100000 toLocaleString_en_US
                    sample_env (lit "sk_test_key") array_request
                    (JArray [js_str "hello"])
                    (stubbed (Fulfilled sample_audio) (Fulfilled []))
                    GenerateVoiceFacts.sample_configured eq_refl)).
    reflexivity.
Defined.

Lemma one_voices_request_witness :
  exists init,
    fst (run provider_unreachable
           (Elevenlabs.fetchElevenLabsVoices (lit "sk_test_key")))
    = [Fetch (lit "https://api.elevenlabs.io/v1/voices") init] /\
    method init = lit "GET" /\ body init = None /\
    headers_get (headers init) (lit "xi-api-key") = Some (lit "sk_test_key") /\
    without_header (lit "xi-api-key") (headers init)
    = [(lit "Accept", lit "application/json")].
Proof.
  exact (proj2 (one_voices_request provider_unreachable (lit "sk_test_key"))
           key_not_empty).
Defined.

Lemma reducing_voices_is_idempotent_witness :
  Elevenlabs.array_map
    (JArray [obj [("voice_id", js_str "v1"); ("name", js_str "Rachel");
                  ("description", JUndefined);
                  ("category", js_str "premade")]])
    Elevenlabs.reduce_voice
  = Fulfilled [obj [("voice_id", js_str "v1"); ("name", js_str "Rachel");
                    ("description", JUndefined);
                    ("category", js_str "premade")]].
Proof.
  apply (reducing_voices_is_idempotent (JArray [rachel])). reflexivity.
Defined.

Lemma malformed_catalog_answers_500_witness :
  snd (run (provider_answers html_page) (link (GET sample_env)))
  = Fulfilled (error_response (lit "An unexpected error occurred") 500).
Proof.
  apply (proj1 (malformed_catalog_answers_500 sample_env (lit "sk_test_key")
                  (provider_answers html_page)
                  GenerateVoiceFacts.sample_configured) html_page).
  - reflexivity.
  - reflexivity.
  - apply not_json with (name := lit "SyntaxError")
                        (message := lit "Unexpected token").
    reflexivity.
Defined.

(** ** Status codes below 400 *)

Lemma passed_on_json (s : N) (m : js_string) :
  passed_on s m
    (NextResponse_json
       (obj [("success", JBool false); ("error", JString m)]) s).
Proof.
  unfold passed_on, NextResponse_json, null_body_status. repeat split.
  - intros H.
    assert (E : (s <? 200) || (599 <? s) = true).
    { apply orb_true_iff. destruct H as [H|H]; [left|right];
        now apply N.ltb_lt. }
    rewrite E. eexists. reflexivity.
  - intros [ -> | [ -> | -> ] ]; eexists; reflexivity.
  - intros [Hlo Hhi] H204 H205 H304.
    apply N.ltb_ge in Hlo, Hhi. apply N.eqb_neq in H204, H205, H304.
    now rewrite Hlo, Hhi, H204, H205, H304.
Qed.

Lemma POST_status_below_400 (MAX_TEXT_LENGTH : N)
    (toLocaleString : N -> js_string) env apiKey rq text voice_id answers
    m s b :
  configured env apiKey -> valid_request MAX_TEXT_LENGTH rq text voice_id ->
  0 < s < 400 ->
  answers (Call_generateSpeech apiKey (trim text) voice_id)
  = Rejected (ElevenLabsError m (Some s) b) ->
  snd (run answers (POST MAX_TEXT_LENGTH toLocaleString env rq))
  = NextResponse_json
      (obj [("success", JBool false);
            ("error", JString (lit "Failed to generate speech"))]) s.
Proof.
  intros Hc Hv [Hlo Hhi] Ha. enter_valid_POST Hc Hv. rewrite Ha.
  cbn [await bind try_catch console_error]. rewrite run_Vis.
  cbn [snd statusCode_or]. unfold json_error. rewrite run_await. cbn [snd].
  assert (H0 : (s =? 0) = false) by (apply N.eqb_neq; lia).
  assert (H1 : (s =? 401) = false) by (apply N.eqb_neq; lia).
  assert (H2 : (s =? 422) = false) by (apply N.eqb_neq; lia).
  assert (H3 : (s =? 429) = false) by (apply N.eqb_neq; lia).
  assert (H5 : (500 <=? s) = false) by (apply N.leb_gt; lia).
  now rewrite H0, H1, H2, H3, H5.
Qed.

Lemma GET_status_below_400 env apiKey answers m s b :
  configured env apiKey -> 0 < s < 400 ->
  answers (Call_fetchElevenLabsVoices apiKey)
  = Rejected (ElevenLabsError m (Some s) b) ->
  snd (run answers (GET env))
  = NextResponse_json
      (obj [("success", JBool false);
            ("error", JString (lit "Failed to fetch voices"))]) s.
Proof.
  intros Hc [Hlo Hhi] Ha. VoicesFacts.enter_GET Hc. rewrite Ha.
  cbn [await bind try_catch console_error]. rewrite run_Vis.
  cbn [snd statusCode_or]. rewrite run_await. cbn [snd].
  assert (H0 : (s =? 0) = false) by (apply N.eqb_neq; lia).
  assert (H1 : (s =? 401) = false) by (apply N.eqb_neq; lia).
  assert (H3 : (s =? 429) = false) by (apply N.eqb_neq; lia).
  assert (H5 : (500 <=? s) = false) by (apply N.leb_gt; lia).
  now rewrite H0, H1, H3, H5.
Qed.



End ServerFacts.

(* ================================================================== *)
(** * Further properties of the page *)

Module PageExtras.
Import JS Effects Effects.Notations Web Page PageSpec PageExtraSpec.
Import JSFacts EffectsFacts PageFacts.

(** ** [loadVoices] *)

(** Every run of [loadVoices] sends one request, to the voices endpoint,
    ends normally, and the last thing it does is
    [setIsLoadingVoices(false)]; it never sets [audioUrl] or
    [isGenerating]. *)
Theorem loadVoices_always_clears_loading (env : forall e, pageR e) :
  snd (run env loadVoices) = Fulfilled tt /\
  page_fetches (fst (run env loadVoices)) = [(lit "/api/voices", None)] /\
  last (fst (run env loadVoices)) (SetIsLoadingVoices true)
  = SetIsLoadingVoices false /\
  Forall (fun e => match e with
                   | SetAudioUrl _ | SetIsGenerating _ | Browser _ => False
                   | _ => True
                   end) (fst (run env loadVoices)).
Proof.
  unfold loadVoices.
  cbn [fetch setVoices setError setIsLoadingVoices bind try_catch try_finally].
  rewrite run_Vis. cbn [fst snd page_fetches].
  match goal with |- context [env (PageFetch ?u ?i)] =>
    destruct (env (PageFetch u i)) as [r|e]
  end; cbn [await bind try_catch try_finally].
  2:{ repeat split; repeat constructor. }
  destruct (json r) as [data|e]; cbn [await bind try_catch try_finally].
  2:{ repeat split; repeat constructor. }
  destruct (get data "success") as [success|e];
    cbn [await bind try_catch try_finally].
  2:{ repeat split; repeat constructor. }
  destruct (get data "voices") as [voices|e];
    cbn [await bind try_catch try_finally].
  2:{ repeat split; repeat constructor. }
  destruct (truthy success && truthy voices);
    cbn [await bind try_catch try_finally].
  - repeat split; repeat constructor.
  - destruct (get data "error") as [err|e];
      cbn [await bind try_catch try_finally];
      repeat split; repeat constructor.
Qed.

(** The request [loadVoices] leaves in flight on mount, and how the page
    resumes when it is answered with a readable envelope. *)
Lemma mount_pending :
  exists p,
    inflight mount = [p] /\
    forall w,
      (forall r success voices error,
         envelope r success voices error ->
         truthy success && truthy voices = true ->
         exec (resume p (Fulfilled r)) w
         = set_state (put_isLoadingVoices false)
             (set_state (put_voices voices) w)) /\
      (forall r success voices error,
         envelope r success voices error ->
         truthy success && truthy voices = false ->
         exec (resume p (Fulfilled r)) w
         = set_state (put_isLoadingVoices false)
             (set_state
                (put_error (or_else error (js_str "Failed to load voices")))
                w)).
Proof.
  unfold mount, loadVoices.
  cbn [fetch bind try_catch try_finally exec perform with_inflight inflight
       app].
  eexists. split; [reflexivity|].
  intros w. unfold resume. cbn [p_event p_resume].
  split; intros r success voices error (data & Hj & Hs & Hv & He) Ht;
    cbn [await bind try_catch try_finally]; rewrite Hj;
    cbn [await bind try_catch try_finally]; rewrite Hs, Hv;
    cbn [await bind try_catch try_finally]; rewrite Ht, ?He; reflexivity.
Qed.

(** How the page moves when the voices request settles.  A readable
    envelope whose [success] and [voices] are both truthy fills [voices],
    whatever the HTTP status of the response; any other readable envelope
    shows its [error], or "Failed to load voices" when it has none; a
    response that cannot be read, or no response at all, shows "Failed
    to connect to server".  The loading flag is cleared in every case
    and nothing else moves. *)
Theorem loadVoices_outcomes :
  exists p,
    inflight mount = [p] /\
    forall w,
      (forall r success voices error,
         envelope r success voices error ->
         truthy success && truthy voices = true ->
         exec (resume p (Fulfilled r)) w
         = set_state (put_isLoadingVoices false)
             (set_state (put_voices voices) w)) /\
      (forall r success voices error,
         envelope r success voices error ->
         truthy success && truthy voices = false ->
         exec (resume p (Fulfilled r)) w
         = set_state (put_isLoadingVoices false)
             (set_state
                (put_error (or_else error (js_str "Failed to load voices")))
                w)) /\
      (forall r, unreadable r ->
         exec (resume p (Fulfilled r)) w
         = set_state (put_isLoadingVoices false)
             (set_state (put_error (js_str "Failed to connect to server")) w)) /\
      (forall e,
         exec (resume p (Rejected e)) w
         = set_state (put_isLoadingVoices false)
             (set_state (put_error (js_str "Failed to connect to server")) w)).
Proof.
  unfold mount, loadVoices.
  cbn [fetch bind try_catch try_finally exec perform with_inflight inflight
       app].
  eexists. split; [reflexivity|].
  intros w. unfold resume. cbn [p_event p_resume].
  repeat apply conj.
  - intros r success voices error (data & Hj & Hs & Hv & He) Ht.
    cbn [await bind try_catch try_finally]. rewrite Hj.
    cbn [await bind try_catch try_finally]. rewrite Hs, Hv.
    cbn [await bind try_catch try_finally]. rewrite Ht. reflexivity.
  - intros r success voices error (data & Hj & Hs & Hv & He) Ht.
    cbn [await bind try_catch try_finally]. rewrite Hj.
    cbn [await bind try_catch try_finally]. rewrite Hs, Hv.
    cbn [await bind try_catch try_finally]. rewrite Ht, He. reflexivity.
  - intros r [[e Hj]|Hj]; cbn [await bind try_catch try_finally];
      rewrite Hj; reflexivity.
  - intros e. reflexivity.
Qed.

(** ** [handleGenerate] *)

Lemma inflight_set_state (f : State -> State) (w : World) :
  inflight (set_state f w) = inflight w.
Proof. unfold set_state. now destruct (mounted w). Qed.

Lemma inflight_set_audioUrl (u : option object_url) (w : World) :
  inflight (set_audioUrl u w) = inflight w.
Proof.
  unfold set_audioUrl. destruct (mounted w); [|reflexivity].
  destruct (url_eqb u (audioUrl (state w))); [reflexivity|].
  cbn [with_captured inflight].
  now destruct (captured w).
Qed.

(** Once the guard is passed, [handleGenerate] first sets the busy flag
    and clears the error and the audio URL, then sends exactly one
    request, whatever it is answered: a POST to the generate endpoint
    whose JSON body holds the story text as typed, untrimmed, and the
    selected voice id. *)
Theorem generation_sends_text_as_typed (t : js_string) (v : option js_string) :
  can_generate t v ->
  exists init,
    method init = lit "POST" /\
    headers init = [(lit "Content-Type", lit "application/json")] /\
    body init = Some (obj [("text", JString t); ("voice_id", nullable v)]) /\
    forall env : (forall e, pageR e),
      page_fetches (fst (run env (handleGenerate t v)))
      = [(lit "/api/generate-voice", Some init)] /\
      exists rest,
        fst (run env (handleGenerate t v))
        = SetIsGenerating true :: SetError JNull :: SetAudioUrl None
          :: PageFetch (lit "/api/generate-voice") (Some init) :: rest.
Proof.
  intros Hg. unfold handleGenerate. rewrite (guard_passes _ _ Hg).
  cbn [setIsGenerating setError setAudioUrl fetch createObjectURL
       bind try_catch try_finally].
  exists {| method := lit "POST";
            headers := [(lit "Content-Type", lit "application/json")];
            body := Some (obj [("text", JString t);
                               ("voice_id", nullable v)]) |}.
  split; [reflexivity|]. split; [reflexivity|].
  split; [reflexivity|].
  intros env. rewrite !run_Vis. cbn [fst snd page_fetches].
  split; [|eexists; reflexivity].
  f_equal.
  match goal with |- context [env (PageFetch ?u ?i)] =>
    destruct (env (PageFetch u i)) as [r|e]
  end; cbn [await bind try_catch try_finally]; [|reflexivity].
  destruct (ok r); cbn [negb].
  - destruct (match headers_get (response_headers r) (lit "Content-Type")
              with
              | Some ct => includes ct (lit "audio/mpeg")
              | None => false
              end); [|reflexivity].
    destruct (blob r) as [b|e]; reflexivity.
  - destruct (json r) as [data|e]; cbn [await bind try_catch try_finally];
      [|reflexivity].
    destruct (get data "error") as [err|e]; reflexivity.
Qed.

(** A generation that does not end with audio shows one message, clears
    the busy flag and moves nothing else (no blob URL is created): the
    [error] of the envelope of a failure response, or "Generation failed
    (status)" when the envelope has none; "Unexpected response format from
    server" for a success response that does not declare MPEG audio;
    "Network error. Please try again." when the request fails, when a
    failure response cannot be read as an envelope, or when the audio
    cannot be read. *)
Theorem failed_generation_shows_message (t : js_string) (v : option js_string) :
  can_generate t v ->
  exists p,
    (forall w, inflight (exec (handleGenerate t v) w) = inflight w ++ [p]) /\
    forall w,
      (forall e,
         fails_with (js_str "Network error. Please try again.") w
           (exec (resume p (Rejected e)) w)) /\
      (forall r data err,
         ok r = false -> json r = Fulfilled data ->
         get data "error" = Fulfilled err ->
         fails_with
           (or_else err
              (JString (lit "Generation failed (" ++ toString (status r)
                        ++ lit ")")))
           w (exec (resume p (Fulfilled r)) w)) /\
      (forall r, ok r = false -> unreadable r ->
         fails_with (js_str "Network error. Please try again.") w
           (exec (resume p (Fulfilled r)) w)) /\
      (forall r, ok r = true -> declares_audio r = false ->
         fails_with (js_str "Unexpected response format from server") w
           (exec (resume p (Fulfilled r)) w)) /\
      (forall r e, ok r = true -> declares_audio r = true ->
         blob r = Rejected e ->
         fails_with (js_str "Network error. Please try again.") w
           (exec (resume p (Fulfilled r)) w)).
Proof.
  intros Hg. unfold handleGenerate. rewrite (guard_passes _ _ Hg).
  cbn [setIsGenerating setError setAudioUrl fetch createObjectURL
       bind try_catch try_finally exec perform].
  eexists. split.
  { intros w. cbn [with_inflight inflight].
    rewrite inflight_set_audioUrl, !inflight_set_state. reflexivity. }
  intros w. unfold resume, fails_with, declares_audio.
  cbn [p_event p_resume].
  repeat apply conj.
  - intros e. reflexivity.
  - intros r data err Hok Hj He. cbn [await bind try_catch try_finally].
    rewrite Hok. cbn [negb]. rewrite Hj.
    cbn [await bind try_catch try_finally]. rewrite He. reflexivity.
  - intros r Hok [[e Hj]|Hj]; cbn [await bind try_catch try_finally];
      rewrite Hok; cbn [negb]; rewrite Hj; reflexivity.
  - intros r Hok Hct. cbn [await bind try_catch try_finally].
    rewrite Hok. cbn [negb]. rewrite Hct. reflexivity.
  - intros r e Hok Hct Hb. cbn [await bind try_catch try_finally].
    rewrite Hok. cbn [negb]. rewrite Hct, Hb. reflexivity.
Qed.

(** In every state the page reaches, at most one generation is in
    flight; while one is and the page is mounted, the busy flag is set,
    no audio is held and a click on the button does nothing. *)
Theorem one_generation_in_flight (w : World) :
  reachable w ->
  (generating w <= 1)%nat /\
  (mounted w = true -> generating w = 1%nat ->
   isGenerating (state w) = true /\ audioUrl (state w) = None /\
   step ClickGenerate w = None).
Proof.
  intros Hreach. pose proof (reachable_invariant Hreach) as Hinv.
  split.
  - pose proof (inv_one _ Hinv). lia.
  - intros Hm Hg.
    assert (Hbusy : isGenerating (state w) = true).
    { destruct (isGenerating (state w)) eqn:E; [reflexivity|].
      rewrite (inv_idle _ Hinv Hm E) in Hg. discriminate. }
    repeat split.
    + exact Hbusy.
    + pose proof (inv_one _ Hinv) as H1. pose proof (inv_live _ Hinv Hm) as Hl.
      rewrite Hl, Hg in H1. destruct (audioUrl (state w)); [cbn in H1; lia|].
      reflexivity.
    + cbn [step]. rewrite Hm, Hbusy. cbn. now rewrite orb_true_r.
Qed.

(** ** Instances *)

Lemma generation_sends_text_as_typed_witness :
  exists init,
    method init = lit "POST" /\
    headers init = [(lit "Content-Type", lit "application/json")] /\
    body init = Some (obj [("text", JString (lit "Once upon a time"));
                           ("voice_id", nullable (Some (lit "v1")))]) /\
    forall env : (forall e, pageR e),
      page_fetches
        (fst (run env (handleGenerate (lit "Once upon a time")
                         (Some (lit "v1")))))
      = [(lit "/api/generate-voice", Some init)] /\
      exists rest,
        fst (run env (handleGenerate (lit "Once upon a time")
                        (Some (lit "v1"))))
        = SetIsGenerating true :: SetError JNull :: SetAudioUrl None
          :: PageFetch (lit "/api/generate-voice") (Some init) :: rest.
Proof.
  exact (generation_sends_text_as_typed (lit "Once upon a time")
           (Some (lit "v1")) story_can_generate).
Defined.

Lemma failed_generation_shows_message_witness :
  exists p,
    inflight (exec (handleGenerate (lit "Once upon a time") (Some (lit "v1")))
                session)
    = inflight session ++ [p] /\
    fails_with (js_str "rate limited") session
      (exec (resume p (Fulfilled rate_limited)) session).
Proof.
  destruct (failed_generation_shows_message (lit "Once upon a time")
              (Some (lit "v1")) story_can_generate) as (p & Hin & Hout).
  exists p. split; [apply Hin|].
  destruct (Hout session) as (_ & Hjson & _).
  apply (Hjson rate_limited
           (obj [("success", JBool false); ("error", js_str "rate limited")])
           (js_str "rate limited")); reflexivity.
Defined.

Lemma one_generation_in_flight_witness :
  (generating generating_session <= 1)%nat /\
  isGenerating (state generating_session) = true /\
  audioUrl (state generating_session) = None /\
  step ClickGenerate generating_session = None.
Proof.
  assert (Hr : reachable generating_session).
  { exists (session_start ++ [ClickGenerate]). reflexivity. }
  destruct (one_generation_in_flight generating_session Hr) as [Hle Hbusy].
  split; [exact Hle|]. apply Hbusy; reflexivity.
Defined.

End PageExtras.

(* ================================================================== *)
(** * The page with its components: facts *)

Module ScreenFacts.
Import JS Effects Effects.Notations Web Next GenerateVoice Page PageSpec.
Import PageExtraSpec Screen Wire Spec ServerSpec ScreenSpec.
Import JSFacts EffectsFacts ElevenlabsFacts NextFacts GenerateVoiceFacts.
Import PageFacts PageExtras.

(** ** Moves that leave the form as it is *)

Lemma same_form_refl (w : World) : same_form w w.
Proof. repeat split. Qed.

Lemma same_form_trans (w1 w2 w3 : World) :
  same_form w1 w2 -> same_form w2 w3 -> same_form w1 w3.
Proof.
  intros (A1 & A2 & A3 & A4 & A5 & A6) (B1 & B2 & B3 & B4 & B5 & B6).
  repeat split; congruence.
Qed.

Lemma same_form_set_state (f : State -> State) (w : World) :
  (forall s, storyText (f s) = storyText s) ->
  (forall s, selectedVoiceId (f s) = selectedVoiceId s) ->
  (forall s, voices (f s) = voices s) ->
  (forall s, isLoadingVoices (f s) = isLoadingVoices s) ->
  same_form w (set_state f w).
Proof.
  intros H1 H2 H3 H4. unfold set_state.
  destruct (mounted w) eqn:Hm; [|apply same_form_refl].
  repeat split; cbn; auto.
Qed.

Lemma same_form_set_audioUrl (u : option object_url) (w : World) :
  same_form w (set_audioUrl u w).
Proof.
  unfold set_audioUrl.
  destruct (mounted w) eqn:Hm; [|apply same_form_refl].
  destruct (url_eqb u (audioUrl (state w))); [apply same_form_refl|].
  destruct (captured w); repeat split; cbn; auto.
Qed.

Lemma same_form_created (w : World) : same_form w (created w).
Proof. repeat split. Qed.

Lemma next_url_set_state (f : State -> State) (w : World) :
  next_url (set_state f w) = next_url w.
Proof. unfold set_state. now destruct (mounted w). Qed.

Lemma next_url_set_audioUrl (u : option object_url) (w : World) :
  next_url (set_audioUrl u w) = next_url w.
Proof.
  unfold set_audioUrl. destruct (mounted w); [|reflexivity].
  destruct (url_eqb u (audioUrl (state w))); [reflexivity|].
  now destruct (captured w).
Qed.

Lemma same_form_settled_generate (w w' : World) :
  settled_generate w w' ->
  same_form w w' /\
  (next_url w' = next_url w \/ next_url w' = next_url w + 1).
Proof.
  intros [[v ->]| ->].
  - split.
    + eapply same_form_trans; apply same_form_set_state; reflexivity.
    + left. now rewrite !next_url_set_state.
  - split.
    + eapply same_form_trans; [apply same_form_created|].
      eapply same_form_trans; [apply same_form_set_audioUrl|].
      apply same_form_set_state; reflexivity.
    + right. now rewrite next_url_set_state, next_url_set_audioUrl.
Qed.

Lemma settled_voices_form (w w' : World) :
  settled_voices w w' ->
  mounted w' = mounted w /\
  storyText (state w') = storyText (state w) /\
  selectedVoiceId (state w') = selectedVoiceId (state w) /\
  inflight w' = inflight w /\
  next_url w' = next_url w /\
  (mounted w = false -> state w' = state w) /\
  (mounted w = true -> isLoadingVoices (state w') = false).
Proof.
  intros [v [-> | ->]]; unfold set_state;
    destruct (mounted w) eqn:Hm; cbn; rewrite ?Hm; cbn;
    repeat split; auto; discriminate.
Qed.

(** ** The invariant of the form *)

Section Form.
Variable MAX_TEXT_LENGTH : N.

Lemma form_invariant_same (w w' : World) :
  same_form w w' ->
  (selectedVoiceId (state w) = None -> next_url w' = next_url w) ->
  form_invariant MAX_TEXT_LENGTH w -> form_invariant MAX_TEXT_LENGTH w'.
Proof.
  intros (Hm & Ht & Hs & Hv & Hl & Hi) Hn [F1 F2 F3 F4 F5].
  unfold loading, generating in *.
  constructor; unfold loading, generating; rewrite ?Hm, ?Ht, ?Hs, ?Hv, ?Hl, ?Hi;
    auto.
  intros E. rewrite (Hn E). auto.
Qed.

Lemma form_invariant_mount : form_invariant MAX_TEXT_LENGTH mount.
Proof.
  constructor; cbn; try discriminate; auto.
  - apply N.le_0_l.
Qed.

Lemma form_invariant_text (t : js_string) (w : World) :
  str_length t <= MAX_TEXT_LENGTH ->
  form_invariant MAX_TEXT_LENGTH w ->
  form_invariant MAX_TEXT_LENGTH (set_state (put_storyText t) w).
Proof.
  intros Ht Hfi. unfold set_state.
  destruct (mounted w) eqn:Hm; [|exact Hfi].
  destruct Hfi as [F1 F2 F3 F4 F5]. constructor; cbn; auto.
Qed.

Lemma form_invariant_voice (v : js_string) (w : World) :
  isLoadingVoices (state w) = false ->
  VoiceSelector.isLoading (voices (state w)) = false ->
  VoiceSelector.offers (voices (state w)) v = true ->
  form_invariant MAX_TEXT_LENGTH w ->
  form_invariant MAX_TEXT_LENGTH (set_state (put_selectedVoiceId (Some v)) w).
Proof.
  intros Hl He Ho Hfi. unfold set_state.
  destruct (mounted w) eqn:Hm; [|exact Hfi].
  destruct Hfi as [F1 F2 F3 F4 F5].
  constructor; cbn; auto; try discriminate.
  intros v' [= <-]. auto.
Qed.

Lemma form_invariant_generate (w : World) :
  isGenerateDisabled (state w) = false ->
  form_invariant MAX_TEXT_LENGTH w ->
  form_invariant MAX_TEXT_LENGTH
    (exec (handleGenerate (storyText (state w)) (selectedVoiceId (state w))) w).
Proof.
  intros Hd Hfi.
  destruct (enabled_can_generate _ Hd) as [Hcan _].
  destruct (exec_handleGenerate _ _ w Hcan) as (p & -> & Hgen & _ & _).
  cbn zeta.
  set (w1 := set_audioUrl None
               (set_state (put_error JNull)
                  (set_state (put_isGenerating true) w))).
  assert (Hsame : same_form w w1).
  { eapply same_form_trans; [|apply same_form_set_audioUrl].
    eapply same_form_trans; apply same_form_set_state; reflexivity. }
  assert (Hnext : next_url w1 = next_url w).
  { unfold w1. now rewrite next_url_set_audioUrl, !next_url_set_state. }
  pose proof (form_invariant_same _ _ Hsame (fun _ => Hnext) Hfi)
    as [F1 F2 F3 F4 F5].
  destruct Hcan as (_ & voiceId & Hsel & _).
  destruct Hsame as (_ & _ & Hs & _).
  constructor; cbn; auto.
  - unfold loading in *. cbn. rewrite filter_app, length_app. cbn.
    rewrite Hgen. cbn. lia.
  - intros Hm Hl. specialize (F3 Hm Hl). unfold loading in *. cbn.
    rewrite filter_app, length_app. cbn. rewrite Hgen. cbn. lia.
  - rewrite Hs, Hsel. discriminate.
Qed.

Lemma form_invariant_settle (w : World) (i : nat) (p : Pending)
    (o : outcome Response) :
  invariant w -> nth_error (inflight w) i = Some p ->
  form_invariant MAX_TEXT_LENGTH w ->
  form_invariant MAX_TEXT_LENGTH
    (exec (resume p o) (with_inflight (remove_nth i (inflight w)) w)).
Proof.
  intros Hinv Hnth [F1 F2 F3 F4 F5].
  pose proof (Forall_nth_error _ _ _ _ _ (inv_pending _ Hinv) Hnth) as Hwf.
  pose proof (filter_remove_nth _ is_generate _ _ _ Hnth) as Hcg.
  pose proof (filter_remove_nth _ (fun p => negb (is_generate p)) _ _ _ Hnth)
    as Hcl.
  unfold well_formed in Hwf.
  set (w0 := with_inflight (remove_nth i (inflight w)) w).
  fold (generating w) in Hcg. fold (loading w) in Hcl.
  change (remove_nth i (inflight w)) with (inflight w0) in Hcg, Hcl.
  fold (generating w0) in Hcg. fold (loading w0) in Hcl.
  cbn beta in Hcl. destruct (is_generate p) eqn:Hgen; cbn [negb] in Hcl.
  - destruct (same_form_settled_generate _ _ (Hwf o w0))
      as ((Hm & Ht & Hs & Hv & Hl & Hi) & _).
    change (mounted w0) with (mounted w) in Hm.
    change (state w0) with (state w) in Ht, Hs, Hv, Hl.
    constructor; unfold loading, generating; rewrite ?Hm, ?Ht, ?Hs, ?Hv, ?Hl, ?Hi;
      fold (loading w0); fold (generating w0); auto.
    + lia.
    + intros A B. specialize (F3 A B). lia.
    + intros E. destruct (F5 E) as [G _]. lia.
  - destruct (settled_voices_form _ _ (Hwf o w0))
      as (Hm & Ht & Hs & Hi & Hn & Hoff & Hon).
    change (mounted w0) with (mounted w) in Hm, Hoff, Hon.
    change (state w0) with (state w) in Ht, Hs, Hoff.
    change (next_url w0) with (next_url w) in Hn.
    constructor; unfold loading, generating; rewrite ?Hm, ?Ht, ?Hs, ?Hi, ?Hn;
      fold (loading w0); fold (generating w0); auto.
    + lia.
    + intros _ _. lia.
    + intros v E. destruct (F4 v E) as (A & B & C).
      destruct (mounted w) eqn:Hmw.
      * specialize (F3 eq_refl A). lia.
      * rewrite (Hoff eq_refl). auto.
    + intros E. destruct (F5 E) as [G N0]. split; [lia|assumption].
Qed.

Lemma form_invariant_unmount (w w' : World) :
  step Unmount w = Some w' ->
  form_invariant MAX_TEXT_LENGTH w -> form_invariant MAX_TEXT_LENGTH w'.
Proof.
  cbn [step]. destruct (mounted w) eqn:Hm; [|discriminate].
  intros [= <-] [F1 F2 F3 F4 F5].
  destruct (captured w); constructor; cbn; auto; discriminate.
Qed.

End Form.

(** ** Every state the screen reaches *)

Lemma reachable_step (a : action) (w w' : World) :
  reachable w -> step a w = Some w' -> reachable w'.
Proof.
  intros [l Hl] Hs. exists (l ++ [a]).
  rewrite (steps_app _ _ _ _ Hl). cbn [steps]. now rewrite Hs.
Qed.

Lemma url_eqb_eq (a b : option object_url) : url_eqb a b = true -> a = b.
Proof.
  destruct a, b; cbn; try discriminate; auto.
  intros H. apply N.eqb_eq in H. now subst.
Qed.

Lemma rerender_error (s : Screen) (w' : World) :
  (hasError s = true -> audioUrl (state (page s)) <> None) ->
  hasError (rerender s w') = true -> audioUrl (state w') <> None.
Proof.
  unfold rerender, AudioPlayer.reset_on_change. cbn [hasError].
  destruct (url_eqb (audioUrl (state w')) (audioUrl (state (page s)))) eqn:E;
    [|discriminate].
  apply url_eqb_eq in E. rewrite E. auto.
Qed.

Lemma audioUrl_set_audioUrl (u : option object_url) (w : World) :
  mounted w = true -> audioUrl (state (set_audioUrl u w)) = u.
Proof.
  intros Hm. unfold set_audioUrl. rewrite Hm.
  destruct (url_eqb u (audioUrl (state w))) eqn:E.
  - symmetry. now apply url_eqb_eq.
  - now destruct (captured w).
Qed.

Lemma mounted_set_audioUrl (u : option object_url) (w : World) :
  mounted (set_audioUrl u w) = mounted w.
Proof. now destruct (same_form_set_audioUrl u w) as (H & _). Qed.

Section Reach.
Variable MAX_TEXT_LENGTH : N.

Lemma ui_invariant_first : ui_invariant MAX_TEXT_LENGTH first_screen.
Proof.
  split; [exists []; reflexivity|].
  split; [apply form_invariant_mount|discriminate].
Qed.

Lemma ui_invariant_step (a : ui_action) (s s' : Screen) :
  ui_invariant MAX_TEXT_LENGTH s -> ui_step MAX_TEXT_LENGTH a s = Some s' ->
  ui_invariant MAX_TEXT_LENGTH s'.
Proof.
  intros (Hr & Hfi & He).
  destruct a as [newValue|value| | |i o|]; cbn [ui_step].
  - destruct (mounted (page s)) eqn:Hm; [|discriminate].
    destruct (isGenerating (state (page s))); [discriminate|].
    cbn [andb negb]. intros [= <-]. unfold StoryInput.handleChange.
    destruct (str_length newValue <=? MAX_TEXT_LENGTH) eqn:E.
    + split; [|split].
      * apply (reachable_step (ChangeText newValue) _ _ Hr).
        cbn [step]. now rewrite Hm.
      * apply form_invariant_text; [now apply N.leb_le|assumption].
      * now apply rerender_error.
    + split; [assumption|]. split; [assumption|]. now apply rerender_error.
  - destruct (mounted (page s)) eqn:Hm; [|discriminate]. cbn [andb].
    unfold VoiceSelector.select_disabled, VoiceSelector.handleChange.
    destruct (isGenerating (state (page s))); [discriminate|].
    destruct (isLoadingVoices (state (page s))) eqn:Hl; [discriminate|].
    destruct (VoiceSelector.isLoading (voices (state (page s)))) eqn:Hv;
      [discriminate|].
    cbn [andb orb negb].
    destruct (VoiceSelector.offers (voices (state (page s))) value) eqn:Ho;
      [|discriminate].
    intros [= <-]. split; [|split].
    + apply (reachable_step (ChangeVoice value) _ _ Hr).
      cbn [step]. now rewrite Hm.
    + now apply form_invariant_voice.
    + now apply rerender_error.
  - unfold GenerateButton.button_disabled.
    destruct (mounted (page s)
              && negb (isGenerateDisabled (state (page s))
                       || isGenerating (state (page s)))) eqn:E;
      [|discriminate].
    intros [= <-]. split; [|split].
    + apply (reachable_step ClickGenerate _ _ Hr). cbn [step]. now rewrite E.
    + apply form_invariant_generate; [|assumption].
      apply andb_true_iff in E as [_ E]. apply negb_true_iff in E.
      now apply orb_false_iff in E as [E _].
    + now apply rerender_error.
  - destruct (audioUrl (state (page s))) as [u|] eqn:Hu; cbn [AudioPlayer.render];
      [|discriminate].
    destruct (hasError s); [discriminate|].
    destruct (mounted (page s)) eqn:Hm; [|discriminate].
    cbn [AudioPlayer.handleError snd setError exec perform].
    intros [= <-]. cbn [page hasError]. split; [|split].
    + apply (reachable_step AudioError _ _ Hr). cbn [step]. now rewrite Hm.
    + apply (form_invariant_same MAX_TEXT_LENGTH (page s));
        [apply same_form_set_state; reflexivity| |assumption].
      intros _. apply next_url_set_state.
    + intros _. unfold set_state. rewrite Hm. cbn. rewrite Hu. discriminate.
  - destruct (step (Settle i o) (page s)) as [w'|] eqn:E; [|discriminate].
    intros [= <-]. split; [|split].
    + exact (reachable_step _ _ _ Hr E).
    + cbn [step] in E.
      destruct (nth_error (inflight (page s)) i) as [p|] eqn:Hnth;
        [|discriminate].
      injection E as <-.
      apply form_invariant_settle;
        [now apply reachable_invariant|assumption..].
    + now apply rerender_error.
  - destruct (step Unmount (page s)) as [w'|] eqn:E; [|discriminate].
    intros [= <-]. split; [|split].
    + exact (reachable_step _ _ _ Hr E).
    + exact (form_invariant_unmount MAX_TEXT_LENGTH _ _ E Hfi).
    + now apply rerender_error.
Qed.

Lemma ui_invariant_steps (l : list ui_action) (s s' : Screen) :
  ui_invariant MAX_TEXT_LENGTH s -> ui_steps MAX_TEXT_LENGTH l s = Some s' ->
  ui_invariant MAX_TEXT_LENGTH s'.
Proof.
  revert s. induction l as [|a l IH]; intros s Hinv; cbn [ui_steps].
  - now intros [= <-].
  - destruct (ui_step MAX_TEXT_LENGTH a s) as [s1|] eqn:E; [|discriminate].
    apply IH. exact (ui_invariant_step _ _ _ Hinv E).
Qed.

Lemma ui_reachable_invariant (s : Screen) :
  ui_reachable MAX_TEXT_LENGTH s -> ui_invariant MAX_TEXT_LENGTH s.
Proof.
  intros [l Hl]. exact (ui_invariant_steps _ _ _ ui_invariant_first Hl).
Qed.

Lemma ui_step_projects (a : ui_action) (s s' : Screen) :
  ui_step MAX_TEXT_LENGTH a s = Some s' ->
  page s' = page s \/ exists a', step a' (page s) = Some (page s').
Proof.
  destruct a as [newValue|value| | |i o|]; cbn [ui_step].
  - destruct (mounted (page s)) eqn:Hm; [|discriminate].
    destruct (negb (isGenerating (state (page s)))); [|discriminate].
    cbn [andb]. intros [= <-]. unfold StoryInput.handleChange.
    destruct (str_length newValue <=? MAX_TEXT_LENGTH); [|now left].
    right. exists (ChangeText newValue). cbn [step rerender page].
    now rewrite Hm.
  - destruct (mounted (page s)) eqn:Hm; [|discriminate]. cbn [andb].
    match goal with |- (if ?c then _ else _) = _ -> _ =>
      destruct c; [|discriminate]
    end.
    intros [= <-]. right. exists (ChangeVoice value).
    cbn [step rerender page]. now rewrite Hm.
  - unfold GenerateButton.button_disabled.
    destruct (mounted (page s)
              && negb (isGenerateDisabled (state (page s))
                       || isGenerating (state (page s)))) eqn:E;
      [|discriminate].
    intros [= <-]. right. exists ClickGenerate.
    cbn [step rerender page]. now rewrite E.
  - destruct (AudioPlayer.render (audioUrl (state (page s))) (hasError s));
      try discriminate.
    destruct (mounted (page s)) eqn:Hm; [|discriminate].
    cbn [AudioPlayer.handleError snd]. intros [= <-].
    right. exists AudioError. cbn [step page]. now rewrite Hm.
  - destruct (step (Settle i o) (page s)) as [w'|] eqn:E; [|discriminate].
    intros [= <-]. right. now exists (Settle i o).
  - destruct (step Unmount (page s)) as [w'|] eqn:E; [|discriminate].
    intros [= <-]. right. now exists Unmount.
Qed.

(** Once loading is over, no step of the page changes the list of
    voices. *)
Lemma voices_step (a : action) (w w' : World) :
  step a w = Some w' -> invariant w ->
  (mounted w = true -> isLoadingVoices (state w) = false ->
   loading w = O) ->
  isLoadingVoices (state w) = false ->
  voices (state w') = voices (state w) /\
  isLoadingVoices (state w') = false.
Proof.
  intros Hstep Hinv Hloaded Hl.
  destruct a as [value|voiceId| | |i o|]; cbn [step] in Hstep.
  - destruct (mounted w) eqn:Hm; [|discriminate]. injection Hstep as <-.
    unfold set_state. now rewrite Hm.
  - destruct (mounted w) eqn:Hm; [|discriminate]. injection Hstep as <-.
    unfold set_state. now rewrite Hm.
  - destruct (mounted w) eqn:Hm; [|discriminate]. cbn [andb] in Hstep.
    destruct (isGenerateDisabled (state w)) eqn:Hd; [discriminate|].
    destruct (isGenerating (state w)); [discriminate|].
    injection Hstep as <-.
    destruct (enabled_can_generate _ Hd) as [Hcan _].
    destruct (exec_handleGenerate _ _ w Hcan) as (p & -> & _).
    cbn zeta. cbn [with_inflight state].
    destruct (same_form_set_audioUrl None
                (set_state (put_error JNull)
                   (set_state (put_isGenerating true) w)))
      as (_ & _ & _ & -> & -> & _).
    unfold set_state. rewrite Hm. cbn. now rewrite Hm.
  - destruct (mounted w) eqn:Hm; [|discriminate]. injection Hstep as <-.
    cbn [setError exec perform]. unfold set_state. now rewrite Hm.
  - destruct (nth_error (inflight w) i) as [p|] eqn:Hnth; [|discriminate].
    injection Hstep as <-.
    pose proof (Forall_nth_error _ _ _ _ _ (inv_pending _ Hinv) Hnth) as Hwf.
    pose proof (filter_remove_nth _ (fun p => negb (is_generate p)) _ _ _ Hnth)
      as Hcl.
    cbn beta in Hcl. fold (loading w) in Hcl.
    unfold well_formed in Hwf.
    set (w0 := with_inflight (remove_nth i (inflight w)) w).
    destruct (is_generate p) eqn:Hgen; cbn [negb] in Hcl.
    + destruct (same_form_settled_generate _ _ (Hwf o w0))
        as ((_ & _ & _ & Hv & Hl' & _) & _).
      split; [exact Hv|]. now rewrite Hl'.
    + destruct (settled_voices_form _ _ (Hwf o w0))
        as (_ & _ & _ & _ & _ & Hoff & _).
      change (mounted w0) with (mounted w) in Hoff.
      destruct (mounted w) eqn:Hm.
      * specialize (Hloaded eq_refl Hl). lia.
      * now rewrite (Hoff eq_refl).
  - destruct (mounted w) eqn:Hm; [|discriminate]. injection Hstep as <-.
    now destruct (captured w).
Qed.

(** The page with its components does nothing the page alone could not
    do: every state the screen reaches holds a state of the page that is
    reachable by the steps of the page, in which the text area and the
    select accept any value.  What holds of every reachable state of the
    page holds of the screen. *)
Theorem screen_refines_page (s : Screen) :
  ui_reachable MAX_TEXT_LENGTH s ->
  reachable (page s) /\ invariant (page s).
Proof.
  intros H. destruct (ui_reachable_invariant _ H) as (Hr & _).
  split; [assumption|now apply reachable_invariant].
Qed.

(** The story held by the page is never longer than the limit handed to
    the text area: a change to a longer value is dropped by
    [handleChange], and nothing else sets the text. *)
Theorem story_never_exceeds_limit (s : Screen) :
  ui_reachable MAX_TEXT_LENGTH s ->
  StoryInput.characterCount (storyText (state (page s))) <= MAX_TEXT_LENGTH /\
  forall newValue s',
    MAX_TEXT_LENGTH < str_length newValue ->
    ui_step MAX_TEXT_LENGTH (TypeText newValue) s = Some s' ->
    s' = s.
Proof.
  intros H. destruct (ui_reachable_invariant _ H) as (_ & Hfi & He).
  split; [exact (fi_length _ _ Hfi)|].
  intros newValue s' Hlong. cbn [ui_step].
  destruct (mounted (page s) && negb (isGenerating (state (page s))));
    [|discriminate].
  unfold StoryInput.handleChange.
  apply N.leb_gt in Hlong. rewrite Hlong. intros [= <-].
  unfold rerender, AudioPlayer.reset_on_change.
  destruct s as [w h]. cbn [page hasError].
  destruct (audioUrl (state w)) as [u|]; cbn [url_eqb];
    [now rewrite N.eqb_refl|reflexivity].
Qed.

(** Once loading is over, the list of voices is final. *)
Lemma voices_are_final (s : Screen) :
  ui_invariant MAX_TEXT_LENGTH s ->
  isLoadingVoices (state (page s)) = false ->
  forall l s',
    ui_steps MAX_TEXT_LENGTH l s = Some s' ->
    ui_invariant MAX_TEXT_LENGTH s' /\
    isLoadingVoices (state (page s')) = false /\
    voices (state (page s')) = voices (state (page s)).
Proof.
  intros Hinv Hl l. revert s Hinv Hl.
  induction l as [|a l IH]; intros s Hinv Hl s'; cbn [ui_steps].
  - intros [= <-]. auto.
  - destruct (ui_step MAX_TEXT_LENGTH a s) as [s1|] eqn:E; [|discriminate].
    intros Hsteps.
    pose proof (ui_invariant_step _ _ _ Hinv E) as Hinv1.
    assert (H1 : voices (state (page s1)) = voices (state (page s)) /\
                 isLoadingVoices (state (page s1)) = false).
    { destruct (ui_step_projects _ _ _ E) as [->|[a' Ha']]; [now split|].
      destruct Hinv as (Hr & Hfi & _).
      exact (voices_step _ _ _ Ha' (reachable_invariant Hr)
               (fi_loaded _ _ Hfi) Hl). }
    destruct H1 as [Hv1 Hl1].
    destruct (IH s1 Hinv1 Hl1 s' Hsteps) as (A & B & C).
    split; [assumption|]. split; [assumption|]. now rewrite C.
Qed.

(** With an empty list of voices the form is blocked. *)
Lemma empty_list_blocks (s : Screen) :
  ui_invariant MAX_TEXT_LENGTH s ->
  VoiceSelector.isLoading (voices (state (page s))) = true ->
  selectedVoiceId (state (page s)) = None /\
  generating (page s) = O /\ next_url (page s) = 0 /\
  ui_step MAX_TEXT_LENGTH PressGenerate s = None /\
  (forall value, ui_step MAX_TEXT_LENGTH (ChooseVoice value) s = None).
Proof.
  intros (Hr & Hfi & He) Hempty.
  assert (Hsel : selectedVoiceId (state (page s)) = None).
  { destruct (selectedVoiceId (state (page s))) as [v|] eqn:E;
      [|reflexivity].
    destruct (fi_voice _ _ Hfi v E) as (_ & Hne & _). congruence. }
  destruct (fi_never _ _ Hfi Hsel) as [Hg Hn].
  split; [assumption|]. split; [assumption|]. split; [assumption|].
  split.
  - cbn [ui_step]. unfold GenerateButton.button_disabled, isGenerateDisabled.
    rewrite Hsel. cbn [nullable truthy negb]. rewrite orb_true_r.
    cbn [orb negb]. now rewrite andb_false_r.
  - intros value. cbn [ui_step]. unfold VoiceSelector.select_disabled.
    rewrite Hempty, orb_true_r. cbn [negb]. now rewrite andb_false_r.
Qed.

Lemma empty_list_blocks_for_good (s : Screen) :
  ui_invariant MAX_TEXT_LENGTH s ->
  isLoadingVoices (state (page s)) = false ->
  VoiceSelector.isLoading (voices (state (page s))) = true ->
  forall l s',
    ui_steps MAX_TEXT_LENGTH l s = Some s' ->
    voices (state (page s')) = voices (state (page s)) /\
    generating (page s') = O /\
    ui_step MAX_TEXT_LENGTH PressGenerate s' = None /\
    (forall value, ui_step MAX_TEXT_LENGTH (ChooseVoice value) s' = None).
Proof.
  intros Hinv Hl Hempty l s' Hsteps.
  destruct (voices_are_final s Hinv Hl l s' Hsteps) as (Hinv' & _ & Hv).
  rewrite <- Hv in Hempty.
  destruct (empty_list_blocks s' Hinv' Hempty) as (_ & Hg & _ & Hp & Hc).
  auto.
Qed.

(** A selected voice is one of the voices the page has loaded: once a
    voice is selected, loading is over, the list is not empty and stays
    as it is, and when every voice of the list has a string id, the
    selected id is the [voice_id] of one of them. *)
Theorem selected_voice_is_loaded (s : Screen) (v : js_string) :
  ui_reachable MAX_TEXT_LENGTH s ->
  selectedVoiceId (state (page s)) = Some v ->
  isLoadingVoices (state (page s)) = false /\
  VoiceSelector.isLoading (voices (state (page s))) = false /\
  (forall items,
     voices (state (page s)) = JArray items -> string_ids items ->
     exists voice,
       In voice items /\ get voice "voice_id" = Fulfilled (JString v)) /\
  (forall l s',
     ui_steps MAX_TEXT_LENGTH l s = Some s' ->
     voices (state (page s')) = voices (state (page s))).
Proof.
  intros H Hsel. pose proof (ui_reachable_invariant _ H) as Hinv.
  destruct Hinv as (Hr & Hfi & He).
  destruct (fi_voice _ _ Hfi v Hsel) as (Hl & Hne & Ho).
  split; [assumption|]. split; [assumption|]. split.
  - intros items Hitems Hids. rewrite Hitems in Ho.
    cbn [VoiceSelector.offers] in Ho.
    apply existsb_exists in Ho as (voice & Hin & Hv).
    exists voice. split; [assumption|].
    destruct (Hids voice Hin) as (voice_id & Hid). rewrite Hid in Hv.
    apply str_eqb_eq in Hv. now subst.
  - intros l s' Hsteps.
    now destruct (voices_are_final s (ui_reachable_invariant _ H) Hl l s'
                    Hsteps) as (_ & _ & Hv).
Qed.

(** While the list of voices is empty, no voice is selected or can be
    chosen, a click on the button does nothing, no generation is in
    flight and no blob URL has been created.  Once loading is over this
    is for good, since [loadVoices] runs once: whatever happens next, the
    list stays empty and the page cannot generate. *)
Theorem no_voices_no_generation (s : Screen) :
  ui_reachable MAX_TEXT_LENGTH s ->
  VoiceSelector.isLoading (voices (state (page s))) = true ->
  selectedVoiceId (state (page s)) = None /\
  generating (page s) = O /\ next_url (page s) = 0 /\
  ui_step MAX_TEXT_LENGTH PressGenerate s = None /\
  (forall value, ui_step MAX_TEXT_LENGTH (ChooseVoice value) s = None) /\
  (isLoadingVoices (state (page s)) = false ->
   forall l s',
     ui_steps MAX_TEXT_LENGTH l s = Some s' ->
     voices (state (page s')) = voices (state (page s)) /\
     generating (page s') = O /\
     ui_step MAX_TEXT_LENGTH PressGenerate s' = None /\
     (forall value, ui_step MAX_TEXT_LENGTH (ChooseVoice value) s' = None)).
Proof.
  intros H Hempty. pose proof (ui_reachable_invariant _ H) as Hinv.
  destruct (empty_list_blocks s Hinv Hempty) as (A & B & C & D & E).
  repeat (split; [assumption|]).
  intros Hl. exact (empty_list_blocks_for_good s Hinv Hl Hempty).
Qed.

(** The player shows its error box only for an audio URL that is held,
    and every generation starts with the player's error cleared: after a
    click that starts one, the player renders nothing and [hasError] is
    false, whatever it was. *)
Theorem player_error_is_reset (s : Screen) :
  ui_reachable MAX_TEXT_LENGTH s ->
  (hasError s = true ->
   exists url,
     audioUrl (state (page s)) = Some url /\
     AudioPlayer.render (audioUrl (state (page s))) (hasError s)
     = AudioPlayer.ErrorBox) /\
  (forall s',
     ui_step MAX_TEXT_LENGTH PressGenerate s = Some s' ->
     hasError s' = false /\
     AudioPlayer.render (audioUrl (state (page s'))) (hasError s')
     = AudioPlayer.Nothing).
Proof.
  intros H. destruct (ui_reachable_invariant _ H) as (Hr & Hfi & He).
  split.
  - intros Hh. specialize (He Hh).
    destruct (audioUrl (state (page s))) as [u|]; [|contradiction].
    exists u. rewrite Hh. now split.
  - intros s'. cbn [ui_step]. unfold GenerateButton.button_disabled.
    destruct (mounted (page s)) eqn:Hm; [|discriminate]. cbn [andb].
    destruct (isGenerateDisabled (state (page s))) eqn:Hd; [discriminate|].
    destruct (isGenerating (state (page s))); [discriminate|].
    cbn [orb negb]. intros [= <-].
    destruct (enabled_can_generate _ Hd) as [Hcan _].
    destruct (exec_handleGenerate _ _ (page s) Hcan) as (p & -> & _).
    cbn zeta. unfold rerender, AudioPlayer.reset_on_change.
    cbn [page hasError with_inflight state].
    rewrite audioUrl_set_audioUrl
      by now rewrite !PageFacts.mounted_set_state.
    cbn [AudioPlayer.render]. split; [|reflexivity].
    destruct (audioUrl (state (page s))) as [u|]; cbn [url_eqb];
      [reflexivity|].
    destruct (hasError s); [|reflexivity].
    now destruct (He eq_refl).
Qed.

(** ** From the button to the endpoint and back *)

Lemma partition_nil A (f : A -> bool) (l : list A) :
  List.length (filter f l) = O ->
  List.length (filter (fun x => negb (f x)) l) = O -> l = [].
Proof.
  destruct l as [|x l]; [reflexivity|]. cbn.
  destruct (f x); cbn; discriminate.
Qed.

Lemma state_set_state (f : State -> State) (w : World) :
  mounted w = true -> state (set_state f w) = f (state w).
Proof. intros Hm. unfold set_state. now rewrite Hm. Qed.

Lemma error_set_audioUrl (u : option object_url) (w : World) :
  error (state (set_audioUrl u w)) = error (state w).
Proof.
  unfold set_audioUrl. destruct (mounted w); [|reflexivity].
  destruct (url_eqb u (audioUrl (state w))); [reflexivity|].
  now destruct (captured w).
Qed.

(** The request a click leaves in flight, and how the page resumes when
    it settles. *)
Lemma exec_handleGenerate_request (t v : js_string) (w : World) :
  can_generate t (Some v) ->
  exists p init,
    exec (handleGenerate t (Some v)) w =
    (let w' := set_audioUrl None
                 (set_state (put_error JNull)
                    (set_state (put_isGenerating true) w)) in
     with_inflight (inflight w' ++ [p]) w') /\
    p_event p = PageFetch (lit "/api/generate-voice") (Some init) /\
    body init = Some (obj [("text", JString t); ("voice_id", JString v)]) /\
    (forall r w0, audio_answer r ->
       exec (resume p (Fulfilled r)) w0
       = set_state (put_isGenerating false)
           (set_audioUrl (Some (next_url w0)) (created w0))) /\
    (forall r data err w0,
       ok r = false -> json r = Fulfilled data ->
       get data "error" = Fulfilled err ->
       fails_with
         (or_else err
            (JString (lit "Generation failed (" ++ toString (status r)
                      ++ lit ")")))
         w0 (exec (resume p (Fulfilled r)) w0)).
Proof.
  intros Hg. unfold handleGenerate. rewrite (guard_passes _ _ Hg).
  cbn [setIsGenerating setError setAudioUrl fetch bind try_catch try_finally
       exec perform nullable].
  eexists.
  exists {| method := lit "POST";
            headers := [(lit "Content-Type", lit "application/json")];
            body := Some (obj [("text", JString t);
                               ("voice_id", JString v)]) |}.
  split; [reflexivity|]. split; [reflexivity|]. split; [reflexivity|].
  split.
  - intros r w0 (Hok & (ct & Hct & Hinc) & (bytes & Hb)).
    unfold resume. cbn [p_event p_resume await bind try_catch try_finally].
    rewrite Hok. cbn [negb]. rewrite Hct, Hinc, Hb. reflexivity.
  - intros r data err w0 Hok Hj He. unfold resume, fails_with.
    cbn [p_event p_resume await bind try_catch try_finally].
    rewrite Hok. cbn [negb]. rewrite Hj.
    cbn [await bind try_catch try_finally]. rewrite He. reflexivity.
Qed.

(** A click that starts a generation: nothing else is in flight, and the
    one request left in flight is the page's. *)
Lemma press_request (s s1 : Screen) :
  ui_invariant MAX_TEXT_LENGTH s ->
  ui_step MAX_TEXT_LENGTH PressGenerate s = Some s1 ->
  exists v p init,
    can_generate (storyText (state (page s))) (Some v) /\
    selectedVoiceId (state (page s)) = Some v /\
    mounted (page s1) = true /\
    inflight (page s1) = [p] /\
    next_url (page s1) = next_url (page s) /\
    audioUrl (state (page s1)) = None /\
    error (state (page s1)) = JNull /\
    p_event p = PageFetch (lit "/api/generate-voice") (Some init) /\
    body init = Some (obj [("text", JString (storyText (state (page s))));
                           ("voice_id", JString v)]) /\
    (forall r w0, audio_answer r ->
       exec (resume p (Fulfilled r)) w0
       = set_state (put_isGenerating false)
           (set_audioUrl (Some (next_url w0)) (created w0))) /\
    (forall r data err w0,
       ok r = false -> json r = Fulfilled data ->
       get data "error" = Fulfilled err ->
       fails_with
         (or_else err
            (JString (lit "Generation failed (" ++ toString (status r)
                      ++ lit ")")))
         w0 (exec (resume p (Fulfilled r)) w0)).
Proof.
  intros (Hr & Hfi & He). cbn [ui_step].
  unfold GenerateButton.button_disabled.
  destruct (mounted (page s)) eqn:Hm; [|discriminate]. cbn [andb].
  destruct (isGenerateDisabled (state (page s))) eqn:Hd; [discriminate|].
  destruct (isGenerating (state (page s))) eqn:Hg; [discriminate|].
  cbn [orb negb]. intros [= <-].
  destruct (enabled_can_generate _ Hd) as [Hcan Hload].
  pose proof Hcan as (_ & v & Hsel & _).
  rewrite Hsel in Hcan |- *.
  destruct (exec_handleGenerate_request _ _ (page s) Hcan)
    as (p & init & -> & Hev & Hbody & Haudio & Hfail).
  exists v, p, init. cbn zeta. cbn [rerender page with_inflight].
  assert (Hnone : inflight (page s) = []).
  { apply (partition_nil _ is_generate).
    - exact (inv_idle _ (reachable_invariant Hr) Hm Hg).
    - exact (fi_loaded _ _ Hfi Hm Hload). }
  rewrite inflight_set_audioUrl, !inflight_set_state, Hnone.
  unfold with_inflight. cbn [mounted inflight next_url state app].
  rewrite mounted_set_audioUrl, !PageFacts.mounted_set_state.
  rewrite next_url_set_audioUrl, !next_url_set_state.
  rewrite audioUrl_set_audioUrl by now rewrite !PageFacts.mounted_set_state.
  rewrite error_set_audioUrl.
  rewrite state_set_state by now rewrite PageFacts.mounted_set_state.
  repeat (split; [first [assumption|reflexivity]|]).
  assumption.
Qed.

(** The request of the page, once carried to the endpoint, passes every
    validation. *)
Lemma carried_is_valid (rq : NextRequest) (init : RequestInit)
    (t v : js_string) :
  can_generate t (Some v) -> str_length t <= MAX_TEXT_LENGTH ->
  body init = Some (obj [("text", JString t); ("voice_id", JString v)]) ->
  carries (Some init) rq ->
  valid_request MAX_TEXT_LENGTH rq t v.
Proof.
  intros (Ht & v' & [= <-] & Hv) Hlen Hbody (i & b & [= <-] & Hb & Hrq).
  rewrite Hbody in Hb. injection Hb as <-.
  split; [|auto].
  exists (obj [("text", JString t); ("voice_id", JString v)]).
  split; [assumption|]. split; reflexivity.
Qed.

(** Every request the page sends passes the validations of the endpoint:
    a click that does anything leaves one request in flight, a POST to
    the generate endpoint, and an endpoint that receives what the page
    stringified finds a non-blank text within the limit and a non-empty
    voice id, so that, once configured, it calls [generateSpeech] once,
    with the trimmed story and the selected voice. *)
Theorem page_requests_pass_validation (s s1 : Screen) :
  ui_reachable MAX_TEXT_LENGTH s ->
  ui_step MAX_TEXT_LENGTH PressGenerate s = Some s1 ->
  exists v p init,
    selectedVoiceId (state (page s)) = Some v /\
    inflight (page s1) = [p] /\
    p_event p = PageFetch (lit "/api/generate-voice") (Some init) /\
    forall rq,
      carries (Some init) rq ->
      valid_request MAX_TEXT_LENGTH rq (storyText (state (page s))) v /\
      forall toLocaleString env apiKey answers,
        configured env apiKey ->
        generateSpeech_calls
          (fst (run answers (POST MAX_TEXT_LENGTH toLocaleString env rq)))
        = [(apiKey, trim (storyText (state (page s))), v)].
Proof.
  intros H Hpress. pose proof (ui_reachable_invariant _ H) as Hinv.
  destruct (press_request _ _ Hinv Hpress)
    as (v & p & init & Hcan & Hsel & _ & Hin & _ & _ & _ & Hev & Hbody & _).
  exists v, p, init. repeat (split; [assumption|]).
  intros rq Hrq. destruct Hinv as (_ & Hfi & _).
  pose proof (carried_is_valid _ _ _ _ Hcan (fi_length _ _ Hfi) Hbody Hrq)
    as Hvalid.
  split; [assumption|].
  intros toLocaleString env apiKey answers Hconf.
  exact (POST_calls_once MAX_TEXT_LENGTH toLocaleString env apiKey rq _ _
           answers Hconf Hvalid).
Qed.

Lemma settle_pressed (s1 : Screen) (p : Pending) (o : outcome Response) :
  inflight (page s1) = [p] ->
  ui_step MAX_TEXT_LENGTH (Answer 0 o) s1
  = Some (rerender s1 (exec (resume p o) (with_inflight [] (page s1)))).
Proof. intros Hin. cbn [ui_step step]. now rewrite Hin. Qed.

Lemma delivered_audio (bytes : ArrayBuffer) (resp : Response) :
  delivers (audio_response bytes) resp ->
  audio_answer resp /\ blob resp = Fulfilled bytes.
Proof.
  intros (Hst & Hh & Hb). cbn [audio_response res_body] in Hb.
  split; [|assumption]. split; [|split].
  - unfold ok. now rewrite Hst.
  - exists (lit "audio/mpeg"). rewrite Hh. split; reflexivity.
  - now exists bytes.
Qed.

(** From the button to the player.  When the page lets a click through,
    the endpoint is configured and the provider answers the request of
    the endpoint with audio, the endpoint answers the request of the page
    with that audio, and once the answer is delivered the page holds one
    live blob URL, the one created for it, shows no error, is no longer
    busy, and the player renders it. *)
Theorem story_becomes_audio (toLocaleString : N -> js_string)
    (s s1 : Screen) (env : ProcessEnv) (apiKey : js_string)
    (provider : forall e, nodeR e) (r : Response) (bytes : ArrayBuffer) :
  ui_reachable MAX_TEXT_LENGTH s ->
  ui_step MAX_TEXT_LENGTH PressGenerate s = Some s1 ->
  configured env apiKey ->
  (forall url init, provider (Fetch url init) = Fulfilled r) ->
  ok r = true -> arrayBuffer r = Fulfilled bytes ->
  exists p init,
    inflight (page s1) = [p] /\
    p_event p = PageFetch (lit "/api/generate-voice") (Some init) /\
    forall rq,
      carries (Some init) rq ->
      snd (run provider
             (link (POST MAX_TEXT_LENGTH toLocaleString env rq)))
      = Fulfilled (audio_response bytes) /\
      forall resp,
        delivers (audio_response bytes) resp ->
        blob resp = Fulfilled bytes /\
        exists s2,
          ui_step MAX_TEXT_LENGTH (Answer 0 (Fulfilled resp)) s1 = Some s2 /\
          audioUrl (state (page s2)) = Some (next_url (page s)) /\
          live (page s2) = [next_url (page s)] /\
          error (state (page s2)) = JNull /\
          isGenerating (state (page s2)) = false /\
          AudioPlayer.render (audioUrl (state (page s2))) (hasError s2)
          = AudioPlayer.Player (next_url (page s)).
Proof.
  intros H Hpress Hconf Hprov Hok Hbuf.
  pose proof (ui_reachable_invariant _ H) as Hinv.
  pose proof (ui_invariant_step _ _ _ Hinv Hpress) as Hinv1.
  destruct (press_request _ _ Hinv Hpress)
    as (v & p & init & Hcan & Hsel & Hm1 & Hin & Hn1 & Ha1 & He1 & Hev
        & Hbody & Haudio & _).
  exists p, init. split; [assumption|]. split; [assumption|].
  intros rq Hrq.
  assert (Hvalid : valid_request MAX_TEXT_LENGTH rq
                     (storyText (state (page s))) v).
  { destruct Hinv as (_ & Hfi & _).
    exact (carried_is_valid _ _ _ _ Hcan (fi_length _ _ Hfi) Hbody Hrq). }
  split.
  { exact (POST_linked_speech MAX_TEXT_LENGTH toLocaleString env apiKey rq
             _ _ provider r bytes Hconf Hvalid Hprov Hok Hbuf). }
  intros resp Hresp. destruct (delivered_audio _ _ Hresp) as [Haa Hblob].
  split; [assumption|].
  pose proof (settle_pressed s1 p (Fulfilled resp) Hin) as Hstep.
  pose proof (ui_invariant_step _ _ _ Hinv1 Hstep) as (Hr2 & _ & _).
  eexists. split; [exact Hstep|].
  cbn [rerender page hasError] in *.
  rewrite (Haudio resp _ Haa) in *.
  set (w0 := with_inflight [] (page s1)) in *.
  assert (Hm0 : mounted w0 = true) by exact Hm1.
  assert (Hn0 : next_url w0 = next_url (page s)) by exact Hn1.
  assert (He0 : error (state w0) = JNull) by exact He1.
  assert (Hmc : mounted (set_audioUrl (Some (next_url w0)) (created w0))
                = true) by now rewrite mounted_set_audioUrl.
  assert (Haudio2 :
    audioUrl (state (set_state (put_isGenerating false)
                       (set_audioUrl (Some (next_url w0)) (created w0))))
    = Some (next_url (page s))).
  { rewrite state_set_state by assumption. cbn [put_isGenerating audioUrl].
    rewrite audioUrl_set_audioUrl by exact Hm0. now rewrite Hn0. }
  split; [exact Haudio2|]. split; [|split; [|split]].
  - pose proof (inv_live _ (reachable_invariant Hr2)) as Hlive.
    rewrite Haudio2 in Hlive. apply Hlive.
    now rewrite PageFacts.mounted_set_state.
  - rewrite state_set_state by assumption. cbn [put_isGenerating error].
    now rewrite error_set_audioUrl.
  - rewrite state_set_state by assumption. reflexivity.
  - rewrite Haudio2. unfold AudioPlayer.reset_on_change.
    rewrite Ha1. reflexivity.
Qed.

Lemma remapped_shown (s : N) (answer : outcome NextResponse) :
  400 <= s -> remapped s answer ->
  answer = Fulfilled
             (error_response (speech_failure_shown s)
                (if 500 <=? s then 500 else s)).
Proof.
  intros Hs (H401 & H422 & H429 & H4xx & H5xx). unfold speech_failure_shown.
  destruct (s =? 401) eqn:E1.
  { apply N.eqb_eq in E1. subst s. now apply H401. }
  destruct (s =? 422) eqn:E2.
  { apply N.eqb_eq in E2. subst s. now apply H422. }
  destruct (s =? 429) eqn:E3.
  { apply N.eqb_eq in E3. subst s. now apply H429. }
  apply N.eqb_neq in E1, E2, E3.
  destruct (500 <=? s) eqn:E5.
  - apply H5xx. now apply N.leb_le.
  - apply N.leb_gt in E5. apply H4xx; auto.
Qed.

Lemma speech_failure_shown_truthy (s : N) (fallback : js_value) :
  or_else (JString (speech_failure_shown s)) fallback
  = JString (speech_failure_shown s).
Proof.
  unfold speech_failure_shown.
  destruct (s =? 401); [reflexivity|].
  destruct (s =? 422); [reflexivity|].
  destruct (s =? 429); reflexivity.
Qed.

(** From the provider to the alert.  When the provider answers the
    request of the endpoint with a failure status of 400 or more and a
    readable body, the endpoint answers the page with the message it has
    for that status (and the status itself, or 500 for 500 and more), and
    once the answer is delivered the page shows exactly that message:
    nothing of the provider's body reaches the user.  The page is no
    longer busy, holds no audio and has created no blob URL. *)
Theorem provider_failure_reaches_the_alert (toLocaleString : N -> js_string)
    (s s1 : Screen) (env : ProcessEnv) (apiKey : js_string)
    (provider : forall e, nodeR e) (r : Response) (b : js_string) :
  ui_reachable MAX_TEXT_LENGTH s ->
  ui_step MAX_TEXT_LENGTH PressGenerate s = Some s1 ->
  configured env apiKey ->
  (forall url init, provider (Fetch url init) = Fulfilled r) ->
  400 <= status r -> text r = Fulfilled b ->
  exists p init,
    inflight (page s1) = [p] /\
    p_event p = PageFetch (lit "/api/generate-voice") (Some init) /\
    forall rq,
      carries (Some init) rq ->
      snd (run provider
             (link (POST MAX_TEXT_LENGTH toLocaleString env rq)))
      = Fulfilled
          (error_response (speech_failure_shown (status r))
             (if 500 <=? status r then 500 else status r)) /\
      forall resp,
        delivers
          (error_response (speech_failure_shown (status r))
             (if 500 <=? status r then 500 else status r)) resp ->
        exists s2,
          ui_step MAX_TEXT_LENGTH (Answer 0 (Fulfilled resp)) s1 = Some s2 /\
          error (state (page s2)) = JString (speech_failure_shown (status r)) /\
          isGenerating (state (page s2)) = false /\
          audioUrl (state (page s2)) = None /\
          live (page s2) = [] /\
          next_url (page s2) = next_url (page s) /\
          AudioPlayer.render (audioUrl (state (page s2))) (hasError s2)
          = AudioPlayer.Nothing.
Proof.
  intros H Hpress Hconf Hprov Hs Htext.
  pose proof (ui_reachable_invariant _ H) as Hinv.
  pose proof (ui_invariant_step _ _ _ Hinv Hpress) as Hinv1.
  destruct (press_request _ _ Hinv Hpress)
    as (v & p & init & Hcan & Hsel & Hm1 & Hin & Hn1 & Ha1 & He1 & Hev
        & Hbody & _ & Hfail).
  exists p, init. split; [assumption|]. split; [assumption|].
  intros rq Hrq.
  assert (Hvalid : valid_request MAX_TEXT_LENGTH rq
                     (storyText (state (page s))) v).
  { destruct Hinv as (_ & Hfi & _).
    exact (carried_is_valid _ _ _ _ Hcan (fi_length _ _ Hfi) Hbody Hrq). }
  assert (Hok : ok r = false).
  { unfold ok. apply andb_false_iff. right. apply N.leb_gt. lia. }
  split.
  { rewrite link_adequate. cbn [snd].
    destruct (resolved_speech MAX_TEXT_LENGTH env apiKey rq _ _ provider r
                Hconf Hvalid Hprov) as [_ Hrej].
    destruct (Hrej b Hok Htext) as (m & Hm).
    apply remapped_shown; [assumption|].
    exact (POST_provider_error MAX_TEXT_LENGTH toLocaleString env apiKey rq
             _ _ (resolved provider) m (status r) (Some b)
             Hconf Hvalid Hm). }
  intros resp (Hst & _ & Hjson).
  cbn [error_response json_response res_status res_body] in Hst, Hjson.
  pose proof (settle_pressed s1 p (Fulfilled resp) Hin) as Hstep.
  pose proof (ui_invariant_step _ _ _ Hinv1 Hstep) as (Hr2 & _ & _).
  eexists. split; [exact Hstep|].
  cbn [rerender page hasError] in *.
  assert (Hokr : ok resp = false).
  { unfold ok. rewrite Hst. apply andb_false_iff. right. apply N.leb_gt.
    destruct (500 <=? status r); lia. }
  pose proof (Hfail resp _ (JString (speech_failure_shown (status r)))
                (with_inflight [] (page s1)) Hokr Hjson eq_refl) as Hw2.
  rewrite speech_failure_shown_truthy in Hw2. unfold fails_with in Hw2.
  rewrite Hw2 in *.
  set (w0 := with_inflight [] (page s1)) in *.
  assert (Hm0 : mounted w0 = true) by exact Hm1.
  assert (Hstate :
    state (set_state (put_isGenerating false)
             (set_state
                (put_error (JString (speech_failure_shown (status r)))) w0))
    = put_isGenerating false
        (put_error (JString (speech_failure_shown (status r))) (state w0))).
  { rewrite state_set_state by now rewrite PageFacts.mounted_set_state.
    now rewrite state_set_state. }
  assert (Hnoaudio :
    audioUrl (state (set_state (put_isGenerating false)
                       (set_state
                          (put_error
                             (JString (speech_failure_shown (status r))))
                          w0)))
    = None).
  { rewrite Hstate. exact Ha1. }
  split; [now rewrite Hstate|]. split; [now rewrite Hstate|].
  split; [exact Hnoaudio|]. split; [|split].
  - pose proof (inv_live _ (reachable_invariant Hr2)) as Hlive.
    rewrite Hnoaudio in Hlive. apply Hlive.
    now rewrite !PageFacts.mounted_set_state.
  - rewrite !next_url_set_state. exact Hn1.
  - now rewrite Hnoaudio.
Qed.

(** ** From the provider's catalog to the select *)

Lemma waiting_step (t : js_string) :
  str_length t <= MAX_TEXT_LENGTH ->
  ui_step MAX_TEXT_LENGTH (TypeText t) first_screen = Some (waiting_screen t).
Proof.
  intros Ht. unfold ui_step, StoryInput.handleChange.
  apply N.leb_le in Ht. rewrite Ht. reflexivity.
Qed.

Lemma waiting_reachable (t : js_string) :
  str_length t <= MAX_TEXT_LENGTH ->
  ui_reachable MAX_TEXT_LENGTH (waiting_screen t).
Proof.
  intros Ht. exists [TypeText t]. cbn [ui_steps].
  now rewrite (waiting_step t Ht).
Qed.

Lemma mounted_mount : mounted mount = true.
Proof. reflexivity. Qed.

Lemma state_waiting (t : js_string) (f g : State -> State) :
  state (set_state f
           (set_state g (with_inflight [] (page (waiting_screen t)))))
  = f (g (put_storyText t (state mount))) /\
  mounted (set_state f
             (set_state g (with_inflight [] (page (waiting_screen t)))))
  = true.
Proof.
  assert (Hm : mounted (with_inflight [] (page (waiting_screen t))) = true).
  { cbn [with_inflight mounted waiting_screen page].
    now rewrite PageFacts.mounted_set_state. }
  split.
  - rewrite state_set_state by now rewrite PageFacts.mounted_set_state.
    rewrite state_set_state by assumption.
    cbn [with_inflight state waiting_screen page].
    now rewrite state_set_state.
  - now rewrite !PageFacts.mounted_set_state.
Qed.

Lemma offered_voice (items voices : list js_value) (item : js_value)
    (id : js_string) :
  Forall2 reduced_from items voices -> In item items ->
  get item "voice_id" = Fulfilled (JString id) ->
  VoiceSelector.isLoading (JArray voices) = false /\
  VoiceSelector.offers (JArray voices) id = true.
Proof.
  intros Hall Hin Hid.
  assert (Hv : exists voice,
             In voice voices /\
             get voice "voice_id" = Fulfilled (JString id)).
  { induction Hall as [|x y xs ys Hxy _ IH]; [destruct Hin|].
    destruct Hin as [->|Hin].
    - exists y. split; [now left|].
      destruct Hxy as (a & b & c & d & Ha & _ & _ & _ & ->).
      rewrite Hid in Ha. injection Ha as <-. reflexivity.
    - destruct (IH Hin) as (voice & Hv & Hg).
      exists voice. split; [now right|assumption]. }
  destruct Hv as (voice & Hv & Hg). split.
  - destruct voices; [destruct Hv|reflexivity].
  - cbn [VoiceSelector.offers]. apply existsb_exists.
    exists voice. split; [assumption|]. rewrite Hg. apply str_eqb_refl.
Qed.

(** From the provider's catalog to the select.  When the endpoint is
    configured and the provider answers with a catalog whose voices can
    be read, the endpoint answers the page's request on mount with the
    reduced voices, and once the answer is delivered the page holds
    exactly these voices, loading is over, no error is shown, the text
    typed meanwhile is kept, and every voice of the catalog with a string
    id can be chosen in the select. *)
Theorem catalog_reaches_the_select (t : js_string) (env : ProcessEnv)
    (apiKey : js_string) (provider : forall e, nodeR e) (r : Response)
    (data : js_value) (items : list js_value) :
  configured env apiKey ->
  (forall url init, provider (Fetch url init) = Fulfilled r) ->
  ok r = true -> json r = Fulfilled data ->
  get data "voices" = Fulfilled (JArray items) ->
  Forall readable items ->
  exists loaded,
    Forall2 reduced_from items loaded /\
    snd (run provider (link (Voices.GET env)))
    = Fulfilled (voices_response loaded) /\
    forall resp,
      delivers (voices_response loaded) resp ->
      exists s1,
        ui_step MAX_TEXT_LENGTH (Answer 0 (Fulfilled resp)) (waiting_screen t)
        = Some s1 /\
        voices (state (page s1)) = JArray loaded /\
        isLoadingVoices (state (page s1)) = false /\
        error (state (page s1)) = JNull /\
        storyText (state (page s1)) = t /\
        forall item id,
          In item items ->
          get item "voice_id" = Fulfilled (JString id) ->
          exists s2,
            ui_step MAX_TEXT_LENGTH (ChooseVoice id) s1 = Some s2 /\
            selectedVoiceId (state (page s2)) = Some id.
Proof.
  intros Hc Hp Hok Hj Hv Hitems.
  destruct (map_reduce_voice items Hitems) as (vs & Hmap & Hall).
  exists vs. split; [assumption|]. split.
  { rewrite link_adequate. cbn [snd].
    apply (VoicesFacts.GET_voices _ Hc).
    destruct Hc as (_ & Hne & _). cbn [resolved].
    rewrite (proj2 (fetchElevenLabsVoices_outcome provider apiKey r Hne Hp)
               data (JArray items) Hok Hj Hv).
    exact Hmap. }
  intros resp (_ & _ & Hjson).
  cbn [voices_response json_response res_body] in Hjson.
  destruct mount_pending as (p & Hin & Hres).
  assert (Hin' : inflight (page (waiting_screen t)) = [p]).
  { cbn [waiting_screen page]. now rewrite inflight_set_state. }
  pose proof (settle_pressed (waiting_screen t) p (Fulfilled resp) Hin')
    as Hstep.
  destruct (Hres (with_inflight [] (page (waiting_screen t))))
    as (Hsucc & _).
  assert (Henv : envelope resp (JBool true) (JArray vs) JUndefined).
  { eexists. split; [exact Hjson|repeat split]. }
  rewrite (Hsucc resp _ _ _ Henv eq_refl) in Hstep.
  eexists. split; [exact Hstep|].
  cbn [rerender page].
  destruct (state_waiting t (put_isLoadingVoices false)
              (put_voices (JArray vs))) as [Hstate Hmounted].
  rewrite Hstate.
  split; [reflexivity|]. split; [reflexivity|]. split; [reflexivity|].
  split; [reflexivity|].
  intros item id Hitem Hid.
  destruct (offered_voice _ _ _ _ Hall Hitem Hid) as [Hne Hoff].
  cbn [ui_step rerender page]. rewrite Hmounted, Hstate.
  unfold VoiceSelector.select_disabled, VoiceSelector.handleChange.
  cbn [put_isLoadingVoices put_voices voices isLoadingVoices isGenerating
       put_storyText].
  change (isGenerating (state mount)) with false.
  rewrite Hne, Hoff. cbn [andb orb negb].
  eexists. split; [reflexivity|].
  cbn [rerender page]. now rewrite state_set_state.
Qed.

(** A failed load blocks the page for good.  When the page's request on
    mount is answered with an error envelope, as the voices endpoint
    answers when it is not configured or the provider fails, then
    whatever the status the page shows the message of the envelope,
    loading is over with an empty list, and from then on no voice can be
    chosen and no generation can be started, whatever the user does:
    [loadVoices] is not run again. *)
Theorem failed_load_blocks_the_page (t : js_string) (message : js_string)
    (code : N) :
  str_length t <= MAX_TEXT_LENGTH ->
  message <> [] ->
  forall resp,
    delivers (error_response message code) resp ->
    exists s1,
      ui_step MAX_TEXT_LENGTH (Answer 0 (Fulfilled resp)) (waiting_screen t)
      = Some s1 /\
      error (state (page s1)) = JString message /\
      isLoadingVoices (state (page s1)) = false /\
      voices (state (page s1)) = JArray [] /\
      forall l s',
        ui_steps MAX_TEXT_LENGTH l s1 = Some s' ->
        voices (state (page s')) = JArray [] /\
        generating (page s') = O /\
        ui_step MAX_TEXT_LENGTH PressGenerate s' = None /\
        (forall value, ui_step MAX_TEXT_LENGTH (ChooseVoice value) s' = None).
Proof.
  intros Ht Hmsg resp (_ & _ & Hjson).
  cbn [error_response json_response res_body] in Hjson.
  destruct mount_pending as (p & Hin & Hres).
  assert (Hin' : inflight (page (waiting_screen t)) = [p]).
  { cbn [waiting_screen page]. now rewrite inflight_set_state. }
  pose proof (settle_pressed (waiting_screen t) p (Fulfilled resp) Hin')
    as Hstep.
  destruct (Hres (with_inflight [] (page (waiting_screen t))))
    as (_ & Hfail).
  assert (Henv : envelope resp (JBool false) JUndefined (JString message)).
  { eexists. split; [exact Hjson|repeat split]. }
  assert (Hor : or_else (JString message) (js_str "Failed to load voices")
                = JString message).
  { destruct message; [contradiction|reflexivity]. }
  rewrite (Hfail resp _ _ _ Henv eq_refl), Hor in Hstep.
  pose proof (ui_invariant_step _ _ _
                (ui_reachable_invariant _ (waiting_reachable t Ht)) Hstep)
    as Hinv1.
  eexists. split; [exact Hstep|].
  destruct (state_waiting t (put_isLoadingVoices false)
              (put_error (JString message))) as [Hstate _].
  cbn [rerender page] in *.
  split; [now rewrite Hstate|]. split; [now rewrite Hstate|].
  split; [now rewrite Hstate|].
  intros l s' Hsteps.
  destruct (empty_list_blocks_for_good _ Hinv1) with (l := l) (s' := s')
    as (Hv & Hrest); cbn [rerender page]; try (now rewrite Hstate);
    [exact Hsteps|].
  cbn [rerender page] in Hv. rewrite Hstate in Hv.
  split; [exact Hv|exact Hrest].
Qed.

End Reach.

(** ** Instances *)

Lemma story_screen_reachable : ui_reachable 100000 story_screen.
Proof. exists typed_session. reflexivity. Qed.

Lemma story_screen_pressed :
  ui_step 100000 PressGenerate story_screen = Some pressed_screen.
Proof. reflexivity. Qed.

Lemma first_screen_reachable : ui_reachable 100000 first_screen.
Proof. exists []. reflexivity. Qed.

Lemma pressed_request_carried (p : Pending) (init : RequestInit) :
  inflight (page pressed_screen) = [p] ->
  p_event p = PageFetch (lit "/api/generate-voice") (Some init) ->
  carries (Some init) typed_request.
Proof.
  intros Hin Hev. vm_compute in Hin. injection Hin as <-.
  cbn [p_event] in Hev. injection Hev as <-.
  eexists _, _. repeat split; reflexivity.
Qed.

Lemma screen_refines_page_witness :
  reachable (page story_screen) /\ invariant (page story_screen).
Proof.
  exact (screen_refines_page 100000 story_screen story_screen_reachable).
Defined.

Lemma story_never_exceeds_limit_witness :
  StoryInput.characterCount (storyText (state (page story_screen)))
  <= 100000 /\
  forall newValue s',
    100000 < str_length newValue ->
    ui_step 100000 (TypeText newValue) story_screen = Some s' ->
    s' = story_screen.
Proof.
  exact (story_never_exceeds_limit 100000 story_screen
           story_screen_reachable).
Defined.

Lemma selected_voice_is_loaded_witness :
  exists voice,
    In voice [obj [("voice_id", js_str "v1"); ("name", js_str "Rachel");
                   ("category", js_str "premade")]] /\
    get voice "voice_id" = Fulfilled (JString (lit "v1")).
Proof.
  destruct (selected_voice_is_loaded 100000 story_screen (lit "v1")
              story_screen_reachable eq_refl) as (_ & _ & Hids & _).
  apply Hids; [reflexivity|].
  intros voice [<-|[]]. eexists. reflexivity.
Defined.

Lemma no_voices_no_generation_witness :
  selectedVoiceId (state (page first_screen)) = None /\
  generating (page first_screen) = O /\ next_url (page first_screen) = 0 /\
  ui_step 100000 PressGenerate first_screen = None /\
  (forall value, ui_step 100000 (ChooseVoice value) first_screen = None) /\
  (isLoadingVoices (state (page first_screen)) = false ->
   forall l s',
     ui_steps 100000 l first_screen = Some s' ->
     voices (state (page s')) = voices (state (page first_screen)) /\
     generating (page s') = O /\
     ui_step 100000 PressGenerate s' = None /\
     (forall value, ui_step 100000 (ChooseVoice value) s' = None)).
Proof.
  exact (no_voices_no_generation 100000 first_screen first_screen_reachable
           eq_refl).
Defined.

Lemma player_error_is_reset_witness :
  hasError pressed_screen = false /\
  AudioPlayer.render (audioUrl (state (page pressed_screen)))
    (hasError pressed_screen)
  = AudioPlayer.Nothing.
Proof.
  destruct (player_error_is_reset 100000 story_screen
              story_screen_reachable) as [_ Hpress].
  exact (Hpress pressed_screen story_screen_pressed).
Defined.

Lemma page_requests_pass_validation_witness :
  valid_request 100000 typed_request (lit "Once upon a time") (lit "v1") /\
  generateSpeech_calls
    (fst (run (stubbed (Fulfilled sample_audio) (Fulfilled []))
            (POST 100000 toLocaleString_en_US sample_env typed_request)))
  = [(lit "sk_test_key", lit "Once upon a time", lit "v1")].
Proof.
  destruct (page_requests_pass_validation 100000 story_screen pressed_screen
              story_screen_reachable story_screen_pressed)
    as (v & p & init & Hsel & Hin & Hev & Hrq).
  vm_compute in Hsel. injection Hsel as <-.
  destruct (Hrq typed_request (pressed_request_carried p init Hin Hev))
    as [Hvalid Hcalls].
  split; [exact Hvalid|].
  exact (Hcalls toLocaleString_en_US sample_env (lit "sk_test_key")
           (stubbed (Fulfilled sample_audio) (Fulfilled []))
           sample_configured).
Defined.

Lemma story_becomes_audio_witness :
  snd (run (provider_answers
              (response_of 200 (lit "OK") sample_audio [] JNull))
         (link (POST 100000 toLocaleString_en_US sample_env typed_request)))
  = Fulfilled (audio_response sample_audio) /\
  exists s2,
    ui_step 100000
      (Answer 0 (Fulfilled (delivered (audio_response sample_audio))))
      pressed_screen = Some s2 /\
    audioUrl (state (page s2)) = Some 0 /\
    live (page s2) = [0] /\
    error (state (page s2)) = JNull /\
    isGenerating (state (page s2)) = false /\
    AudioPlayer.render (audioUrl (state (page s2))) (hasError s2)
    = AudioPlayer.Player 0.
Proof.
  destruct (story_becomes_audio 100000 toLocaleString_en_US story_screen
              pressed_screen sample_env (lit "sk_test_key")
              (provider_answers
                 (response_of 200 (lit "OK") sample_audio [] JNull))
              (response_of 200 (lit "OK") sample_audio [] JNull)
              sample_audio story_screen_reachable story_screen_pressed
              sample_configured (fun _ _ => eq_refl) eq_refl eq_refl)
    as (p & init & Hin & Hev & Hrq).
  destruct (Hrq typed_request (pressed_request_carried p init Hin Hev))
    as [Hanswer Hpage].
  split; [exact Hanswer|].
  destruct (Hpage (delivered (audio_response sample_audio)))
    as [_ Hs2]; [repeat split|].
  exact Hs2.
Defined.

Lemma provider_failure_reaches_the_alert_witness :
  snd (run (provider_answers
              (response_of 429 (lit "Too Many Requests") []
                 (lit "slow down") JNull))
         (link (POST 100000 toLocaleString_en_US sample_env typed_request)))
  = Fulfilled
      (error_response
         (lit "Speech service rate limit exceeded, please try again later")
         429) /\
  exists s2,
    ui_step 100000
      (Answer 0
         (Fulfilled
            (delivered
               (error_response
                  (lit "Speech service rate limit exceeded, please try again later")
                  429))))
      pressed_screen = Some s2 /\
    error (state (page s2))
    = js_str "Speech service rate limit exceeded, please try again later" /\
    isGenerating (state (page s2)) = false /\
    audioUrl (state (page s2)) = None /\
    live (page s2) = [] /\
    next_url (page s2) = 0 /\
    AudioPlayer.render (audioUrl (state (page s2))) (hasError s2)
    = AudioPlayer.Nothing.
Proof.
  assert (Hs : 400 <= 429) by (intros E; discriminate E).
  destruct (provider_failure_reaches_the_alert 100000 toLocaleString_en_US
              story_screen pressed_screen sample_env (lit "sk_test_key")
              (provider_answers
                 (response_of 429 (lit "Too Many Requests") []
                    (lit "slow down") JNull))
              (response_of 429 (lit "Too Many Requests") []
                 (lit "slow down") JNull)
              (lit "slow down") story_screen_reachable story_screen_pressed
              sample_configured (fun _ _ => eq_refl) Hs eq_refl)
    as (p & init & Hin & Hev & Hrq).
  destruct (Hrq typed_request (pressed_request_carried p init Hin Hev))
    as [Hanswer Hpage].
  split; [exact Hanswer|].
  apply (Hpage
           (delivered
              (error_response
                 (lit "Speech service rate limit exceeded, please try again later")
                 429))).
  repeat split.
Defined.

Lemma catalog_reaches_the_select_witness :
  exists loaded s1 s2,
    Forall2 reduced_from [rachel] loaded /\
    snd (run (provider_answers (response_of 200 (lit "OK") [] [] catalog))
           (link (Voices.GET sample_env)))
    = Fulfilled (voices_response loaded) /\
    ui_step 100000 (Answer 0 (Fulfilled (delivered (voices_response loaded))))
      (waiting_screen (lit "Once upon a time"))
    = Some s1 /\
    voices (state (page s1)) = JArray loaded /\
    ui_step 100000 (ChooseVoice (lit "v1")) s1 = Some s2 /\
    selectedVoiceId (state (page s2)) = Some (lit "v1").
Proof.
  destruct (catalog_reaches_the_select 100000 (lit "Once upon a time")
              sample_env (lit "sk_test_key")
              (provider_answers (response_of 200 (lit "OK") [] [] catalog))
              (response_of 200 (lit "OK") [] [] catalog)
              catalog [rachel] sample_configured (fun _ _ => eq_refl)
              eq_refl eq_refl eq_refl VoicesFacts.catalog_readable)
    as (loaded & Hall & Hanswer & Hpage).
  destruct (Hpage (delivered (voices_response loaded)))
    as (s1 & Hstep & Hvoices & _ & _ & _ & Hchoose); [repeat split|].
  destruct (Hchoose rachel (lit "v1")) as (s2 & Hstep2 & Hsel);
    [now left|reflexivity|].
  exists loaded, s1, s2. auto 10.
Defined.

Lemma failed_load_blocks_the_page_witness :
  exists s1,
    ui_step 100000 (Answer 0 (Fulfilled (delivered config_error)))
      (waiting_screen (lit "Once upon a time"))
    = Some s1 /\
    error (state (page s1))
    = js_str "Server configuration error: API key not set" /\
    isLoadingVoices (state (page s1)) = false /\
    voices (state (page s1)) = JArray [] /\
    forall l s',
      ui_steps 100000 l s1 = Some s' ->
      voices (state (page s')) = JArray [] /\
      generating (page s') = O /\
      ui_step 100000 PressGenerate s' = None /\
      (forall value, ui_step 100000 (ChooseVoice value) s' = None).
Proof.
  assert (Ht : str_length (lit "Once upon a time") <= 100000)
    by (intros E; discriminate E).
  assert (Hm : lit "Server configuration error: API key not set" <> [])
    by (intros E; discriminate E).
  apply (failed_load_blocks_the_page 100000 (lit "Once upon a time")
           (lit "Server configuration error: API key not set") 500 Ht Hm
           (delivered config_error)).
  repeat split.
Defined.

End ScreenFacts.
